(** * Skip-hire booking UI: catalog transformer and step wizard

    A shallow embedding of the logic of
    [src/app/components/hybrid-skip-panel.tsx] (raw rate records, their
    decoration, the catalog and its two lookups, the texts of the skip card
    and the card panel) and of [src/app/components/tabs.tsx] (tab
    reordering, the six-step wizard with its step indicator, and the option
    lists of its steps).

    A TypeScript [number] is an IEEE 754 binary64 value: it is embedded as
    Rocq's primitive [float], whose operations are the same binary64
    operations, so that the tax arithmetic is bit-for-bit the source's.
    General facts about these operations come from the axioms of
    [FloatAxioms], which specify them by [SpecFloat].  Array indices and
    the wizard's step counter only ever hold small integers and are
    embedded as [Z] (resp. [nat] for positions). *)

From Stdlib Require Import ZArith Lia Bool List String Ascii.
From Stdlib Require Import Floats DecimalString Permutation Sorted.
From Stdlib Require Uint63 DecimalZ DecimalPos.
Import ListNotations.

Set Warnings "-inexact-float".

Local Open Scope Z_scope.

(** ** ECMAScript numbers *)

Module JSNumber.

(** [ToBoolean] on a number: [+0], [-0] and [NaN] are falsy. *)
Definition truthy (x : float) : bool := negb (is_nan x || is_zero x).

(** [a > b] *)
Definition gt (a b : float) : bool := (b <? a)%float.

(** [a >= b] *)
Definition ge (a b : float) : bool := (b <=? a)%float.

(** [a === b] on numbers *)
Definition strict_eq (a b : float) : bool := (a =? b)%float.

(** ECMAScript's SameValueZero: [===] except that [NaN] equals itself. *)
Definition same_value_zero (a b : float) : bool :=
  (a =? b)%float || (is_nan a && is_nan b).

(** The binary64 value of an integer (exact below [2^53]). *)
Definition of_Z (n : Z) : float :=
  if n <? 0 then (- of_uint63 (Uint63.of_Z (- n)))%float
  else of_uint63 (Uint63.of_Z n).

(** [Math.round]: the integral number closest to [x], ties towards
    [+Infinity]; [NaN], the infinities and the zeros are returned as they
    are, and a result in [[-0.5, 0)] is [-0].  A finite [x] is
    [(+/-) m * 2^e]; with [0 <= e] it is integral already, otherwise the
    result is [floor (x + 1/2)], computed exactly. *)
Definition Math_round (x : float) : float :=
  match Prim2SF x with
  | S754_finite s m e =>
      if 0 <=? e then x
      else
        let v := if s then Z.neg m else Z.pos m in
        let n := (2 * v + 2 ^ (- e)) / 2 ^ (1 - e) in
        if n =? 0 then (if s then neg_zero else zero) else of_Z n
  | _ => x
  end.

(** The integer a number holds, when it is a safe integer
    ([Number.isSafeInteger]): integral and of magnitude below [2^53]. *)
Definition to_safe_integer (x : float) : option Z :=
  match Prim2SF x with
  | S754_zero _ => Some 0
  | S754_finite s m e =>
      if 0 <? e then None
      else if Z.pos m mod 2 ^ (- e) =? 0
           then Some (cond_Zopp s (Z.pos m / 2 ^ (- e)))
           else None
  | _ => None
  end.

Definition string_of_Z (n : Z) : string := NilZero.string_of_int (Z.to_int n).

Section ToString.

(** [Number::toString] prints a safe integer as its decimal digits.  For
    the other finite numbers it prints the shortest decimal that reads
    back as the same binary64 value; that part is not needed to evaluate
    the catalog and is left as a parameter. *)
Variable shortest_decimal : float -> string.

Definition toString (x : float) : string :=
  match Prim2SF x with
  | S754_nan => "NaN"
  | S754_infinity false => "Infinity"
  | S754_infinity true => "-Infinity"
  | _ => match to_safe_integer x with
         | Some n => string_of_Z n
         | None => shortest_decimal x
         end
  end.

End ToString.

End JSNumber.

Import JSNumber.

(** ** ECMAScript arrays *)

Module JSArray.

Section Ops.

Context {A : Type}.

(** [Array.prototype.sort(comparefn)].  The sort is stable, and a
    comparator result that is [NaN] counts as [+0]; for a consistent
    comparator the outcome is the unique stable ordering, which a stable
    insertion sort computes: [y] goes before an earlier [x] only when
    [comparefn(x, y) > 0]. *)
Fixpoint insert_by (comparefn : A -> A -> float) (x : A) (l : list A) : list A :=
  match l with
  | [] => [x]
  | y :: l' =>
      if gt (comparefn x y) 0 then y :: insert_by comparefn x l'
      else x :: l
  end.

Fixpoint sort (comparefn : A -> A -> float) (l : list A) : list A :=
  match l with
  | [] => []
  | x :: l' => insert_by comparefn x (sort comparefn l')
  end.

(** [Array.prototype.findIndex]: the first index whose element satisfies
    the predicate, [-1] when there is none. *)
Fixpoint findIndex_from (p : A -> bool) (l : list A) (i : Z) : Z :=
  match l with
  | [] => -1
  | x :: l' => if p x then i else findIndex_from p l' (i + 1)
  end.

Definition findIndex (p : A -> bool) (l : list A) : Z := findIndex_from p l 0.

(** The elements paired with their indices, as [forEach] and [map] hand
    them to a callback. *)
Fixpoint entries_from (l : list A) (i : Z) : list (Z * A) :=
  match l with
  | [] => []
  | x :: l' => (i, x) :: entries_from l' (i + 1)
  end.

Definition entries (l : list A) : list (Z * A) := entries_from l 0.

(** [l[i]]: [None] stands for [undefined]. *)
Definition item (l : list A) (i : Z) : option A :=
  if i <? 0 then None else nth_error l (Z.to_nat i).

(** [l.splice(start, 1)] for [0 <= start]: the removed elements and what
    remains of [l]. *)
Definition splice1 (l : list A) (start : nat) : list A * list A :=
  (firstn 1 (skipn start l), firstn start l ++ skipn (S start) l).

End Ops.

End JSArray.

Import JSArray.

(** ** The catalog transformer ([hybrid-skip-panel.tsx]) *)

(** [SkipApiData] of [src/types/index.ts]; [None] is [null]. *)
Record SkipApiData := {
  id : float;
  size : float;
  hire_period_days : float;
  transport_cost : option float;
  per_tonne_cost : option float;
  price_before_vat : float;
  vat : float;
  postcode : string;
  area : string;
  forbidden : bool;
  created_at : string;
  updated_at : string;
  allowed_on_road : bool;
  allows_heavy_waste : bool
}.

Inductive LucideIcon := Home | Building | Factory | TruckIcon | Warehouse.

Record UseCase := { type : string; percentage : float }.

(** The object [getDisplayProperties] returns; [badge] is only set in the
    entry for size 6. *)
Record DisplayProperties := {
  name : string;
  scale : float;
  popularity : float;
  icon : LucideIcon;
  gradient : string;
  description : string;
  capacity : string;
  dimensions : string;
  weight : string;
  bestFor : list string;
  useCases : list UseCase;
  badge : option string
}.

(** [Skip]: the object literal
    [{...apiData, final_price, price_with_vat, ...displayProps, restrictions, deliveryTime}].
    No key occurs in both spreads, so they are kept as two sub-records. *)
Record Skip := {
  apiData : SkipApiData;
  final_price : float;
  price_with_vat : float;
  displayProps : DisplayProperties;
  restrictions : list string;
  deliveryTime : string
}.

(** A record of the fixture: the fields that every record of [rawApiData]
    shares are filled in. *)
Definition mkRaw (i sz : float) (tc ptc : option float) (p : float)
    (cr up : string) (road heavy : bool) : SkipApiData :=
  {| id := i; size := sz; hire_period_days := 14;
     transport_cost := tc; per_tonne_cost := ptc;
     price_before_vat := p; vat := 20;
     postcode := "NR32"; area := ""; forbidden := false;
     created_at := cr; updated_at := up;
     allowed_on_road := road; allows_heavy_waste := heavy |}.

(** The hardcoded fixture. *)
Definition rawApiData : list SkipApiData :=
  [ mkRaw 17933 4 None None 278
      "2025-04-03T13:51:46.897146" "2025-04-07T13:16:52.813" true true;
    mkRaw 17934 6 None None 305
      "2025-04-03T13:51:46.897146" "2025-04-07T13:16:52.992" true true;
    mkRaw 17935 8 None None 375
      "2025-04-03T13:51:46.897146" "2025-04-07T13:16:53.171" true true;
    mkRaw 17936 10 None None 400
      "2025-04-03T13:51:46.897146" "2025-04-07T13:16:53.339" false false;
    mkRaw 17937 12 None None 439
      "2025-04-03T13:51:46.897146" "2025-04-07T13:16:53.516" false false;
    mkRaw 17938 14 None None 470
      "2025-04-03T13:51:46.897146" "2025-04-07T13:16:53.69" false false;
    mkRaw 17939 16 None None 496
      "2025-04-03T13:51:46.897146" "2025-04-07T13:16:53.876" false false;
    mkRaw 15124 20 (Some 248%float) (Some 248%float) 992
      "2025-04-03T13:51:40.344435" "2025-04-07T13:16:52.434" false true;
    mkRaw 15125 40 (Some 248%float) (Some 248%float) 992
      "2025-04-03T13:51:40.344435" "2025-04-07T13:16:52.603" false false ].

Section Catalog.

Local Open Scope string_scope.

(** [Number::toString] on the numbers that are not safe integers (see
    [JSNumber.toString]). *)
Variable shortest_decimal : float -> string.

Local Abbreviation str := (toString shortest_decimal).

Definition mkUse (t : string) (p : float) : UseCase :=
  {| type := t; percentage := p |}.

(** The table [sizeConfig].  Its keys are the decimal strings 4, 6, 8, 10
    and 12, and a number's property key is its [toString], which is one
    of them exactly when the number is that integer. *)
Definition sizeConfig (key : float) : option DisplayProperties :=
  match to_safe_integer key with
  | Some 4%Z => Some
      {| name := "Compact"; scale := 1.2; popularity := 0.15; icon := Home;
         gradient := "from-emerald-400 via-green-500 to-teal-600";
         description := "Perfect for small home projects and garden clearances";
         capacity := "30-40 bin bags";
         dimensions := "4ft × 6ft × 3ft";
         weight := "2-3 tonnes";
         bestFor := ["Garden waste"; "Small renovations"; "Decluttering";
                     "DIY projects"];
         useCases := [mkUse "Garden clearance" 85; mkUse "Small renovation" 70;
                      mkUse "Decluttering" 90];
         badge := None |}
  | Some 6%Z => Some
      {| name := "Standard"; scale := 1.2; popularity := 0.35; icon := Home;
         gradient := "from-blue-400 via-sky-500 to-indigo-600";
         description := "Most popular choice for home renovations";
         capacity := "50-60 bin bags";
         dimensions := "6ft × 8ft × 4ft";
         weight := "3-4 tonnes";
         bestFor := ["Kitchen renovations"; "Bathroom refits";
                     "Medium clear-outs"; "House moves"];
         useCases := [mkUse "Kitchen renovation" 95; mkUse "Bathroom refit" 90;
                      mkUse "House move" 75];
         badge := Some "Most Popular" |}
  | Some 8%Z => Some
      {| name := "Large"; scale := 1.2; popularity := 0.25; icon := Building;
         gradient := "from-rose-400 via-pink-500 to-fuchsia-600";
         description := "Ideal for larger home projects and extensions";
         capacity := "70-80 bin bags";
         dimensions := "8ft × 10ft × 4.5ft";
         weight := "4-5 tonnes";
         bestFor := ["Full room renovations"; "Extensions";
                     "Large garden projects"; "Commercial fit-outs"];
         useCases := [mkUse "Full renovation" 90; mkUse "Extension work" 85;
                      mkUse "Commercial project" 70];
         badge := None |}
  | Some 10%Z => Some
      {| name := "Extra Large"; scale := 1.2; popularity := 0.2;
         icon := Building;
         gradient := "from-violet-400 via-purple-500 to-indigo-700";
         description := "Perfect for major home projects and large clearouts";
         capacity := "90-100 bin bags";
         dimensions := "10ft × 12ft × 5ft";
         weight := "5-6 tonnes";
         bestFor := ["Major renovations"; "Large extensions";
                     "Commercial projects"; "Construction waste"];
         useCases := [mkUse "Major renovation" 95; mkUse "Large extension" 85;
                      mkUse "Construction" 80];
         badge := None |}
  | Some 12%Z => Some
      {| name := "Commercial"; scale := 1.2; popularity := 0.15;
         icon := Factory;
         gradient := "from-amber-400 via-orange-500 to-red-600";
         description := "Heavy-duty solution for major construction";
         capacity := "110-120 bin bags";
         dimensions := "12ft × 14ft × 5.5ft";
         weight := "6-8 tonnes";
         bestFor := ["Major construction"; "Industrial projects";
                     "Large demolitions"; "Commercial builds"];
         useCases := [mkUse "Construction" 95; mkUse "Demolition" 90;
                      mkUse "Industrial" 80];
         badge := None |}
  | _ => None
  end.

(** [defaultConfig]: the object built for sizes without a table entry. *)
Definition defaultConfig (size : float) : DisplayProperties :=
  {| name := str size ++ " Yard Skip";
     scale := 1.2;
     popularity := 0.1;
     icon := if ge size 16 then Factory
             else if ge size 10 then Building else Home;
     gradient :=
       if ge size 40 then "from-slate-600 via-gray-700 to-zinc-800"
       else if ge size 20 then "from-red-500 via-red-700 to-red-900"
       else if ge size 16 then "from-cyan-400 via-teal-500 to-emerald-600"
       else if ge size 14 then "from-indigo-400 via-blue-600 to-blue-900"
       else if ge size 12 then "from-yellow-400 via-amber-500 to-orange-600"
       else "from-slate-400 via-gray-500 to-zinc-600";
     description :=
       if ge size 20 then "Industrial-grade solution for major projects"
       else if ge size 16 then "Large commercial and construction projects"
       else if ge size 12 then "Heavy-duty commercial applications"
       else str size ++ " yard skip for medium to large projects";
     capacity :=
       str (Math_round (size * 10)) ++ "-" ++
       str (Math_round (size * 12)) ++ " bin bags";
     dimensions :=
       str (Math_round (size * 1.2)) ++ "ft × " ++
       str (Math_round (size * 1.5)) ++ "ft × " ++
       str (Math_round (size * 0.4 + 3)) ++ "ft";
     weight :=
       str (Math_round (size * 0.6)) ++ "-" ++
       str (Math_round (size * 0.8)) ++ " tonnes";
     bestFor :=
       if ge size 20 then
         ["Industrial projects"; "Major construction"; "Large demolitions";
          "Commercial builds"]
       else if ge size 16 then
         ["Large construction"; "Commercial projects"; "Major demolitions";
          "Industrial work"]
       else if ge size 12 then
         ["Construction projects"; "Commercial renovation"; "Large clearouts";
          "Industrial use"]
       else
         ["Medium construction"; "Large renovation"; "Commercial projects";
          "Bulk waste"];
     useCases :=
       [ mkUse (if ge size 20 then "Industrial"
                else if ge size 16 then "Large construction"
                else if ge size 12 then "Construction"
                else "Large project") 90;
         mkUse (if ge size 20 then "Major construction"
                else if ge size 16 then "Commercial"
                else if ge size 12 then "Commercial renovation"
                else "Commercial") 80;
         mkUse "Bulk clearance" 70 ];
     badge := None |}.

(** [sizeConfig[size] || defaultConfig]: every table entry is an object,
    hence truthy, so the default is taken exactly when the lookup is
    [undefined]. *)
Definition getDisplayProperties (apiData : SkipApiData) : DisplayProperties :=
  let size := size apiData in
  match sizeConfig size with
  | Some config => config
  | None => defaultConfig size
  end.

Definition transformApiDataToSkip (apiData : SkipApiData) : Skip :=
  let displayProps := getDisplayProperties apiData in
  let priceWithVat :=
    Math_round (price_before_vat apiData * (1 + vat apiData / 100)) in
  let finalPrice :=
    match transport_cost apiData with
    | Some cost => if truthy cost then (priceWithVat + cost)%float
                   else priceWithVat
    | None => priceWithVat
    end in
  let restrictions : list string := [] in
  let restrictions :=
    if negb (allowed_on_road apiData)
    then (restrictions ++ ["Road permit required"])%list
    else restrictions in
  let restrictions :=
    if negb (allows_heavy_waste apiData)
    then (restrictions ++ ["Heavy waste restrictions apply"])%list
    else restrictions in
  let restrictions :=
    match transport_cost apiData with
    | Some cost =>
        if truthy cost
        then (restrictions ++ ["Additional transport costs apply"])%list
        else restrictions
    | None => restrictions
    end in
  {| apiData := apiData;
     final_price := finalPrice;
     price_with_vat := priceWithVat;
     displayProps := displayProps;
     restrictions := restrictions;
     deliveryTime :=
       match transport_cost apiData with
       | Some cost => if truthy cost then "Next day" else "Same day"
       | None => "Same day"
       end |}.

(** The chain [.filter(...).map(transformApiDataToSkip).sort(...)] that
    defines [skipData], as a function of the raw records. *)
Definition buildCatalog (raw : list SkipApiData) : list Skip :=
  sort (fun a b => (size (apiData a) - size (apiData b))%float)
       (map transformApiDataToSkip
            (filter (fun skip => negb (forbidden skip)) raw)).

Definition skipData : list Skip := buildCatalog rawApiData.

(** One callback of the [forEach] in [getMostPopularSkipIndex]; the state
    is the pair of the two local variables it assigns. *)
Definition scan (st : Z * float) (entry : Z * Skip) : Z * float :=
  let '(mostPopularIndex, highestPopularity) := st in
  let '(index, skip) := entry in
  if gt (popularity (displayProps skip)) highestPopularity
  then (index, popularity (displayProps skip))
  else (mostPopularIndex, highestPopularity).

(** [getMostPopularSkipIndex] and [getSkipIndexBySize] read the module
    constant [skipData]; it is passed as an argument here. *)
Definition getMostPopularSkipIndex (skipData : list Skip) : Z :=
  fst (fold_left scan (entries skipData) (0, 0%float)).

Definition getSkipIndexBySize (skipData : list Skip) (size' : float) : Z :=
  let index := findIndex (fun skip => strict_eq (size (apiData skip)) size')
                         skipData in
  if negb (index =? -1)%Z then index else getMostPopularSkipIndex skipData.

End Catalog.

(** ** The skip tabs ([tabs.tsx], component [Tabs]) *)

Module TabStrip.

Local Open Scope string_scope.

(** A tab; the optional [content] field is never read and is left out. *)
Record Tab := { title : string; value : string }.

(** The two [useState] cells of [Tabs].  An array cell or a variable may
    hold [undefined], which is [None]. *)
Record State := { active : option Tab; tabs : list (option Tab) }.

Definition first (l : list (option Tab)) : option Tab :=
  match item l 0 with Some t => t | None => None end.

(** The initial state: [useState(propTabs[0])] and [useState(propTabs)]. *)
Definition initial (propTabs : list Tab) : State :=
  {| active := item propTabs 0; tabs := map Some propTabs |}.

(** The click handler: it copies [propTabs], splices the clicked tab out
    and unshifts it, then overwrites both cells. *)
Definition moveSelectedTabToTop (propTabs : list Tab) (idx : nat)
    (st : State) : State :=
  let newTabs := map Some propTabs in
  let '(selectedTab, newTabs) := splice1 newTabs idx in
  let newTabs := first selectedTab :: newTabs in
  {| active := first newTabs; tabs := newTabs |}.

End TabStrip.

(** ** The step wizard ([tabs.tsx], component [MultiStepBuilder]) *)

Module Wizard.

Local Open Scope string_scope.

Inductive StepComponent :=
    PostcodeStep | WasteTypeStep | SelectSkipStep
  | PermitCheckStep | ChooseDateStep | PaymentStep.

(** An entry of [steps]; its icon is presentation only. *)
Record Step := { step_id : Z; step_title : string; component : string }.

Definition steps : list Step :=
  [ {| step_id := 1; step_title := "Postcode"; component := "PostcodeStep" |};
    {| step_id := 2; step_title := "Waste Type"; component := "WasteTypeStep" |};
    {| step_id := 3; step_title := "Select Skip"; component := "SelectSkipStep" |};
    {| step_id := 4; step_title := "Permit Check"; component := "PermitCheckStep" |};
    {| step_id := 5; step_title := "Choose Date"; component := "ChooseDateStep" |};
    {| step_id := 6; step_title := "Payment"; component := "PaymentStep" |} ].

Local Close Scope string_scope.

Definition totalSteps : Z := Z.of_nat (List.length steps).

(** The two [useState] cells of [MultiStepBuilder].  The counter starts at
    1 and only changes by one, so it holds an integer. *)
Record State := { currentStep : Z; canGoNext : bool }.

Definition initial : State := {| currentStep := 1; canGoNext := true |}.

Definition setCurrentStep (n : Z) (s : State) : State :=
  {| currentStep := n; canGoNext := canGoNext s |}.

Definition handleNext (s : State) : State :=
  if currentStep s <? totalSteps then setCurrentStep (currentStep s + 1) s
  else s.

Definition handlePrevious (s : State) : State :=
  if 1 <? currentStep s then setCurrentStep (currentStep s - 1) s
  else s.

Definition renderStepContent (s : State) : StepComponent :=
  match currentStep s with
  | 1 => PostcodeStep
  | 2 => WasteTypeStep
  | 3 => SelectSkipStep
  | 4 => PermitCheckStep
  | 5 => ChooseDateStep
  | 6 => PaymentStep
  | _ => PostcodeStep
  end.

(** The [Navigation] buttons: Previous is disabled on step 1; Next is only
    rendered below the last step and is disabled when the gate is off. *)
Inductive Click := ClickPrevious | ClickNext.

Definition previousDisabled (s : State) : bool := currentStep s =? 1.
Definition nextRendered (s : State) : bool := currentStep s <? totalSteps.
Definition nextDisabled (s : State) : bool := negb (canGoNext s).

Definition click (c : Click) (s : State) : State :=
  match c with
  | ClickPrevious => if previousDisabled s then s else handlePrevious s
  | ClickNext =>
      if nextRendered s && negb (nextDisabled s) then handleNext s else s
  end.

(** The wizard's operations, [advance] and [retreat] in the specification. *)
Inductive Op := Advance | Retreat.

Definition run (o : Op) (s : State) : State :=
  match o with Advance => handleNext s | Retreat => handlePrevious s end.

(** States reached from the initial one by operations, resp. by clicks. *)
Inductive reachable : State -> Prop :=
  | reach_initial : reachable initial
  | reach_run o s : reachable s -> reachable (run o s).

Inductive displayed : State -> Prop :=
  | disp_initial : displayed initial
  | disp_click c s : displayed s -> displayed (click c s).

End Wizard.

(** ** The skip card ([hybrid-skip-panel.tsx], component [SkipContent]) *)

(** The texts of the card that are computed from the entry.  The header of
    [InformationPanel] in [tabs.tsx] prints the same heading, price
    breakdown and permission labels.  A JSX child [{e}] prints a string as
    it is and a number by [Number::toString]; [null] prints nothing. *)
Section CardText.

Local Open Scope string_scope.

Variable shortest_decimal : float -> string.

Local Abbreviation str := (toString shortest_decimal).

(** [{skip.name} Skip] *)
Definition heading (skip : Skip) : string :=
  name (displayProps skip) ++ " Skip".

(** [Math.round((skip.price_before_vat * skip.vat) / 100)] *)
Definition vatAmount (skip : Skip) : float :=
  Math_round (price_before_vat (apiData skip) * vat (apiData skip) / 100).

(** The child [{skip.transport_cost && ` + £${skip.transport_cost} transport`}]:
    [a && b] is [a] itself when [a] is falsy, so [null] prints nothing and
    a falsy number is printed as a number. *)
Definition transportNote (skip : Skip) : string :=
  match transport_cost (apiData skip) with
  | None => EmptyString
  | Some cost =>
      if truthy cost then " + £" ++ str cost ++ " transport" else str cost
  end.

(** The line under the price:
    [£{skip.price_before_vat} + £{Math.round(...)} VAT{...}]. *)
Definition priceBreakdown (skip : Skip) : string :=
  "£" ++ str (price_before_vat (apiData skip)) ++ " + £" ++
  str (vatAmount skip) ++ " VAT" ++ transportNote skip.

Definition roadPlacement (skip : Skip) : string :=
  if allowed_on_road (apiData skip) then "Allowed on road/driveway"
  else "Private land only".

Definition heavyWaste (skip : Skip) : string :=
  if allows_heavy_waste (apiData skip) then "Heavy materials allowed"
  else "Light waste only".

(** The section [Important considerations] of [InformationPanel]:
    [skip.restrictions.length > 0 && (...)] lists the restrictions, and a
    [false] child prints nothing ([None]). *)
Definition considerations (skip : Skip) : option (list string) :=
  if (0 <? List.length (restrictions skip))%nat then Some (restrictions skip)
  else None.

End CardText.

(** ** The card panel ([hybrid-skip-panel.tsx], component [HybridSkipPanel])
       and the tabs of step 3 ([tabs.tsx], component [SelectSkipStep]) *)

(** What the panel renders for one tab: [null], or the card of an entry. *)
Inductive Card := NoCard | SkipCard (skip : Skip).

Section SkipSelection.

Import TabStrip.

Variable shortest_decimal : float -> string.

Local Abbreviation str := (toString shortest_decimal).

(** [SelectSkipStep]: one tab per entry,
    [{ title: skip.name, value: skip.id.toString() }]. *)
Definition skipTabs (skipData : list Skip) : list Tab :=
  map (fun skip => {| title := name (displayProps skip);
                      value := str (id (apiData skip)) |})
      skipData.

(** [isActive]: [tab.value === tabs[0].value].  Reading [.value] of
    [undefined] throws a [TypeError], which is [None]. *)
Definition isActive (tabs : list (option Tab)) (tab : option Tab)
    : option bool :=
  match tab, first tabs with
  | Some tab, Some front => Some (String.eqb (value tab) (value front))
  | _, _ => None
  end.

(** The callback of [tabs.map]: [null] for a tab that is not active, else
    the card of [skipData.find((skip) => skip.id.toString() === tab.value)].
    When [find] returns [undefined], [SkipContent] reads a field of
    [undefined] and throws. *)
Definition renderTab (skipData : list Skip) (tabs : list (option Tab))
    (tab : option Tab) : option Card :=
  match isActive tabs tab, tab with
  | Some false, _ => Some NoCard
  | Some true, Some tab =>
      match find (fun skip => String.eqb (str (id (apiData skip))) (value tab))
                 skipData with
      | Some skip => Some (SkipCard skip)
      | None => None
      end
  | _, _ => None
  end.

(** [l.map(f)] for a callback that may throw. *)
Fixpoint renderEach (f : option Tab -> option Card) (l : list (option Tab))
    : option (list Card) :=
  match l with
  | [] => Some []
  | tab :: l' =>
      match f tab with
      | None => None
      | Some card =>
          match renderEach f l' with
          | None => None
          | Some cards => Some (card :: cards)
          end
      end
  end.

(** The children of the panel, in the order of [tabs]; [skipData] is the
    module constant and is passed as an argument. *)
Definition HybridSkipPanel (skipData : list Skip) (tabs : list (option Tab))
    : option (list Card) :=
  renderEach (renderTab skipData tabs) tabs.

End SkipSelection.

(** ** The step indicator ([tabs.tsx], component [StepIndicator]) *)

Module Indicator.

Import Wizard.

(** The three looks of a step circle: green with a check mark, blue,
    gray. *)
Inductive StepStatus := Completed | Current | Upcoming.

Definition isCompleted (currentStep : Z) (step : Step) : bool :=
  step_id step <? currentStep.

Definition isCurrent (currentStep : Z) (step : Step) : bool :=
  step_id step =? currentStep.

(** [isCompleted ? green : isCurrent ? blue : gray] *)
Definition status (currentStep : Z) (step : Step) : StepStatus :=
  if isCompleted currentStep step then Completed
  else if isCurrent currentStep step then Current
  else Upcoming.

Definition circles (currentStep : Z) : list StepStatus :=
  map (status currentStep) steps.

(** The line after a step: [index < steps.length - 1 && ...], green when
    the step is completed; [None] when it is not rendered. *)
Definition connector (currentStep : Z) (entry : Z * Step) : option bool :=
  let '(index, step) := entry in
  if index <? totalSteps - 1 then Some (isCompleted currentStep step)
  else None.

Definition connectors (currentStep : Z) : list (option bool) :=
  map (connector currentStep) (entries steps).

End Indicator.

(** ** The option lists of steps 2 and 4 ([tabs.tsx], components
       [WasteTypeStep] and [PermitCheckStep]) *)

Module OptionStep.

Local Open Scope string_scope.

Definition wasteTypes : list string :=
  ["Household Waste"; "Garden Waste"; "Construction Debris"; "Mixed Waste"].

Definition permitOptions : list string :=
  ["On my private property/driveway"; "On the road/public highway"].

(** [selectedWasteType === type] (resp. [selectedPermit === option]); the
    [useState] cell holds a string or [null]. *)
Definition isSelected (selected : option string) (choice : string) : bool :=
  match selected with
  | Some s => String.eqb s choice
  | None => false
  end.

(** Which buttons are drawn as selected. *)
Definition highlights (options : list string) (selected : option string)
    : list bool :=
  map (isSelected selected) options.

(** A click on the button at position [i] stores its option; there is a
    button for every position of the list and for no other. *)
Definition clickOption (options : list string) (i : nat)
    (selected : option string) : option string :=
  match nth_error options i with
  | Some choice => Some choice
  | None => selected
  end.

End OptionStep.

(** ** Definitions used to state the properties *)

(** A key in [Z] that orders the binary64 values other than [NaN]: a finite
    value [(+/-) m * 2^e] has [emin <= e], so [m * 2^(e - emin)] is an
    integer; both zeros have key 0 and the infinities lie beyond every
    finite key. *)
Definition rank (x : spec_float) : Z :=
  match x with
  | S754_zero _ => 0
  | S754_nan => 0
  | S754_infinity s => cond_Zopp s (2 ^ 2100)
  | S754_finite s m e => cond_Zopp s (Z.pos m * 2 ^ (e + 1074))
  end.

Definition ord (x : float) : Z := rank (Prim2SF x).

(** Zero, a positive finite value or [+Infinity]. *)
Definition SFnonneg (x : spec_float) : bool :=
  match x with
  | S754_zero _ | S754_finite false _ _ | S754_infinity false => true
  | _ => false
  end.

(** A positive finite value or [+Infinity]. *)
Definition SFpositive (x : spec_float) : bool :=
  match x with
  | S754_finite false _ _ | S754_infinity false => true
  | _ => false
  end.

(** [2^52]: below it binary64 holds every whole number and its successor. *)
Definition exact_amount_bound : float := 4503599627370496.

(** The size bands the specification documents for untabulated sizes:
    [size >= 40], [size >= 20], [size >= 16], [size >= 14], [size >= 12],
    else. *)
Inductive Band := Band40 | Band20 | Band16 | Band14 | Band12 | BandElse.

Definition band (size : float) : Band :=
  if ge size 40 then Band40
  else if ge size 20 then Band20
  else if ge size 16 then Band16
  else if ge size 14 then Band14
  else if ge size 12 then Band12
  else BandElse.

(** The fixture's 20-yard record, and the same record delivered free of
    charge (a transport cost that is present and zero). *)
Definition twenty_yard : SkipApiData :=
  mkRaw 15124 20 (Some 248%float) (Some 248%float) 992
    "2025-04-03T13:51:40.344435" "2025-04-07T13:16:52.434" false true.

Definition free_delivery : SkipApiData :=
  mkRaw 15124 20 (Some 0%float) (Some 248%float) 992
    "2025-04-03T13:51:40.344435" "2025-04-07T13:16:52.434" false true.

(** The same record with a transport cost that is present and [NaN]. *)
Definition nan_delivery : SkipApiData :=
  mkRaw 15124 20 (Some nan) (Some 248%float) 992
    "2025-04-03T13:51:40.344435" "2025-04-07T13:16:52.434" false true.

(** A record with a given price, rate and transport cost; the other
    fields are the ones of the fixture's first record. *)
Definition priced (p v : float) (tc : option float) : SkipApiData :=
  {| id := 17933; size := 4; hire_period_days := 14;
     transport_cost := tc; per_tonne_cost := None;
     price_before_vat := p; vat := v;
     postcode := "NR32"; area := ""; forbidden := false;
     created_at := "2025-04-03T13:51:46.897146";
     updated_at := "2025-04-07T13:16:52.813";
     allowed_on_road := true; allows_heavy_waste := true |}.

(** A record of a given size, priced like the fixture's first one. *)
Definition of_size (sz : float) : SkipApiData :=
  mkRaw 17933 sz None None 278
    "2025-04-03T13:51:46.897146" "2025-04-07T13:16:52.813" true true.

(** A stand-in for the part of [Number::toString] that is left open; the
    fixture and the examples below never reach it. *)
Definition no_shortest_decimal : float -> string := fun _ => EmptyString.

(** The component a constructor of [Wizard.StepComponent] stands for. *)
Definition componentName (c : Wizard.StepComponent) : string :=
  match c with
  | Wizard.PostcodeStep => "PostcodeStep"
  | Wizard.WasteTypeStep => "WasteTypeStep"
  | Wizard.SelectSkipStep => "SelectSkipStep"
  | Wizard.PermitCheckStep => "PermitCheckStep"
  | Wizard.ChooseDateStep => "ChooseDateStep"
  | Wizard.PaymentStep => "PaymentStep"
  end.

(** [f] holds on the [n] integers from [p] on. *)
Fixpoint all_from (f : Z -> bool) (p : Z) (n : nat) : bool :=
  match n with
  | O => true
  | S k => f p && all_from f (p + 1) k
  end.

(** For a price of [p] pounds at the given rate, the base price plus the
    tax that the card prints is the price with tax that decoration
    computes: [p + Math.round(p * rate / 100) ===
    Math.round(p * (1 + rate / 100))]. *)
Definition adds_up (rate : float) (p : Z) : bool :=
  let price := of_Z p in
  strict_eq (price + Math_round (price * rate / 100))
            (Math_round (price * (1 + rate / 100))).

(** * Binary64 arithmetic *)

(** ** Zeros, [NaN] and equality *)

Section NumberFacts.

Lemma is_nan_spec (x : float) :
  is_nan x = match Prim2SF x with S754_nan => true | _ => false end.
Proof.
  unfold is_nan. rewrite eqb_spec. unfold SFeqb.
  destruct (Prim2SF x) as [s|s| |s m e]; try (now destruct s); try reflexivity.
  cbn. destruct s; rewrite Z.compare_refl, Pos.compare_cont_refl; reflexivity.
Qed.

Lemma is_zero_spec (x : float) :
  is_zero x = match Prim2SF x with S754_zero _ => true | _ => false end.
Proof.
  unfold is_zero. rewrite eqb_spec. unfold SFeqb.
  change (Prim2SF zero) with (S754_zero false).
  destruct (Prim2SF x) as [s|s| |s m e]; try (now destruct s); reflexivity.
Qed.

Lemma same_value_zero_refl (x : float) : same_value_zero x x = true.
Proof.
  unfold same_value_zero. rewrite is_nan_spec, eqb_spec. unfold SFeqb.
  destruct (Prim2SF x) as [s|s| |s m e]; try (now destruct s); try reflexivity.
  cbn. destruct s; rewrite Z.compare_refl, Pos.compare_cont_refl; reflexivity.
Qed.

(** Adding a zero does not change a number, up to the sign of a zero. *)
Lemma add_zero_same_value (x z : float) :
  is_zero z = true -> same_value_zero x (x + z) = true.
Proof.
  rewrite is_zero_spec. intros Hz.
  unfold same_value_zero. rewrite !is_nan_spec, eqb_spec, add_spec.
  unfold SFeqb, SF64add.
  destruct (Prim2SF z) as [sz|?| |? ? ?]; try discriminate.
  destruct (Prim2SF x) as [s|s| |s m e]; try reflexivity.
  - now destruct s, sz.
  - now destruct s.
  - cbn. destruct s; rewrite Z.compare_refl, Pos.compare_cont_refl; reflexivity.
Qed.

Lemma falsy_number_is_zero (t : float) :
  truthy t = false -> is_nan t = false -> is_zero t = true.
Proof.
  unfold truthy. intros H Hn. rewrite Hn, orb_false_l in H.
  now apply negb_false_iff in H.
Qed.

End NumberFacts.

(** ** The order of binary64 values *)

Section OrderFacts.

Lemma digits2_pos_bounds (m : positive) :
  2 ^ (Z.pos (digits2_pos m) - 1) <= Z.pos m < 2 ^ Z.pos (digits2_pos m).
Proof.
  induction m as [m IH|m IH|]; cbn [digits2_pos].
  - rewrite Pos2Z.inj_succ.
    replace (Z.succ (Z.pos (digits2_pos m)) - 1) with (Z.pos (digits2_pos m) - 1 + 1) by lia.
    rewrite Z.pow_succ_r by lia. rewrite Z.pow_add_r by lia. lia.
  - rewrite Pos2Z.inj_succ.
    replace (Z.succ (Z.pos (digits2_pos m)) - 1) with (Z.pos (digits2_pos m) - 1 + 1) by lia.
    rewrite Z.pow_succ_r by lia. rewrite Z.pow_add_r by lia. lia.
  - cbn. lia.
Qed.

(** What validity says of a finite value: the exponent is in range, the
    mantissa has at most 53 bits, and exactly 53 above the least exponent. *)
Lemma bounded_inv (m : positive) (e : Z) :
  bounded prec emax m e = true ->
  -1074 <= e <= 971 /\ Z.pos m < 2 ^ 53 /\ (-1074 < e -> 2 ^ 52 <= Z.pos m).
Proof.
  unfold bounded, canonical_mantissa, fexp, SpecFloat.emin, prec, emax.
  intros H. apply andb_prop in H as [Hc He].
  apply Z.eqb_eq in Hc. apply Z.leb_le in He.
  pose proof (digits2_pos_bounds m) as [Hlo Hhi].
  assert (Hd : Z.pos (digits2_pos m) <= 53) by lia.
  split; [lia|]. split.
  - eapply Z.lt_le_trans; [exact Hhi|]. apply Z.pow_le_mono_r; lia.
  - intros Hgt. assert (Hd' : Z.pos (digits2_pos m) = 53) by lia.
    rewrite Hd' in Hlo. exact Hlo.
Qed.

Lemma pow2_pos (k : Z) : 0 <= k -> 0 < 2 ^ k.
Proof. intros. apply Z.pow_pos_nonneg; lia. Qed.

Lemma finite_rank_bounds (m : positive) (e : Z) :
  bounded prec emax m e = true ->
  0 < Z.pos m * 2 ^ (e + 1074) < 2 ^ 2100.
Proof.
  intros H. apply bounded_inv in H as (He & Hm & _).
  pose proof (pow2_pos (e + 1074) ltac:(lia)) as Hp.
  split; [lia|].
  apply Z.lt_le_trans with (2 ^ 53 * 2 ^ (e + 1074)).
  - apply Z.mul_lt_mono_pos_r; lia.
  - rewrite <- Z.pow_add_r by lia. apply Z.pow_le_mono_r; lia.
Qed.

(** Among valid mantissa/exponent pairs the value grows with the exponent. *)
Lemma finite_rank_lt (m1 m2 : positive) (e1 e2 : Z) :
  bounded prec emax m1 e1 = true -> bounded prec emax m2 e2 = true ->
  e1 < e2 ->
  Z.pos m1 * 2 ^ (e1 + 1074) < Z.pos m2 * 2 ^ (e2 + 1074).
Proof.
  intros H1 H2 Hlt.
  apply bounded_inv in H1 as (He1 & Hm1 & _).
  apply bounded_inv in H2 as (He2 & _ & Hm2).
  specialize (Hm2 ltac:(lia)).
  pose proof (pow2_pos (e1 + 1074) ltac:(lia)) as Hp1.
  apply Z.lt_le_trans with (2 ^ 53 * 2 ^ (e1 + 1074)).
  - apply Z.mul_lt_mono_pos_r; lia.
  - replace (2 ^ 53) with (2 ^ 52 * 2 ^ 1) by reflexivity.
    rewrite <- Z.mul_assoc, <- Z.pow_add_r by lia.
    apply Z.mul_le_mono_nonneg; try lia.
    apply Z.pow_le_mono_r; lia.
Qed.

Lemma finite_compare (m1 m2 : positive) (e1 e2 : Z) :
  bounded prec emax m1 e1 = true -> bounded prec emax m2 e2 = true ->
  match e1 ?= e2 with
  | Lt => Lt
  | Gt => Gt
  | Eq => Pos.compare_cont Eq m1 m2
  end = (Z.pos m1 * 2 ^ (e1 + 1074) ?= Z.pos m2 * 2 ^ (e2 + 1074)).
Proof.
  intros H1 H2. symmetry.
  destruct (Z.compare_spec e1 e2) as [->|Hlt|Hgt].
  - pose proof (bounded_inv _ _ H2) as (He & _).
    pose proof (pow2_pos (e2 + 1074) ltac:(lia)).
    change (Pos.compare_cont Eq m1 m2) with (Z.pos m1 ?= Z.pos m2).
    destruct (Z.compare_spec (Z.pos m1) (Z.pos m2)) as [Heq|Hl|Hg].
    + rewrite Heq. apply Z.compare_refl.
    + apply Z.compare_lt_iff. apply Z.mul_lt_mono_pos_r; lia.
    + apply Z.compare_gt_iff. apply Z.mul_lt_mono_pos_r; lia.
  - apply Z.compare_lt_iff. now apply finite_rank_lt.
  - apply Z.compare_gt_iff. now apply finite_rank_lt.
Qed.

(** On valid values other than [NaN], [SFcompare] is the comparison of the
    keys. *)
Lemma SFcompare_rank (x y : spec_float) :
  valid_binary x = true -> valid_binary y = true ->
  x <> S754_nan -> y <> S754_nan ->
  SFcompare x y = Some (rank x ?= rank y).
Proof.
  intros Vx Vy Nx Ny.
  destruct x as [sx|sx| |sx mx ex]; try congruence;
  destruct y as [sy|sy| |sy my ey]; try congruence;
  cbn [SFcompare rank valid_binary] in *.
  - reflexivity.
  - now destruct sy.
  - pose proof (finite_rank_bounds _ _ Vy). destruct sy; cbn [cond_Zopp]; f_equal; symmetry.
    + apply Z.compare_gt_iff. lia.
    + apply Z.compare_lt_iff. lia.
  - now destruct sx.
  - now destruct sx, sy.
  - pose proof (finite_rank_bounds _ _ Vy).
    destruct sx, sy; cbn [cond_Zopp]; f_equal; symmetry;
      first [apply Z.compare_gt_iff; lia | apply Z.compare_lt_iff; lia].
  - pose proof (finite_rank_bounds _ _ Vx). destruct sx; cbn [cond_Zopp]; f_equal; symmetry.
    + apply Z.compare_lt_iff. lia.
    + apply Z.compare_gt_iff. lia.
  - pose proof (finite_rank_bounds _ _ Vx).
    destruct sx, sy; cbn [cond_Zopp]; f_equal; symmetry;
      first [apply Z.compare_gt_iff; lia | apply Z.compare_lt_iff; lia].
  - pose proof (finite_rank_bounds _ _ Vx). pose proof (finite_rank_bounds _ _ Vy).
    pose proof (finite_compare _ _ _ _ Vx Vy) as Hc.
    destruct sx, sy; cbn [cond_Zopp]; f_equal.
    + rewrite Z.compare_opp, (Z.compare_antisym (Z.pos mx * 2 ^ (ex + 1074))), <- Hc.
      now destruct (ex ?= ey).
    + symmetry. apply Z.compare_lt_iff. lia.
    + symmetry. apply Z.compare_gt_iff. lia.
    + exact Hc.
Qed.

(** Away from the zeros, valid values with the same key are the same. *)
Lemma rank_injective (x y : spec_float) :
  valid_binary x = true -> valid_binary y = true ->
  x <> S754_nan -> y <> S754_nan ->
  rank x = rank y -> rank x <> 0 -> x = y.
Proof.
  intros Vx Vy Nx Ny.
  assert (HI : 0 < 2 ^ 2100) by (apply pow2_pos; lia).
  destruct x as [sx|sx| |sx mx ex]; try congruence;
  destruct y as [sy|sy| |sy my ey]; try congruence;
  cbn [rank valid_binary] in *; try lia.
  - destruct sx, sy; cbn [cond_Zopp]; intros; try reflexivity; lia.
  - pose proof (finite_rank_bounds _ _ Vy).
    destruct sx, sy; cbn [cond_Zopp]; lia.
  - pose proof (finite_rank_bounds _ _ Vx).
    destruct sx, sy; cbn [cond_Zopp]; lia.
  - pose proof (finite_rank_bounds _ _ Vx). pose proof (finite_rank_bounds _ _ Vy).
    pose proof (finite_compare _ _ _ _ Vx Vy) as Hc.
    intros Heq _.
    assert (Hs : sx = sy) by (destruct sx, sy; cbn [cond_Zopp] in Heq; auto; lia).
    subst sy.
    assert (Hr : Z.pos mx * 2 ^ (ex + 1074) = Z.pos my * 2 ^ (ey + 1074))
      by (destruct sx; cbn [cond_Zopp] in Heq; lia).
    rewrite Hr, Z.compare_refl in Hc.
    destruct (Z.compare_spec ex ey) as [->| |]; try discriminate.
    apply Pos.compare_eq in Hc. now subst.
Qed.

End OrderFacts.

Section FloatOrder.

Local Open Scope float_scope.

Lemma not_nan_SF (a : float) : is_nan a = false -> Prim2SF a <> S754_nan.
Proof. rewrite is_nan_spec. intros H E. now rewrite E in H. Qed.

Lemma compare_ord (a b : float) :
  is_nan a = false -> is_nan b = false ->
  SFcompare (Prim2SF a) (Prim2SF b) = Some (ord a ?= ord b)%Z.
Proof.
  intros Ha Hb. apply SFcompare_rank; auto using Prim2SF_valid, not_nan_SF.
Qed.

Lemma ltb_ord (a b : float) :
  is_nan a = false -> is_nan b = false -> (a <? b) = (ord a <? ord b)%Z.
Proof.
  intros Ha Hb. rewrite ltb_spec. unfold SFltb, Z.ltb.
  rewrite (compare_ord a b Ha Hb). reflexivity.
Qed.

Lemma leb_ord (a b : float) :
  is_nan a = false -> is_nan b = false -> (a <=? b) = (ord a <=? ord b)%Z.
Proof.
  intros Ha Hb. rewrite leb_spec. unfold SFleb, Z.leb.
  rewrite (compare_ord a b Ha Hb). reflexivity.
Qed.

Lemma eqb_ord (a b : float) :
  is_nan a = false -> is_nan b = false -> (a =? b) = (ord a =? ord b)%Z.
Proof.
  intros Ha Hb. rewrite eqb_spec. unfold SFeqb.
  rewrite (compare_ord a b Ha Hb).
  destruct (Z.compare_spec (ord a) (ord b)) as [E|L|G]; symmetry.
  - now apply Z.eqb_eq.
  - apply Z.eqb_neq. lia.
  - apply Z.eqb_neq. lia.
Qed.

Lemma SFcompare_nan_l (y : spec_float) : SFcompare S754_nan y = None.
Proof. reflexivity. Qed.

Lemma SFcompare_nan_r (x : spec_float) : SFcompare x S754_nan = None.
Proof. now destruct x. Qed.

Lemma compare_some_not_nan (a b : float) (c : comparison) :
  SFcompare (Prim2SF a) (Prim2SF b) = Some c ->
  is_nan a = false /\ is_nan b = false.
Proof.
  rewrite !is_nan_spec. intros H.
  destruct (Prim2SF a); try (now rewrite SFcompare_nan_l in H);
  destruct (Prim2SF b); try (now rewrite SFcompare_nan_r in H); auto.
Qed.

Lemma leb_true_not_nan (a b : float) :
  (a <=? b) = true -> is_nan a = false /\ is_nan b = false.
Proof.
  rewrite leb_spec. unfold SFleb.
  destruct (SFcompare (Prim2SF a) (Prim2SF b)) as [c|] eqn:E; [|discriminate].
  intros _. eauto using compare_some_not_nan.
Qed.

Lemma ltb_true_not_nan (a b : float) :
  (a <? b) = true -> is_nan a = false /\ is_nan b = false.
Proof.
  rewrite ltb_spec. unfold SFltb.
  destruct (SFcompare (Prim2SF a) (Prim2SF b)) as [c|] eqn:E; [|discriminate].
  intros _. eauto using compare_some_not_nan.
Qed.

Lemma leb_le (a b : float) :
  (a <=? b) = true <->
  is_nan a = false /\ is_nan b = false /\ (ord a <= ord b)%Z.
Proof.
  split.
  - intros H. destruct (leb_true_not_nan _ _ H) as [Ha Hb].
    rewrite (leb_ord _ _ Ha Hb) in H. apply Z.leb_le in H. auto.
  - intros (Ha & Hb & H). rewrite (leb_ord _ _ Ha Hb). now apply Z.leb_le.
Qed.

Lemma ltb_lt (a b : float) :
  (a <? b) = true <->
  is_nan a = false /\ is_nan b = false /\ (ord a < ord b)%Z.
Proof.
  split.
  - intros H. destruct (ltb_true_not_nan _ _ H) as [Ha Hb].
    rewrite (ltb_ord _ _ Ha Hb) in H. apply Z.ltb_lt in H. auto.
  - intros (Ha & Hb & H). rewrite (ltb_ord _ _ Ha Hb). now apply Z.ltb_lt.
Qed.

Lemma ord_zero : ord 0 = 0%Z.
Proof. reflexivity. Qed.

Lemma ord_two_pow_52 : ord 4503599627370496 = (2 ^ 52 * 2 ^ 1074)%Z.
Proof. vm_compute. reflexivity. Qed.

Lemma ord_one : ord 1 = (2 ^ 1074)%Z.
Proof. vm_compute. reflexivity. Qed.

Lemma positive_of_ord (t : float) :
  is_nan t = false -> (0 < ord t)%Z -> SFpositive (Prim2SF t) = true.
Proof.
  rewrite is_nan_spec. unfold ord. pose proof (Prim2SF_valid t) as V.
  destruct (Prim2SF t) as [s|s| |s m e]; cbn [rank valid_binary] in *;
    try discriminate; try lia.
  - destruct s; cbn [cond_Zopp]; [|reflexivity].
    assert (0 < 2 ^ 2100)%Z by (apply pow2_pos; lia). lia.
  - pose proof (finite_rank_bounds _ _ V). destruct s; cbn [cond_Zopp]; [lia|reflexivity].
Qed.

End FloatOrder.

Section ComparisonFacts.

Lemma leb_refl_number (a : float) : is_nan a = false -> (a <=? a)%float = true.
Proof. intros H. apply leb_le. repeat split; auto; lia. Qed.

Lemma eqb_refl_number (a : float) : is_nan a = false -> strict_eq a a = true.
Proof. intros H. unfold strict_eq. rewrite eqb_ord by assumption. apply Z.eqb_refl. Qed.

Lemma strict_eq_ord (a v : float) :
  strict_eq a v = true -> is_nan a = false /\ ord a = ord v.
Proof.
  unfold strict_eq. intros H.
  assert (Hn : is_nan a = false /\ is_nan v = false).
  { rewrite eqb_spec in H. unfold SFeqb in H.
    destruct (SFcompare (Prim2SF a) (Prim2SF v)) as [c|] eqn:E; [|discriminate].
    eauto using compare_some_not_nan. }
  destruct Hn as [Ha Hv]. rewrite (eqb_ord _ _ Ha Hv) in H.
  apply Z.eqb_eq in H. auto.
Qed.

(** [a === b] for a non-zero [b] means that [a] is [b]. *)
Lemma strict_eq_same (a b : float) :
  strict_eq a b = true -> ord b <> 0 -> a = b.
Proof.
  intros H Hb. unfold strict_eq in H.
  assert (Hn : is_nan a = false /\ is_nan b = false).
  { rewrite eqb_spec in H. unfold SFeqb in H.
    destruct (SFcompare (Prim2SF a) (Prim2SF b)) as [c|] eqn:E; [|discriminate].
    eauto using compare_some_not_nan. }
  destruct Hn as [Ha Hnb]. rewrite (eqb_ord _ _ Ha Hnb) in H.
  apply Z.eqb_eq in H. apply Prim2SF_inj.
  apply rank_injective; auto using Prim2SF_valid, not_nan_SF.
  unfold ord in *. lia.
Qed.

Lemma ge_weaken (x a b : float) :
  ge x a = true -> (b <=? a)%float = true -> ge x b = true.
Proof.
  unfold ge. rewrite !leb_le. intros (Ha & Hx & H1) (Hb & _ & H2).
  repeat split; auto; lia.
Qed.

Lemma leb_zero_nonneg (x : float) : (0 <=? x)%float = SFnonneg (Prim2SF x).
Proof.
  rewrite leb_spec. change (Prim2SF 0) with (S754_zero false).
  destruct (Prim2SF x) as [s|s| |s m e]; try destruct s; reflexivity.
Qed.

End ComparisonFacts.

(** ** Rounding: signs *)

Section RoundingFacts.

Lemma shr_1_m (mrs : shr_record) :
  0 <= shr_m mrs -> shr_m (shr_1 mrs) = shr_m mrs / 2.
Proof.
  destruct mrs as [m r s]. cbn [shr_m shr_1]. intros Hm.
  destruct m as [|[p|p|]|p]; cbn [shr_m]; try lia.
  - reflexivity.
  - apply (Z.div_unique _ _ _ 1); lia.
  - apply (Z.div_unique _ _ _ 0); lia.
  - reflexivity.
Qed.

Lemma iter_shr_m (p : positive) :
  forall mrs, 0 <= shr_m mrs ->
  shr_m (iter_pos shr_1 p mrs) = shr_m mrs / 2 ^ Z.pos p.
Proof.
  induction p as [p IH|p IH|]; intros mrs Hm; cbn [iter_pos].
  - assert (H1 : 0 <= shr_m (shr_1 mrs)).
    { rewrite shr_1_m by assumption. apply Z.div_pos; lia. }
    pose proof (pow2_pos (Z.pos p) ltac:(lia)) as Hp.
    assert (H2 : 0 <= shr_m (iter_pos shr_1 p (shr_1 mrs))).
    { rewrite IH by assumption. apply Z.div_pos; lia. }
    rewrite IH, IH, shr_1_m by assumption.
    rewrite !Z.div_div by lia. f_equal.
    replace (Z.pos p~1) with (1 + Z.pos p + Z.pos p) by lia.
    rewrite !Z.pow_add_r by lia. lia.
  - pose proof (pow2_pos (Z.pos p) ltac:(lia)) as Hp.
    assert (H2 : 0 <= shr_m (iter_pos shr_1 p mrs)).
    { rewrite IH by assumption. apply Z.div_pos; lia. }
    rewrite IH, IH by assumption.
    rewrite !Z.div_div by lia. f_equal.
    replace (Z.pos p~0) with (Z.pos p + Z.pos p) by lia.
    rewrite !Z.pow_add_r by lia. lia.
  - now rewrite shr_1_m.
Qed.

Lemma shr_record_of_loc_m (m : Z) (l : location) :
  shr_m (shr_record_of_loc m l) = m.
Proof. destruct l as [|[]]; reflexivity. Qed.

(** Shifting a positive mantissa to its canonical exponent leaves a positive
    mantissa, when the exponent is at least the least one. *)
Lemma shr_fexp_pos (m e : Z) (l : location) :
  0 < m -> -1074 <= e ->
  0 < shr_m (fst (shr_fexp prec emax m e l)) /\
  -1074 <= snd (shr_fexp prec emax m e l).
Proof.
  intros Hm He. unfold shr_fexp, shr, fexp, SpecFloat.emin, prec, emax.
  destruct m as [|p|p]; try lia. cbn [Zdigits2].
  pose proof (digits2_pos_bounds p) as [Hlo _].
  set (d := Z.pos (digits2_pos p)) in *.
  destruct (Z.max (d + e - 53) (3 - 1024 - 53) - e) as [|n|n] eqn:En;
    cbn [fst snd]; rewrite ?shr_record_of_loc_m; try lia.
  split; [|lia].
  rewrite iter_shr_m by (rewrite shr_record_of_loc_m; lia).
  rewrite shr_record_of_loc_m.
  apply Z.div_str_pos. split; [apply pow2_pos; lia|].
  apply Z.le_trans with (2 ^ (d - 1)); [|exact Hlo].
  apply Z.pow_le_mono_r; lia.
Qed.

Lemma shr_fexp_nonneg (m e : Z) (l : location) :
  0 <= m -> 0 <= shr_m (fst (shr_fexp prec emax m e l)).
Proof.
  intros Hm. unfold shr_fexp, shr.
  destruct (fexp prec emax (Zdigits2 m + e) - e) as [|p|p]; cbn [fst];
    rewrite ?iter_shr_m; rewrite ?shr_record_of_loc_m; try lia.
  apply Z.div_pos; [lia | apply pow2_pos; lia].
Qed.

Lemma shr_fexp_spec (m : positive) (e : Z) (l : location) :
  -1074 <= e ->
  let r := shr_fexp prec emax (Z.pos m) e l in
  snd r = Z.max e (fexp prec emax (Z.pos (digits2_pos m) + e)) /\
  shr_m (fst r) = Z.pos m / 2 ^ (snd r - e) /\
  0 < shr_m (fst r).
Proof.
  intros He r.
  pose proof (shr_fexp_pos (Z.pos m) e l ltac:(lia) He) as [Hpos _].
  fold r in Hpos. split; [|split; [|exact Hpos]]; subst r.
  - unfold shr_fexp, shr. cbn [Zdigits2].
    destruct (fexp prec emax (Z.pos (digits2_pos m) + e) - e) eqn:En;
      cbn [snd]; lia.
  - unfold shr_fexp, shr. cbn [Zdigits2].
    destruct (fexp prec emax (Z.pos (digits2_pos m) + e) - e) eqn:En;
      cbn [fst snd]; rewrite ?shr_record_of_loc_m.
    + rewrite Z.sub_diag. cbn. now rewrite Z.div_1_r.
    + rewrite iter_shr_m by (rewrite shr_record_of_loc_m; lia).
      rewrite shr_record_of_loc_m. do 2 f_equal. lia.
    + rewrite Z.sub_diag. cbn. now rewrite Z.div_1_r.
Qed.

Lemma round_nearest_even_ge (m : Z) (l : location) :
  m <= round_nearest_even m l.
Proof.
  destruct l as [|[]]; cbn [round_nearest_even]; try lia.
  destruct (Z.even m); lia.
Qed.

Lemma round_nearest_even_le (m : Z) (l : location) :
  round_nearest_even m l <= m + 1.
Proof.
  destruct l as [|[]]; cbn [round_nearest_even]; try lia.
  destruct (Z.even m); lia.
Qed.

(** Rounding a positive mantissa gives a finite value or an infinity of the
    sign it was given: neither a zero nor [NaN]. *)
Lemma binary_round_aux_signed (s : bool) (m e : Z) (l : location) :
  0 < m -> -1074 <= e ->
  binary_round_aux prec emax s m e l = S754_infinity s \/
  exists m' e', binary_round_aux prec emax s m e l = S754_finite s m' e'.
Proof.
  intros Hm He. unfold binary_round_aux.
  pose proof (shr_fexp_pos m e l Hm He) as [H1 H1e].
  destruct (shr_fexp prec emax m e l) as [mrs' e'] eqn:E1. cbn [fst snd] in *.
  pose proof (round_nearest_even_ge (shr_m mrs') (loc_of_shr_record mrs')) as Hr.
  pose proof (shr_fexp_pos (round_nearest_even (shr_m mrs') (loc_of_shr_record mrs'))
                e' loc_Exact ltac:(lia) H1e) as [H2 _].
  destruct (shr_fexp prec emax _ e' loc_Exact) as [mrs'' e''] eqn:E2.
  cbn [fst snd] in *.
  destruct (shr_m mrs'') as [|q|q]; try lia.
  destruct (e'' <=? emax - prec); eauto.
Qed.

(** Rounding a non-negative mantissa gives a zero, a finite value or an
    infinity of the given sign, never [NaN]. *)
Lemma binary_round_aux_nonneg (m e : Z) (l : location) :
  0 <= m -> SFnonneg (binary_round_aux prec emax false m e l) = true.
Proof.
  intros Hm. unfold binary_round_aux.
  pose proof (shr_fexp_nonneg m e l Hm) as H1.
  destruct (shr_fexp prec emax m e l) as [mrs1 e1]. cbn [fst] in H1.
  pose proof (round_nearest_even_ge (shr_m mrs1) (loc_of_shr_record mrs1)) as Hr.
  pose proof (shr_fexp_nonneg (round_nearest_even (shr_m mrs1) (loc_of_shr_record mrs1))
                e1 loc_Exact ltac:(lia)) as H2.
  destruct (shr_fexp prec emax _ e1 loc_Exact) as [mrs3 e3]. cbn [fst] in H2.
  destruct (shr_m mrs3) as [|q|q]; try lia; [reflexivity|].
  now destruct (e3 <=? emax - prec).
Qed.

(** Rounding a mantissa that is already canonical changes nothing. *)
Lemma binary_round_aux_canonical (s : bool) (m : positive) (e : Z) :
  fexp prec emax (Z.pos (digits2_pos m) + e) = e -> e <= 971 ->
  binary_round_aux prec emax s (Z.pos m) e loc_Exact = S754_finite s m e.
Proof.
  intros Hc He. unfold binary_round_aux, shr_fexp. cbn [Zdigits2].
  rewrite Hc, Z.sub_diag. cbn [shr shr_record_of_loc shr_m loc_of_shr_record
                               round_nearest_even Zdigits2].
  rewrite Hc, Z.sub_diag. cbn [shr shr_record_of_loc shr_m].
  destruct (Z.leb_spec e (emax - prec)) as [|Hgt]; [reflexivity|].
  unfold emax, prec in Hgt. lia.
Qed.

Lemma shl_align_exponent (m : positive) (e e' : Z) :
  -1074 <= e -> -1074 <= e' -> -1074 <= snd (shl_align m e e').
Proof. intros. unfold shl_align. now destruct (e' - e). Qed.

Lemma binary_round_signed (s : bool) (m : positive) (e : Z) :
  -1074 <= e ->
  binary_round prec emax s m e = S754_infinity s \/
  exists m' e', binary_round prec emax s m e = S754_finite s m' e'.
Proof.
  intros He. unfold binary_round.
  pose proof (shl_align_exponent m e
                (fexp prec emax (Z.pos (digits2_pos m) + e)) He) as Hs.
  destruct (shl_align m e _) as [mz ez]. cbn [snd] in Hs.
  apply binary_round_aux_signed; [lia|]. apply Hs.
  unfold fexp, SpecFloat.emin, prec, emax. lia.
Qed.

Lemma iter_xO (m d : positive) :
  Z.pos (Pos.iter xO m d) = Z.pos m * 2 ^ Z.pos d.
Proof.
  induction d as [|d IH] using Pos.peano_ind.
  - cbn. lia.
  - rewrite Pos.iter_succ, Pos2Z.inj_xO, IH, Pos2Z.inj_succ.
    rewrite Z.pow_succ_r by lia. lia.
Qed.

Lemma digits2_pos_iter_xO (p d : positive) :
  Z.pos (digits2_pos (Pos.iter xO p d)) = Z.pos (digits2_pos p) + Z.pos d.
Proof.
  induction d as [|d IH] using Pos.peano_ind.
  - cbn. lia.
  - rewrite Pos.iter_succ. cbn [digits2_pos]. rewrite Pos2Z.inj_succ, IH. lia.
Qed.

(** Aligning [m * 2^e] on a smaller exponent keeps its value. *)
Lemma shl_align_value (m : positive) (e e' : Z) :
  e' <= e -> Z.pos (fst (shl_align m e e')) = Z.pos m * 2 ^ (e - e').
Proof.
  intros Hle. unfold shl_align.
  destruct (e' - e) as [|d|d] eqn:Ed; cbn [fst]; try lia.
  - replace (e - e') with 0 by lia. lia.
  - rewrite iter_xO. f_equal. f_equal. lia.
Qed.

Lemma shl_align_spec (m : positive) (e e' : Z) :
  -1074 <= e -> -1074 <= e' ->
  -1074 <= snd (shl_align m e e') /\
  Z.pos (fst (shl_align m e e')) * 2 ^ (snd (shl_align m e e') + 1074) =
    Z.pos m * 2 ^ (e + 1074).
Proof.
  intros He He'. unfold shl_align.
  destruct (e' - e) as [|d|d] eqn:Ed; cbn [fst snd]; try (split; [lia|reflexivity]).
  split; [lia|]. rewrite iter_xO, <- Z.mul_assoc, <- Z.pow_add_r by lia.
  do 2 f_equal. lia.
Qed.

End RoundingFacts.

(** ** Rounding: a lower bound *)

Section RoundingBounds.

(** The mantissa left by the first shift: below [2^53], and no smaller than
    any valid value that the exact one dominates. *)
Lemma first_shift_lower (m : positive) (e e1 : Z) (mx : positive) (ex : Z) :
  -1074 <= e ->
  e1 = Z.max e (fexp prec emax (Z.pos (digits2_pos m) + e)) ->
  bounded prec emax mx ex = true ->
  Z.pos mx * 2 ^ (ex + 1074) <= Z.pos m * 2 ^ (e + 1074) ->
  Z.pos m / 2 ^ (e1 - e) < 2 ^ 53 /\
  Z.pos mx * 2 ^ (ex + 1074) <= Z.pos m / 2 ^ (e1 - e) * 2 ^ (e1 + 1074).
Proof.
  intros He He1 Vx HX.
  pose proof (digits2_pos_bounds m) as [Hlo Hhi].
  set (d := Z.pos (digits2_pos m)) in *.
  assert (Hd : 1 <= d) by (subst d; lia).
  unfold fexp, SpecFloat.emin, prec, emax in He1.
  pose proof (bounded_inv _ _ Vx) as (Hex & Hmx & _).
  set (k := e1 - e). assert (Hk : 0 <= k) by lia.
  assert (HQ : 0 < 2 ^ k) by (apply pow2_pos; lia).
  assert (HP : 0 < 2 ^ (e + 1074)) by (apply pow2_pos; lia).
  assert (He1P : 2 ^ (e1 + 1074) = 2 ^ k * 2 ^ (e + 1074)).
  { rewrite <- Z.pow_add_r by lia. f_equal. lia. }
  split.
  - apply Z.div_lt_upper_bound; [exact HQ|].
    eapply Z.lt_le_trans; [exact Hhi|].
    rewrite <- Z.pow_add_r by lia. apply Z.pow_le_mono_r; lia.
  - pose proof (Z.div_mod (Z.pos m) (2 ^ k) ltac:(lia)) as Hdm.
    pose proof (Z.mod_pos_bound (Z.pos m) (2 ^ k) HQ) as Hr.
    set (m1 := Z.pos m / 2 ^ k) in *. set (r := Z.pos m mod 2 ^ k) in *.
    destruct (Z.eq_dec k 0) as [Hk0|Hk0].
    { (* no shift *)
      rewrite Hk0 in *. cbn [Z.pow Z.pow_pos Pos.iter] in *.
      replace e1 with e by lia. nia. }
    destruct (Z.le_gt_cases e1 ex) as [Hge|Hlt].
    + (* the valid value is a multiple of the new unit *)
      assert (Hc : 2 ^ (ex + 1074) = 2 ^ (ex - e1) * 2 ^ (e1 + 1074)).
      { rewrite <- Z.pow_add_r by lia. f_equal. lia. }
      pose proof (pow2_pos (ex - e1) ltac:(lia)) as Hc0.
      set (c := Z.pos mx * 2 ^ (ex - e1)).
      assert (HXc : Z.pos mx * 2 ^ (ex + 1074) = c * 2 ^ (e1 + 1074)).
      { subst c. rewrite Hc. ring. }
      rewrite HXc in *. rewrite He1P in *.
      assert (Hcm : c * 2 ^ k <= Z.pos m).
      { apply Z.mul_le_mono_pos_r with (2 ^ (e + 1074)); [exact HP | lia]. }
      assert (c <= m1) by nia.
      apply Z.mul_le_mono_nonneg_r; lia.
    + (* the result has a full mantissa, on a greater exponent *)
      assert (Hkd : k = d - 53) by lia.
      assert (Hm1 : 2 ^ 52 <= m1).
      { apply Z.div_le_lower_bound; [exact HQ|].
        rewrite Hkd, <- Z.pow_add_r by lia.
        replace (d - 53 + 52) with (d - 1) by lia. exact Hlo. }
      pose proof (pow2_pos (ex + 1074) ltac:(lia)) as Hpx.
      apply Z.le_trans with (2 ^ 53 * 2 ^ (ex + 1074)).
      { apply Z.mul_le_mono_nonneg_r; lia. }
      apply Z.le_trans with (2 ^ 52 * 2 ^ (e1 + 1074)).
      { replace (2 ^ 53) with (2 ^ 52 * 2 ^ 1) by reflexivity.
        rewrite <- Z.mul_assoc, <- Z.pow_add_r by lia.
        apply Z.mul_le_mono_nonneg_l; [lia|].
        apply Z.pow_le_mono_r; lia. }
      apply Z.mul_le_mono_nonneg_r; [|exact Hm1].
      apply Z.lt_le_incl, pow2_pos. lia.
Qed.

(** The second shift only renormalises a mantissa that rounding carried to
    [2^53]: it keeps the value. *)
Lemma second_shift_exact (p : positive) (e1 e3 : Z) :
  -1074 <= e1 -> Z.pos p <= 2 ^ 53 ->
  e3 = Z.max e1 (fexp prec emax (Z.pos (digits2_pos p) + e1)) ->
  Z.pos p / 2 ^ (e3 - e1) * 2 ^ (e3 + 1074) = Z.pos p * 2 ^ (e1 + 1074).
Proof.
  intros He1 Hp He3.
  pose proof (digits2_pos_bounds p) as [Hlo Hhi].
  set (d := Z.pos (digits2_pos p)) in *.
  unfold fexp, SpecFloat.emin, prec, emax in He3.
  assert (Hd : d <= 54).
  { destruct (Z.le_gt_cases d 54) as [|Hgt]; [assumption|].
    assert (2 ^ 54 <= 2 ^ (d - 1)) by (apply Z.pow_le_mono_r; lia).
    assert (2 ^ 53 < 2 ^ 54) by reflexivity. lia. }
  destruct (Z.le_gt_cases d 53) as [Hle|Hgt].
  - replace e3 with e1 by lia. rewrite Z.sub_diag. cbn [Z.pow].
    now rewrite Z.div_1_r.
  - assert (d = 54) by lia. subst d.
    assert (Hp' : Z.pos p = 2 ^ 53).
    { replace (Z.pos (digits2_pos p) - 1) with 53 in Hlo by lia. lia. }
    replace e3 with (e1 + 1) by lia. rewrite Hp'.
    replace (e1 + 1 - e1) with 1 by lia.
    replace (e1 + 1 + 1074) with (1 + (e1 + 1074)) by lia.
    rewrite Z.pow_add_r by lia.
    change (2 ^ 53 / 2 ^ 1) with (2 ^ 52). change (2 ^ 53) with (2 ^ 52 * 2 ^ 1).
    lia.
Qed.

(** Rounding to nearest never goes below a valid value that the exact value
    dominates. *)
Lemma binary_round_aux_lower (m : positive) (e : Z) (l : location)
    (mx : positive) (ex : Z) :
  -1074 <= e -> bounded prec emax mx ex = true ->
  Z.pos mx * 2 ^ (ex + 1074) <= Z.pos m * 2 ^ (e + 1074) ->
  Z.pos mx * 2 ^ (ex + 1074) <=
    rank (binary_round_aux prec emax false (Z.pos m) e l).
Proof.
  intros He Vx HX. unfold binary_round_aux.
  pose proof (shr_fexp_spec m e l He) as (He1 & Hm1 & Hpos1). cbn zeta in *.
  destruct (shr_fexp prec emax (Z.pos m) e l) as [mrs1 e1]. cbn [fst snd] in *.
  destruct (first_shift_lower m e e1 mx ex He He1 Vx HX) as [Hlt1 HX1].
  rewrite <- Hm1 in Hlt1, HX1.
  pose proof (round_nearest_even_ge (shr_m mrs1) (loc_of_shr_record mrs1)) as Hge2.
  pose proof (round_nearest_even_le (shr_m mrs1) (loc_of_shr_record mrs1)) as Hle2.
  destruct (round_nearest_even (shr_m mrs1) (loc_of_shr_record mrs1))
    as [|p2|p2] eqn:E2; try lia.
  assert (He1' : -1074 <= e1) by lia.
  pose proof (shr_fexp_spec p2 e1 loc_Exact He1') as (He3 & Hm3 & Hpos3).
  cbn zeta in *.
  destruct (shr_fexp prec emax (Z.pos p2) e1 loc_Exact) as [mrs3 e3].
  cbn [fst snd] in *.
  pose proof (second_shift_exact p2 e1 e3 He1' ltac:(lia) He3) as Hex3.
  rewrite <- Hm3 in Hex3.
  destruct (shr_m mrs3) as [|q|q]; try lia.
  pose proof (pow2_pos (e1 + 1074) ltac:(lia)) as HP1.
  destruct (e3 <=? emax - prec).
  - cbn [rank cond_Zopp]. rewrite Hex3.
    eapply Z.le_trans; [exact HX1|].
    apply Z.mul_le_mono_nonneg_r; lia.
  - cbn [rank cond_Zopp]. pose proof (finite_rank_bounds _ _ Vx). lia.
Qed.

Lemma binary_round_lower (m : positive) (e : Z) (mx : positive) (ex : Z) :
  -1074 <= e -> bounded prec emax mx ex = true ->
  Z.pos mx * 2 ^ (ex + 1074) <= Z.pos m * 2 ^ (e + 1074) ->
  Z.pos mx * 2 ^ (ex + 1074) <= rank (binary_round prec emax false m e).
Proof.
  intros He Vx HX. unfold binary_round.
  assert (Hf : -1074 <= fexp prec emax (Z.pos (digits2_pos m) + e)).
  { unfold fexp, SpecFloat.emin, prec, emax. lia. }
  pose proof (shl_align_spec m e _ He Hf) as [Hs Hv].
  destruct (shl_align m e _) as [mz ez]. cbn [fst snd] in *.
  apply binary_round_aux_lower; [exact Hs | exact Vx | now rewrite Hv].
Qed.

End RoundingBounds.

(** ** The operations: subtraction, conversion, division, sum, product *)

Section OperationFacts.

Lemma SFltb_zero (r : spec_float) :
  SFltb (S754_zero false) r =
  match r with
  | S754_finite false _ _ | S754_infinity false => true
  | _ => false
  end.
Proof. destruct r as [s|s| |s m e]; try destruct s; reflexivity. Qed.

Lemma cond_Zopp_mul (s : bool) (a b : Z) :
  cond_Zopp s (a * b) = cond_Zopp s a * b.
Proof. destruct s; cbn [cond_Zopp]; lia. Qed.

(** The difference of two valid values is positive exactly when the first
    is the greater. *)
Lemma SFsub_positive (x y : spec_float) :
  valid_binary x = true -> valid_binary y = true ->
  x <> S754_nan -> y <> S754_nan ->
  SFltb (S754_zero false) (SFsub prec emax x y) = (rank y <? rank x).
Proof.
  intros Vx Vy Nx Ny. rewrite SFltb_zero.
  destruct x as [sx|sx| |sx mx ex]; try congruence;
  destruct y as [sy|sy| |sy my ey]; try congruence;
  cbn [SFsub rank valid_binary] in *.
  - now destruct sx, sy.
  - now destruct sy.
  - pose proof (finite_rank_bounds _ _ Vy). symmetry.
    destruct sy; cbn [negb cond_Zopp].
    + apply Z.ltb_lt. lia.
    + apply Z.ltb_ge. lia.
  - now destruct sx.
  - now destruct sx, sy.
  - pose proof (finite_rank_bounds _ _ Vy). symmetry.
    destruct sx, sy; cbn [cond_Zopp];
      first [apply Z.ltb_lt; lia | apply Z.ltb_ge; lia].
  - pose proof (finite_rank_bounds _ _ Vx). symmetry.
    destruct sx; cbn [cond_Zopp];
      first [apply Z.ltb_lt; lia | apply Z.ltb_ge; lia].
  - pose proof (finite_rank_bounds _ _ Vx). symmetry.
    destruct sx, sy; cbn [negb cond_Zopp];
      first [apply Z.ltb_lt; lia | apply Z.ltb_ge; lia].
  - pose proof (bounded_inv _ _ Vx) as (Hex & _).
    pose proof (bounded_inv _ _ Vy) as (Hey & _).
    set (ez := Z.min ex ey).
    pose proof (shl_align_value mx ex ez ltac:(lia)) as Hax.
    pose proof (shl_align_value my ey ez ltac:(lia)) as Hay.
    set (ax := Z.pos (fst (shl_align mx ex ez))) in *.
    set (ay := Z.pos (fst (shl_align my ey ez))) in *.
    assert (HP : 0 < 2 ^ (ez + 1074)) by (apply pow2_pos; lia).
    assert (Hrx : cond_Zopp sx (Z.pos mx * 2 ^ (ex + 1074)) =
                  cond_Zopp sx ax * 2 ^ (ez + 1074)).
    { rewrite <- cond_Zopp_mul. f_equal. rewrite Hax, <- Z.mul_assoc.
      rewrite <- Z.pow_add_r by lia. do 2 f_equal. lia. }
    assert (Hry : cond_Zopp sy (Z.pos my * 2 ^ (ey + 1074)) =
                  cond_Zopp sy ay * 2 ^ (ez + 1074)).
    { rewrite <- cond_Zopp_mul. f_equal. rewrite Hay, <- Z.mul_assoc.
      rewrite <- Z.pow_add_r by lia. do 2 f_equal. lia. }
    rewrite Hrx, Hry.
    destruct (cond_Zopp sx ax - cond_Zopp sy ay) as [|d|d] eqn:Ed;
      cbn [binary_normalize]; symmetry.
    + apply Z.ltb_ge. nia.
    + destruct (binary_round_signed false d ez ltac:(lia)) as [->|(m' & e' & ->)];
        apply Z.ltb_lt; nia.
    + destruct (binary_round_signed true d ez ltac:(lia)) as [->|(m' & e' & ->)];
        apply Z.ltb_ge; nia.
Qed.

(** [a - b > 0] holds exactly when neither is [NaN] and [a] is greater. *)
Lemma gt_sub_zero (a b : float) :
  gt (a - b) 0 = true <->
  is_nan a = false /\ is_nan b = false /\ ord b < ord a.
Proof.
  unfold gt. rewrite ltb_spec, sub_spec.
  change (Prim2SF 0) with (S754_zero false). unfold SF64sub.
  destruct (is_nan a) eqn:Ha.
  { rewrite is_nan_spec in Ha. destruct (Prim2SF a); try discriminate.
    cbn. split; [discriminate | intros (? & _); discriminate]. }
  destruct (is_nan b) eqn:Hb.
  { rewrite is_nan_spec in Hb. destruct (Prim2SF b); try discriminate.
    destruct (Prim2SF a); cbn;
      (split; [discriminate | intros (_ & ? & _); discriminate]). }
  rewrite SFsub_positive by auto using Prim2SF_valid, not_nan_SF.
  fold (ord a) (ord b). rewrite Z.ltb_lt. tauto.
Qed.

(** A safe integer has the key of its value. *)
Lemma to_safe_integer_ord (x : float) (z : Z) :
  to_safe_integer x = Some z -> is_nan x = false /\ ord x = z * 2 ^ 1074.
Proof.
  unfold to_safe_integer, ord. rewrite is_nan_spec.
  pose proof (Prim2SF_valid x) as V.
  destruct (Prim2SF x) as [s|s| |s m e]; try discriminate.
  - intros H. injection H as <-. auto.
  - cbn [valid_binary] in V. pose proof (bounded_inv _ _ V) as (He & _).
    destruct (Z.ltb_spec 0 e) as [|He0]; [discriminate|].
    destruct (Z.eqb_spec (Z.pos m mod 2 ^ (- e)) 0) as [Hm|]; [|discriminate].
    intros H. injection H as <-. split; [reflexivity|].
    cbn [rank]. rewrite <- cond_Zopp_mul. f_equal.
    pose proof (pow2_pos (- e) ltac:(lia)) as Hp.
    pose proof (Z.div_mod (Z.pos m) (2 ^ (- e)) ltac:(lia)) as Hdm.
    rewrite Hm, Z.add_0_r in Hdm. rewrite Hdm at 1.
    rewrite (Z.mul_comm (2 ^ (- e))), <- Z.mul_assoc, <- Z.pow_add_r by lia.
    do 2 f_equal. lia.
Qed.

(** The binary64 value of an integer below [2^53] is that integer. *)
Lemma of_Z_exact (k : Z) :
  0 < k < 2 ^ 53 ->
  exists m e,
    Prim2SF (of_Z k) = S754_finite false m e /\
    Z.pos m * 2 ^ (e + 1074) = k * 2 ^ 1074.
Proof.
  intros Hk. unfold of_Z.
  destruct (Z.ltb_spec k 0) as [|_]; [lia|].
  rewrite of_uint63_spec, Uint63.of_Z_spec.
  rewrite Z.mod_small.
  2:{ split; [lia|]. apply Z.lt_trans with (2 ^ 53); [lia | reflexivity]. }
  destruct k as [|p|p]; try lia. cbn [binary_normalize]. unfold binary_round.
  pose proof (digits2_pos_bounds p) as [Hlo Hhi].
  set (d := Z.pos (digits2_pos p)) in *.
  assert (Hd : 1 <= d <= 53).
  { split; [subst d; lia|].
    destruct (Z.le_gt_cases d 53) as [|Hgt]; [assumption|].
    assert (2 ^ 53 <= 2 ^ (d - 1)) by (apply Z.pow_le_mono_r; lia). lia. }
  replace (d + 0) with d by lia.
  assert (Hf : fexp prec emax d = d - 53).
  { unfold fexp, SpecFloat.emin, prec, emax. lia. }
  rewrite Hf. unfold shl_align.
  destruct (d - 53 - 0) as [|q|q] eqn:Eq; try lia.
  - exists p, 0. split; [|reflexivity].
    apply binary_round_aux_canonical; [|lia]. fold d. rewrite Z.add_0_r, Hf. lia.
  - exists (Pos.iter xO p q), (d - 53). split.
    + apply binary_round_aux_canonical; [|lia].
      rewrite digits2_pos_iter_xO. fold d.
      unfold fexp, SpecFloat.emin, prec, emax. lia.
    + rewrite iter_xO, <- Z.mul_assoc, <- Z.pow_add_r by lia.
      do 2 f_equal. lia.
Qed.

Lemma SFdiv_nonneg (x : spec_float) (my : positive) (ey : Z) :
  SFnonneg x = true ->
  SFnonneg (SFdiv prec emax x (S754_finite false my ey)) = true.
Proof.
  intros Hx. destruct x as [s|s| |s m e]; try discriminate.
  - reflexivity.
  - now destruct s.
  - destruct s; [discriminate|]. cbn [SFdiv xorb].
    unfold SFdiv_core_binary.
    set (m' := match _ - _ with Z.pos _ => _ | Z0 => _ | Z.neg _ => _ end).
    assert (Hm' : 0 <= m').
    { subst m'. destruct (_ - _); try lia. apply Z.shiftl_nonneg. lia. }
    pose proof (Z_div_mod m' (Z.pos my) ltac:(lia)) as Hdm.
    destruct (Z.div_eucl m' (Z.pos my)) as [q r].
    apply binary_round_aux_nonneg. nia.
Qed.

Lemma SFadd_positive (x y : spec_float) :
  valid_binary x = true -> valid_binary y = true ->
  SFpositive x = true -> SFnonneg y = true ->
  SFpositive (SFadd prec emax x y) = true.
Proof.
  intros Vx Vy Hx Hy.
  destruct x as [sx|sx| |sx mx ex]; try discriminate;
    destruct sx; try discriminate;
    destruct y as [sy|sy| |sy my ey]; try discriminate;
    try destruct sy; try discriminate; try reflexivity.
  cbn [SFadd cond_Zopp valid_binary] in *.
  pose proof (bounded_inv _ _ Vx) as (Hex & _).
  pose proof (bounded_inv _ _ Vy) as (Hey & _).
  destruct (binary_round_signed false
              (fst (shl_align mx ex (Z.min ex ey)) + fst (shl_align my ey (Z.min ex ey)))
              (Z.min ex ey) ltac:(lia)) as [E|(m' & e' & E)];
    cbn [Z.add binary_normalize]; now rewrite E.
Qed.

Lemma SFmul_nonneg (x y : spec_float) :
  SFnonneg x = true -> SFnonneg y = true ->
  SFmul prec emax x y = S754_nan \/ SFnonneg (SFmul prec emax x y) = true.
Proof.
  intros Hx Hy.
  destruct x as [sx|sx| |sx mx ex]; try discriminate;
    destruct y as [sy|sy| |sy my ey]; try discriminate;
    cbn [SFmul]; auto;
    try (destruct sx; try discriminate); try (destruct sy; try discriminate);
    auto.
  right. now apply binary_round_aux_nonneg.
Qed.

(** [Math.round] rounds half up: on a finite [x = v * 2^e] with [e < 0] the
    result is the integer [n] with [n - 1/2 <= x < n + 1/2] (as [-0] or [+0]
    by the sign of [x] when [n] is 0). *)
Lemma Math_round_half_up (x : float) (s : bool) (m : positive) (e : Z) :
  Prim2SF x = S754_finite s m e -> e < 0 ->
  exists n,
    Math_round x =
      (if (n =? 0)%Z then (if s then neg_zero else zero) else of_Z n) /\
    ((2 * n - 1) * 2 ^ (- e) <= 2 * cond_Zopp s (Z.pos m)
      < (2 * n + 1) * 2 ^ (- e))%Z.
Proof.
  intros Hx He. unfold Math_round. rewrite Hx.
  destruct (Z.leb_spec 0 e) as [|_]; [lia|].
  set (v := if s then Z.neg m else Z.pos m).
  replace (cond_Zopp s (Z.pos m)) with v by now destruct s.
  exists ((2 * v + 2 ^ (- e)) / 2 ^ (1 - e)). split; [reflexivity|].
  assert (Hp : 0 < 2 ^ (- e)) by (apply pow2_pos; lia).
  replace (1 - e) with (Z.succ (- e)) by lia.
  rewrite Z.pow_succ_r by lia.
  pose proof (Z.div_mod (2 * v + 2 ^ (- e)) (2 * 2 ^ (- e)) ltac:(lia)) as Hdm.
  pose proof (Z.mod_pos_bound (2 * v + 2 ^ (- e)) (2 * 2 ^ (- e)) ltac:(lia)) as Hb.
  set (q := (2 * v + 2 ^ (- e)) / (2 * 2 ^ (- e))) in *.
  set (p := 2 ^ (- e)) in *.
  split; nia.
Qed.

End OperationFacts.

(** ** The tax-inflated price and its rounding *)

Section InflatedPrice.

Local Open Scope float_scope.

(** The tax-inflated value of non-negative inputs is non-negative, or
    [NaN] (a zero price under an infinite rate). *)
Lemma inflated_nonneg (p v : float) :
  (0 <=? p) = true -> (0 <=? v) = true ->
  is_nan (p * (1 + v / 100)) = true \/
  SFnonneg (Prim2SF (p * (1 + v / 100))) = true.
Proof.
  rewrite !leb_zero_nonneg. intros Hp Hv.
  rewrite is_nan_spec, mul_spec, add_spec, div_spec.
  unfold SF64mul, SF64add, SF64div.
  assert (Hd : SFnonneg (SFdiv prec emax (Prim2SF v) (Prim2SF 100)) = true).
  { change (Prim2SF 100) with (S754_finite false 7036874417766400 (-46)).
    now apply SFdiv_nonneg. }
  assert (Vd : valid_binary (SFdiv prec emax (Prim2SF v) (Prim2SF 100)) = true).
  { pose proof (Prim2SF_valid (v / 100)) as V. now rewrite div_spec in V. }
  assert (Hf : SFpositive (SFadd prec emax (Prim2SF 1)
                 (SFdiv prec emax (Prim2SF v) (Prim2SF 100))) = true).
  { apply SFadd_positive; auto using Prim2SF_valid. }
  set (f := SFadd prec emax (Prim2SF 1) _) in *.
  assert (Hf' : SFnonneg f = true).
  { destruct f as [s|s| |s m e]; try discriminate; now destruct s. }
  destruct (SFmul_nonneg (Prim2SF p) f Hp Hf') as [E|E].
  - left. now rewrite E.
  - right. exact E.
Qed.

(** A rounded non-negative value below [2^52] is a non-negative integer
    below [2^52]. *)
Lemma Math_round_small (x : float) :
  SFnonneg (Prim2SF x) = true ->
  (Math_round x <? 4503599627370496) = true ->
  SFnonneg (Prim2SF (Math_round x)) = true /\
  exists n, (0 <= n < 2 ^ 52)%Z /\ ord (Math_round x) = (n * 2 ^ 1074)%Z.
Proof.
  intros Hx Hlt. apply ltb_lt in Hlt as (Hn & _ & Hlt).
  rewrite ord_two_pow_52 in Hlt.
  assert (HP : (0 < 2 ^ 1074)%Z) by (apply pow2_pos; lia).
  revert Hn Hlt. unfold Math_round, ord.
  pose proof (Prim2SF_valid x) as Vx.
  destruct (Prim2SF x) as [s|s| |s m e] eqn:Ex; try discriminate.
  - (* zero *)
    intros _ _. rewrite Ex. split; [reflexivity|]. exists 0%Z. split; [lia|reflexivity].
  - (* infinity *)
    destruct s; [discriminate|]. intros _. rewrite Ex. cbn [rank cond_Zopp].
    intros H. exfalso.
    assert (2 ^ 52 * 2 ^ 1074 < 2 ^ 2100)%Z by (rewrite <- Z.pow_add_r by lia;
      apply Z.pow_lt_mono_r; lia). lia.
  - destruct s; [discriminate|]. cbn [valid_binary] in Vx.
    pose proof (bounded_inv _ _ Vx) as (He & Hm & Hfull).
    destruct (Z.leb_spec 0 e) as [He0|He0].
    + (* integral already: at least 2^52 *)
      intros _. rewrite Ex. cbn [rank cond_Zopp]. intros H. exfalso.
      specialize (Hfull ltac:(lia)).
      assert (2 ^ 1074 <= 2 ^ (e + 1074))%Z by (apply Z.pow_le_mono_r; lia).
      nia.
    + set (n := ((2 * Z.pos m + 2 ^ (- e)) / 2 ^ (1 - e))%Z).
      assert (Hpe : (0 < 2 ^ (- e))%Z) by (apply pow2_pos; lia).
      assert (Hpe1 : (2 ^ (1 - e) = 2 * 2 ^ (- e))%Z).
      { replace (1 - e)%Z with (Z.succ (- e)) by lia.
        now rewrite Z.pow_succ_r by lia. }
      assert (Hn0 : (0 <= n)%Z) by (subst n; apply Z.div_pos; lia).
      assert (Hn53 : (n < 2 ^ 53)%Z).
      { subst n. apply Z.div_lt_upper_bound; [lia|]. rewrite Hpe1.
        assert (2 <= 2 ^ (- e))%Z.
        { change 2%Z with (2 ^ 1)%Z at 1. apply Z.pow_le_mono_r; lia. }
        nia. }
      destruct (Z.eqb_spec n 0) as [E0|E0].
      * intros _ _. split; [reflexivity|]. exists 0%Z. split; [lia|reflexivity].
      * destruct (of_Z_exact n ltac:(lia)) as (m' & e' & Em & Hv).
        intros _. rewrite Em. cbn [rank cond_Zopp SFnonneg]. rewrite Hv.
        intros H. split; [reflexivity|]. exists n. split; [nia|reflexivity].
Qed.

(** A sum of a non-negative and a positive number is a number, and no
    smaller than any finite value that the exact sum dominates. *)
Lemma add_lower (a t x : float) (mx : positive) (ex : Z) :
  SFnonneg (Prim2SF a) = true -> SFpositive (Prim2SF t) = true ->
  Prim2SF x = S754_finite false mx ex ->
  (ord x <= ord a + ord t)%Z ->
  is_nan (a + t) = false /\ (ord x <= ord (a + t))%Z.
Proof.
  intros Ha Ht Ex Hle. rewrite is_nan_spec. unfold ord in *.
  rewrite add_spec. unfold SF64add.
  pose proof (Prim2SF_valid a) as Va. pose proof (Prim2SF_valid t) as Vt.
  pose proof (Prim2SF_valid x) as Vx. rewrite Ex in *.
  cbn [valid_binary rank cond_Zopp] in Vx, Hle |- *.
  pose proof (finite_rank_bounds _ _ Vx) as Hx.
  destruct (Prim2SF a) as [sa|sa| |sa ma ea]; try discriminate;
    try (destruct sa; try discriminate);
    destruct (Prim2SF t) as [st|st| |st mt et]; try discriminate;
    destruct st; try discriminate;
    cbn [SFadd rank cond_Zopp valid_binary] in *;
    try (split; [reflexivity | lia]).
  pose proof (bounded_inv _ _ Va) as (Hea & _).
  pose proof (bounded_inv _ _ Vt) as (Het & _).
  set (ez := Z.min ea et) in *.
  pose proof (shl_align_value ma ea ez ltac:(lia)) as Hax.
  pose proof (shl_align_value mt et ez ltac:(lia)) as Hat.
  set (pa := fst (shl_align ma ea ez)) in *.
  set (pt := fst (shl_align mt et ez)) in *.
  cbn [Z.add binary_normalize].
  assert (Hsum : (Z.pos (pa + pt) * 2 ^ (ez + 1074) =
                  Z.pos ma * 2 ^ (ea + 1074) + Z.pos mt * 2 ^ (et + 1074))%Z).
  { rewrite Pos2Z.inj_add, Z.mul_add_distr_r, Hax, Hat.
    rewrite <- !Z.mul_assoc, <- !Z.pow_add_r by lia.
    do 2 f_equal; f_equal; lia. }
  split.
  - destruct (binary_round_signed false (pa + pt) ez ltac:(lia))
      as [E|(m' & e' & E)]; now rewrite E.
  - apply binary_round_lower; [lia | exact Vx | lia].
Qed.

End InflatedPrice.

(** ** Rounding and sums of non-negative numbers *)

Section NonNegative.

(** A positive value has a positive key. *)
Lemma positive_key (x : float) :
  SFpositive (Prim2SF x) = true -> 0 < ord x.
Proof.
  intros H. unfold ord. pose proof (Prim2SF_valid x) as V.
  destruct (Prim2SF x) as [s|s| |s m e]; try discriminate;
    destruct s; try discriminate; cbn [rank cond_Zopp].
  - apply pow2_pos. discriminate.
  - exact (proj1 (finite_rank_bounds _ _ V)).
Qed.

Lemma half_up_at_least (n k m d : Z) :
  0 < d -> n * d <= m -> 2 * m < (2 * k + 1) * d -> n <= k.
Proof.
  intros Hd H1 H2.
  assert (H : 2 * n * d < (2 * k + 1) * d) by lia.
  apply Z.mul_lt_mono_pos_r in H; lia.
Qed.

Lemma half_up_below (k m d : Z) :
  2 <= d -> (2 * k - 1) * d <= 2 * m -> m < 9007199254740992 ->
  k < 9007199254740992.
Proof.
  intros Hd H1 H2.
  destruct (Z.lt_ge_cases k 9007199254740992) as [|Hge]; [assumption|exfalso].
  assert (H : (2 * 9007199254740992 - 1) * 2 <= (2 * k - 1) * d).
  { apply Z.mul_le_mono_nonneg; lia. }
  lia.
Qed.

Lemma half_up_nonneg (k m d : Z) :
  0 < d -> 0 < m -> 2 * m < (2 * k + 1) * d -> 0 <= k.
Proof. intros Hd Hm H. nia. Qed.

Lemma nonneg_not_nan (x : float) :
  SFnonneg (Prim2SF x) = true -> is_nan x = false.
Proof. rewrite is_nan_spec. now destruct (Prim2SF x). Qed.

(** [Math.round] of a non-negative number is not negative. *)
Lemma Math_round_nonneg (x : float) :
  SFnonneg (Prim2SF x) = true -> SFnonneg (Prim2SF (Math_round x)) = true.
Proof.
  intros Hx. pose proof (Prim2SF_valid x) as V.
  destruct (Prim2SF x) as [s|s| |s m e] eqn:E; try discriminate.
  - unfold Math_round. now rewrite E, E.
  - unfold Math_round. now rewrite E, E.
  - destruct s; [discriminate|]. cbn [valid_binary] in V.
    pose proof (bounded_inv _ _ V) as (He & Hm & _).
    destruct (Z.le_gt_cases 0 e) as [He0|He0].
    + unfold Math_round. rewrite E.
      destruct (Z.leb_spec 0 e) as [_|Hlt]; [now rewrite E|].
      exfalso. clear - He0 Hlt. lia.
    + destruct (Math_round_half_up x false m e E He0) as (k & Ek & Hk1 & Hk2).
      cbn [cond_Zopp] in Hk1, Hk2. rewrite Ek.
      destruct (Z.eqb_spec k 0) as [_|Hk0]; [reflexivity|].
      assert (Hd : 0 < 2 ^ (- e)) by (apply pow2_pos; clear - He0; lia).
      pose proof (half_up_nonneg k (Z.pos m) (2 ^ (- e)) Hd eq_refl Hk2) as Hk.
      assert (Hk53 : k < 2 ^ 53).
      { apply (half_up_below k (Z.pos m) (2 ^ (- e))); [|assumption|exact Hm].
        change 2 with (2 ^ 1) at 1. apply Z.pow_le_mono_r; clear - He0; lia. }
      destruct (of_Z_exact k ltac:(clear - Hk Hk0 Hk53; lia)) as (m' & e' & Eo & _).
      now rewrite Eo.
Qed.

(** Adding a positive number to a non-negative one gives a number that is
    not smaller. *)
Lemma add_keeps (a t : float) :
  SFnonneg (Prim2SF a) = true -> SFpositive (Prim2SF t) = true ->
  is_nan (a + t) = false /\ ord a <= ord (a + t).
Proof.
  intros Ha Ht. pose proof (positive_key t Ht) as Hpos.
  destruct (Prim2SF a) as [sa|sa| |sa ma ea] eqn:Ea; try discriminate.
  - assert (E : Prim2SF (a + t) = Prim2SF t).
    { rewrite add_spec. unfold SF64add. rewrite Ea.
      destruct (Prim2SF t) as [s|s| |s m e]; try discriminate;
        destruct s; try discriminate; reflexivity. }
    rewrite is_nan_spec. unfold ord at 2. rewrite E. fold (ord t).
    unfold ord at 1. rewrite Ea. cbn [rank].
    split; [|now apply Z.lt_le_incl].
    destruct (Prim2SF t); try discriminate; reflexivity.
  - destruct sa; [discriminate|].
    assert (E : Prim2SF (a + t) = S754_infinity false).
    { rewrite add_spec. unfold SF64add. rewrite Ea.
      destruct (Prim2SF t) as [s|s| |s m e]; try discriminate;
        destruct s; try discriminate; reflexivity. }
    rewrite is_nan_spec. unfold ord. rewrite E, Ea.
    split; [reflexivity | apply Z.le_refl].
  - destruct sa; [discriminate|].
    apply (add_lower a t a ma ea); [now rewrite Ea | exact Ht | exact Ea |].
    clear - Hpos. lia.
Qed.

End NonNegative.

(** * Arrays *)

Section ListFacts.

Lemma nth_error_Forall {A : Type} (P : A -> Prop) (l : list A) (n : nat) (x : A) :
  Forall P l -> nth_error l n = Some x -> P x.
Proof.
  intros H Hn. rewrite Forall_forall in H. apply H.
  eapply nth_error_In; eauto.
Qed.

Lemma splice1_in_range {A : Type} (l : list A) (idx : nat) (x : A) :
  nth_error l idx = Some x ->
  splice1 l idx = ([x], firstn idx l ++ skipn (S idx) l).
Proof.
  intros H. unfold splice1. f_equal.
  revert idx H. induction l as [|y l IH]; intros [|idx] H; try discriminate.
  - cbn in *. congruence.
  - cbn [skipn]. apply IH. exact H.
Qed.

Lemma remove_at_permutation {A : Type} (l : list A) (idx : nat) (x : A) :
  nth_error l idx = Some x ->
  Permutation (x :: firstn idx l ++ skipn (S idx) l) l.
Proof.
  revert idx. induction l as [|y l IH]; intros [|idx] H; try discriminate.
  - cbn in *. injection H as ->. reflexivity.
  - cbn [firstn skipn app]. cbn [nth_error] in H.
    rewrite perm_swap. constructor. now apply IH.
Qed.

End ListFacts.

Section FindIndexFacts.

Context {A : Type}.

Lemma findIndex_from_spec (p : A -> bool) (l : list A) :
  forall i,
  (findIndex_from p l i = -1 /\ Forall (fun x => p x = false) l) \/
  (exists n x,
     findIndex_from p l i = i + Z.of_nat n /\
     nth_error l n = Some x /\ p x = true /\
     forall j y, (j < n)%nat -> nth_error l j = Some y -> p y = false).
Proof.
  induction l as [|a l IH]; intros i; cbn [findIndex_from].
  - left. split; [reflexivity | constructor].
  - destruct (p a) eqn:Ha.
    + right. exists 0%nat, a. repeat split; auto; [lia|]. intros j y Hj. lia.
    + destruct (IH (i + 1)) as [[E Hall]|(n & x & E & Hn & Hx & Hbefore)].
      * left. split; [exact E | now constructor].
      * right. exists (S n), x. repeat split; auto; [lia|].
        intros [|j] y Hj Hy; cbn in Hy.
        -- now injection Hy as <-.
        -- apply (Hbefore j); [lia | exact Hy].
Qed.

(** The first position that satisfies [p] is what [findIndex] returns. *)
Lemma findIndex_first (p : A -> bool) (l : list A) (k : nat) (x : A) :
  nth_error l k = Some x -> p x = true ->
  (forall j y, (j < k)%nat -> nth_error l j = Some y -> p y = false) ->
  findIndex p l = Z.of_nat k.
Proof.
  intros Hk Hx Hbefore. unfold findIndex.
  destruct (findIndex_from_spec p l 0) as [[_ Hall]|(n & y & E & Hn & Hy & Hb)].
  - rewrite Forall_forall in Hall.
    rewrite (Hall x) in Hx; [discriminate | eapply nth_error_In; eauto].
  - rewrite E. destruct (Nat.lt_trichotomy n k) as [Hlt|[->|Hgt]].
    + rewrite (Hbefore n y Hlt Hn) in Hy. discriminate.
    + lia.
    + rewrite (Hb k x Hgt Hk) in Hx. discriminate.
Qed.

Lemma findIndex_none (p : A -> bool) (l : list A) :
  (forall x, In x l -> p x = false) -> findIndex p l = -1.
Proof.
  intros Hall. unfold findIndex.
  destruct (findIndex_from_spec p l 0) as [[E _]|(n & y & _ & Hn & Hy & _)].
  - exact E.
  - rewrite (Hall y) in Hy; [discriminate | eapply nth_error_In; eauto].
Qed.

End FindIndexFacts.

(** ** Sorting with a comparator *)

Section SortFacts.

Context {A : Type}.
Variable comparefn : A -> A -> float.

Lemma insert_by_perm (x : A) (l : list A) :
  Permutation (insert_by comparefn x l) (x :: l).
Proof.
  induction l as [|y l IH]; cbn [insert_by]; [reflexivity|].
  destruct (gt (comparefn x y) 0); [|reflexivity].
  rewrite IH. apply perm_swap.
Qed.

Lemma sort_perm (l : list A) : Permutation (sort comparefn l) l.
Proof.
  induction l as [|x l IH]; cbn [sort]; [reflexivity|].
  rewrite insert_by_perm. now constructor.
Qed.

(** Elements only overtake an element they are in strict order with, so a
    filter that never keeps two such elements commutes with the sort. *)
Section Stable.

Variable keep : A -> bool.
Hypothesis keep_tied :
  forall x y, gt (comparefn x y) 0 = true -> keep x = true -> keep y = true ->
              False.

Lemma insert_by_filter (x : A) (l : list A) :
  filter keep (insert_by comparefn x l) = filter keep (x :: l).
Proof.
  induction l as [|y l IH]; cbn [insert_by]; [reflexivity|].
  destruct (gt (comparefn x y) 0) eqn:Hgt; [|reflexivity].
  cbn [filter] in *. rewrite IH.
  destruct (keep x) eqn:Hx, (keep y) eqn:Hy; try reflexivity.
  destruct (keep_tied x y Hgt Hx Hy).
Qed.

Lemma sort_filter (l : list A) :
  filter keep (sort comparefn l) = filter keep l.
Proof.
  induction l as [|x l IH]; cbn [sort]; [reflexivity|].
  rewrite insert_by_filter. cbn [filter]. now rewrite IH.
Qed.

End Stable.

(** With a comparator that reflects a key on well-formed elements, the
    result is ordered by the key. *)
Section Ordered.

Variable key : A -> Z.
Variable wf : A -> Prop.
Hypothesis gt_key : forall x y, gt (comparefn x y) 0 = true -> key y < key x.
Hypothesis le_key :
  forall x y, wf x -> wf y -> gt (comparefn x y) 0 = false -> key x <= key y.

Local Abbreviation by_key := (fun a b => key a <= key b).

Lemma insert_by_HdRel (a x : A) (l : list A) :
  HdRel by_key a l -> key a <= key x ->
  HdRel by_key a (insert_by comparefn x l).
Proof.
  intros Hl Hx. destruct l as [|y l]; cbn [insert_by].
  - now constructor.
  - destruct (gt (comparefn x y) 0); constructor; auto.
    now inversion Hl.
Qed.

Lemma insert_by_sorted (x : A) (l : list A) :
  wf x -> Forall wf l -> Sorted by_key l ->
  Sorted by_key (insert_by comparefn x l).
Proof.
  intros Hx Hwf Hs. induction l as [|y l IH]; cbn [insert_by].
  - repeat constructor.
  - inversion Hwf as [|? ? Hy Hwf']; subst.
    inversion Hs as [|? ? Hs' Hhd]; subst.
    destruct (gt (comparefn x y) 0) eqn:Hgt.
    + constructor; [now apply IH|].
      apply insert_by_HdRel; [exact Hhd|].
      pose proof (gt_key x y Hgt). lia.
    + constructor; [exact Hs|]. constructor. now apply le_key.
Qed.

Lemma sort_sorted (l : list A) :
  Forall wf l -> Sorted by_key (sort comparefn l).
Proof.
  induction l as [|x l IH]; intros Hwf; cbn [sort]; [constructor|].
  inversion Hwf as [|? ? Hx Hwf']; subst.
  apply insert_by_sorted; auto.
  eapply Permutation_Forall; [symmetry; apply sort_perm | exact Hwf'].
Qed.

Lemma Sorted_adjacent (l : list A) (i : nat) (a b : A) :
  Sorted by_key l ->
  nth_error l i = Some a -> nth_error l (S i) = Some b -> key a <= key b.
Proof.
  intros Hs. revert i. induction Hs as [|x l Hs IH Hhd]; intros i Ha Hb.
  - now destruct i.
  - destruct i as [|i].
    + cbn in Ha, Hb. injection Ha as ->.
      destruct l as [|y l]; [discriminate|]. cbn in Hb. injection Hb as ->.
      now inversion Hhd.
    + apply (IH i); assumption.
Qed.

End Ordered.

End SortFacts.

(** * The step wizard *)

Section WizardFacts.

Import Wizard.

Lemma totalSteps_eq : totalSteps = 6.
Proof. reflexivity. Qed.

Lemma handleNext_step (s : State) :
  currentStep (handleNext s) =
  if currentStep s <? totalSteps then currentStep s + 1 else currentStep s.
Proof. unfold handleNext. now destruct (currentStep s <? totalSteps). Qed.

Lemma handlePrevious_step (s : State) :
  currentStep (handlePrevious s) =
  if 1 <? currentStep s then currentStep s - 1 else currentStep s.
Proof. unfold handlePrevious. now destruct (1 <? currentStep s). Qed.

Lemma run_in_range (o : Op) (s : State) :
  1 <= currentStep s <= totalSteps ->
  1 <= currentStep (run o s) <= totalSteps.
Proof.
  intros Hs. destruct o; cbn [run].
  - rewrite handleNext_step.
    destruct (Z.ltb_spec (currentStep s) totalSteps); lia.
  - rewrite handlePrevious_step.
    destruct (Z.ltb_spec 1 (currentStep s)); lia.
Qed.

Lemma reachable_in_range (s : State) :
  reachable s -> 1 <= currentStep s <= totalSteps.
Proof.
  induction 1 as [|o s _ IH].
  - rewrite totalSteps_eq. cbn. lia.
  - now apply run_in_range.
Qed.

(** C6: in the six-step wizard started at step 1, [advance] on step 6 and
    [retreat] on step 1 change nothing, [advance] then [retreat] from step 3
    is back on step 3, every state reached by [advance]/[retreat] has its
    step within [[1, totalSteps]], and every operation is a total function
    that maps a reachable state to a reachable state. *)
Theorem C6_wizard_steps_clamped :
  totalSteps = 6 /\ currentStep initial = 1 /\
  (forall s, currentStep s = 6 -> handleNext s = s) /\
  (forall s, currentStep s = 1 -> handlePrevious s = s) /\
  (forall s, currentStep s = 3 -> handlePrevious (handleNext s) = s) /\
  (forall s, reachable s -> 1 <= currentStep s <= totalSteps) /\
  (forall o s, reachable s -> reachable (run o s)).
Proof.
  split; [reflexivity|]. split; [reflexivity|].
  split; [|split; [|split; [|split]]].
  - intros s H. unfold handleNext. now rewrite H.
  - intros s H. unfold handlePrevious. now rewrite H.
  - intros [n g] H. cbn [currentStep] in H. subst n. reflexivity.
  - exact reachable_in_range.
  - intros o s H. now constructor.
Qed.

Lemma run_gate (o : Op) (s : State) : canGoNext (run o s) = canGoNext s.
Proof.
  destruct o; cbn [run]; unfold handleNext, handlePrevious.
  - now destruct (currentStep s <? totalSteps).
  - now destruct (1 <? currentStep s).
Qed.

Lemma click_gate (c : Click) (s : State) : canGoNext (click c s) = canGoNext s.
Proof.
  destruct c; cbn [click].
  - destruct (previousDisabled s); [reflexivity | apply (run_gate Retreat)].
  - destruct (nextRendered s && negb (nextDisabled s));
      [apply (run_gate Advance) | reflexivity].
Qed.

Lemma displayed_gate (s : State) : displayed s -> canGoNext s = true.
Proof.
  induction 1 as [|c s _ IH]; [reflexivity | now rewrite click_gate].
Qed.

Lemma reachable_gate (s : State) : reachable s -> canGoNext s = true.
Proof.
  induction 1 as [|o s _ IH]; [reflexivity | now rewrite run_gate].
Qed.

(** C10: the gate [canGoNext] starts as [true] and no operation or click
    changes it, so it is [true] in every state of the wizard; a click on
    Next below the last step is therefore never blocked and moves one step
    forward. *)
Theorem C10_gate_is_constantly_true :
  canGoNext initial = true /\
  (forall o s, canGoNext (run o s) = canGoNext s) /\
  (forall c s, canGoNext (click c s) = canGoNext s) /\
  (forall s, reachable s -> canGoNext s = true) /\
  (forall s, displayed s -> canGoNext s = true) /\
  (forall s, displayed s -> currentStep s < 6 ->
     nextDisabled s = false /\
     currentStep (click ClickNext s) = currentStep s + 1).
Proof.
  split; [reflexivity|].
  split; [exact run_gate|]. split; [exact click_gate|].
  split; [exact reachable_gate|]. split; [exact displayed_gate|].
  intros s Hs Hlt. pose proof (displayed_gate s Hs) as Hg.
  unfold nextDisabled. rewrite Hg. split; [reflexivity|].
  cbn [click]. unfold nextRendered, nextDisabled. rewrite Hg.
  rewrite totalSteps_eq.
  destruct (Z.ltb_spec (currentStep s) 6) as [_|]; [|lia].
  cbn [negb andb]. rewrite handleNext_step, totalSteps_eq.
  destruct (Z.ltb_spec (currentStep s) 6); [reflexivity | lia].
Qed.

End WizardFacts.

(** * The skip tabs *)

Section TabFacts.

Import TabStrip.

Lemma first_cons (x : option Tab) (l : list (option Tab)) : first (x :: l) = x.
Proof. unfold first, item. cbn. now destruct x. Qed.

Lemma move_ignores_state (propTabs : list Tab) (idx : nat) (st st' : State) :
  moveSelectedTabToTop propTabs idx st = moveSelectedTabToTop propTabs idx st'.
Proof. reflexivity. Qed.

(** C7: selecting the tab at an in-range position [idx] produces the
    canonical list [propTabs] with its element at [idx] moved to the front
    (a rearrangement of [propTabs]) and makes that tab the active one; the
    outcome does not depend on the state the click finds, so selecting [B]
    and then [A] gives what selecting [A] alone gives. *)
Theorem C7_reorder_from_canonical_list
    (propTabs : list Tab) (idx : nat) (st : State) :
  (idx < List.length propTabs)%nat ->
  exists t,
    nth_error propTabs idx = Some t /\
    tabs (moveSelectedTabToTop propTabs idx st) =
      map Some (t :: firstn idx propTabs ++ skipn (S idx) propTabs) /\
    Permutation (t :: firstn idx propTabs ++ skipn (S idx) propTabs) propTabs /\
    active (moveSelectedTabToTop propTabs idx st) = Some t /\
    forall idxB,
      moveSelectedTabToTop propTabs idx
        (moveSelectedTabToTop propTabs idxB st) =
      moveSelectedTabToTop propTabs idx (initial propTabs).
Proof.
  intros Hlt.
  destruct (nth_error propTabs idx) as [t|] eqn:Ht.
  2: { apply nth_error_None in Ht. lia. }
  exists t. split; [reflexivity|].
  assert (Hs : splice1 (map Some propTabs) idx =
               ([Some t], map Some (firstn idx propTabs ++ skipn (S idx) propTabs))).
  { rewrite (splice1_in_range _ idx (Some t)).
    - now rewrite map_app, firstn_map, skipn_map.
    - now rewrite nth_error_map, Ht. }
  unfold moveSelectedTabToTop. rewrite Hs. cbn [tabs active].
  rewrite !first_cons. cbn [map].
  repeat split; try reflexivity.
  now apply remove_at_permutation.
Qed.

End TabFacts.

(** * The catalog transformer *)

(** ** Decoration of one record *)

Section Decoration.

Variable shortest_decimal : float -> string.

Local Abbreviation transform := (transformApiDataToSkip shortest_decimal).
Local Abbreviation str := (toString shortest_decimal).

(** C1, amended: decoration computes
    [priceWithTax = round(price_before_vat * (1 + vat / 100))],
    [Math.round] rounding half up (the integer [n] with
    [n - 1/2 <= x < n + 1/2], so ties go towards [+Infinity]), and
    [finalPrice = priceWithTax + transport_cost] when the transport cost is
    present and truthy (neither zero nor [NaN]), [finalPrice = priceWithTax]
    otherwise; the transport cost is added after the rounding, and is not
    rounded.  A present transport cost of zero is not added, which leaves
    the same number as the sum; a present [NaN] is not added either, and
    then the price is not the sum.  For 278, 20, [null] the prices are 334
    and 334; for 992, 20, 248 they are 1190 and 1438. *)
Theorem C1_price_with_tax_then_transport :
  (forall r,
     price_with_vat (transform r) =
       Math_round (price_before_vat r * (1 + vat r / 100))) /\
  (forall r, transport_cost r = None ->
     final_price (transform r) = price_with_vat (transform r)) /\
  (forall r t, transport_cost r = Some t -> truthy t = true ->
     final_price (transform r) = (price_with_vat (transform r) + t)%float) /\
  (forall r t, transport_cost r = Some t -> is_nan t = false ->
     same_value_zero (final_price (transform r))
                     (price_with_vat (transform r) + t) = true) /\
  (forall r t, transport_cost r = Some t -> truthy t = false ->
     final_price (transform r) = price_with_vat (transform r)) /\
  (forall x s m e,
     Prim2SF x = S754_finite s m e -> e < 0 ->
     exists n,
       Math_round x =
         (if (n =? 0)%Z then (if s then neg_zero else zero) else of_Z n) /\
       ((2 * n - 1) * 2 ^ (- e) <= 2 * cond_Zopp s (Z.pos m)
         < (2 * n + 1) * 2 ^ (- e))%Z) /\
  (Math_round 0.5 = 1%float /\ Math_round 1.5 = 2%float /\
   Math_round 2.5 = 3%float /\ Math_round (-2.5) = (-2)%float /\
   Math_round 2.4 = 2%float /\ Math_round 2.6 = 3%float) /\
  (forall r, price_before_vat r = 278%float -> vat r = 20%float ->
     transport_cost r = None ->
     price_with_vat (transform r) = 334%float /\
     final_price (transform r) = 334%float) /\
  (forall r, price_before_vat r = 992%float -> vat r = 20%float ->
     transport_cost r = Some 248%float ->
     price_with_vat (transform r) = 1190%float /\
     final_price (transform r) = 1438%float).
Proof.
  split; [reflexivity|].
  split; [intros r H; unfold transformApiDataToSkip; cbn; now rewrite H|].
  split; [intros r t H Ht; unfold transformApiDataToSkip; cbn;
          now rewrite H, Ht|].
  split.
  { intros r t H Hn. unfold transformApiDataToSkip. cbn. rewrite H.
    destruct (truthy t) eqn:Ht.
    - apply same_value_zero_refl.
    - apply add_zero_same_value. now apply falsy_number_is_zero. }
  split; [intros r t H Hf; unfold transformApiDataToSkip; cbn;
          now rewrite H, Hf|].
  split; [exact Math_round_half_up|].
  split; [repeat split; vm_compute; reflexivity|].
  split.
  - intros r Hp Hv Ht. unfold transformApiDataToSkip. cbn.
    rewrite Hp, Hv, Ht. split; vm_compute; reflexivity.
  - intros r Hp Hv Ht. unfold transformApiDataToSkip. cbn.
    rewrite Hp, Hv, Ht. split; vm_compute; reflexivity.
Qed.

(** C2, amended: for a record with non-negative [price_before_vat] and
    [vat], a transport cost that, when present, is not negative, and a
    [priceWithTax] that is a number, the decorated entry has
    [finalPrice >= priceWithTax >= 0]; if moreover [priceWithTax] is below
    [2^52] and the transport cost, when present, is zero or at least 1, then
    [finalPrice] equals [priceWithTax] exactly when the transport cost is
    absent or zero. *)
Theorem C2_final_price_bounds (r : SkipApiData) :
  (0 <=? price_before_vat r)%float = true ->
  (0 <=? vat r)%float = true ->
  (forall t, transport_cost r = Some t -> (0 <=? t)%float = true) ->
  is_nan (price_with_vat (transform r)) = false ->
  ge (final_price (transform r)) (price_with_vat (transform r)) = true /\
  ge (price_with_vat (transform r)) 0 = true /\
  ((price_with_vat (transform r) <? exact_amount_bound)%float = true ->
   (forall t, transport_cost r = Some t ->
              is_zero t = true \/ (1 <=? t)%float = true) ->
   (strict_eq (final_price (transform r)) (price_with_vat (transform r)) = true
    <-> transport_cost r = None \/
        exists t, transport_cost r = Some t /\ is_zero t = true)).
Proof.
  intros Hp Hv Hcost Hnum.
  unfold transformApiDataToSkip in *. cbn [price_with_vat final_price] in *.
  set (x := (price_before_vat r * (1 + vat r / 100))%float) in *.
  set (pwv := Math_round x) in *.
  assert (Hx : SFnonneg (Prim2SF x) = true).
  { destruct (inflated_nonneg _ _ Hp Hv) as [Hnan|H]; [|exact H]. exfalso.
    fold x in Hnan. subst pwv. unfold Math_round in Hnum.
    rewrite is_nan_spec in Hnan.
    destruct (Prim2SF x) eqn:E; try discriminate.
    rewrite is_nan_spec, E in Hnum. discriminate. }
  assert (Hnn : SFnonneg (Prim2SF pwv) = true) by now apply Math_round_nonneg.
  assert (H0 : ge pwv 0 = true) by (unfold ge; now rewrite leb_zero_nonneg).
  split; [|split; [exact H0|]].
  - destruct (transport_cost r) as [t|] eqn:Et; [|now apply leb_refl_number].
    destruct (truthy t) eqn:Hf; [|now apply leb_refl_number].
    assert (Htp : SFpositive (Prim2SF t) = true).
    { specialize (Hcost t eq_refl). rewrite leb_zero_nonneg in Hcost.
      unfold truthy in Hf. rewrite is_zero_spec, is_nan_spec in Hf.
      destruct (Prim2SF t) as [s|s| |s m e]; try discriminate;
        destruct s; try discriminate; reflexivity. }
    destruct (add_keeps pwv t Hnn Htp) as [Hsn Hso].
    unfold ge. apply leb_le. auto.
  - intros Hsmall Ht.
    destruct (Math_round_small x Hx Hsmall) as (_ & n & Hn & Hord).
    fold pwv in Hord.
    destruct (transport_cost r) as [t|] eqn:Et.
    2:{ split; [auto | intros _; now apply eqb_refl_number]. }
    destruct (Ht t eq_refl) as [Hz|H1].
    + assert (Hf : truthy t = false).
      { unfold truthy. rewrite Hz, orb_true_r. reflexivity. }
      rewrite Hf. split; [eauto | intros _; now apply eqb_refl_number].
    + apply leb_le in H1 as (_ & Htn & H1). rewrite ord_one in H1.
      assert (HP : 0 < 2 ^ 1074) by (apply pow2_pos; lia).
      assert (Htz : is_zero t = false).
      { rewrite is_zero_spec. unfold ord in H1.
        destruct (Prim2SF t); try reflexivity. cbn [rank] in H1. lia. }
      assert (Hf : truthy t = true).
      { unfold truthy. now rewrite Htn, Htz. }
      rewrite Hf.
      destruct (of_Z_exact (n + 1)) as (mx & ex & Ex & Hvx).
      { split; [lia|]. apply Z.lt_le_trans with (2 ^ 52 + 1); [lia|].
        change (2 ^ 53) with (2 ^ 52 + 2 ^ 52). lia. }
      destruct (add_lower pwv t (of_Z (n + 1)) mx ex Hnn
                  (positive_of_ord t Htn ltac:(lia)) Ex) as [Hfn Hfo].
      { unfold ord at 1. rewrite Ex. cbn [rank cond_Zopp]. rewrite Hvx, Hord. lia. }
      unfold ord at 1 in Hfo. rewrite Ex in Hfo. cbn [rank cond_Zopp] in Hfo.
      rewrite Hvx in Hfo.
      unfold strict_eq. rewrite (eqb_ord _ _ Hfn Hnum).
      split.
      * intros H. apply Z.eqb_eq in H. lia.
      * intros [H|(t' & H & Hz')]; [discriminate|].
        injection H as <-. congruence.
Qed.

(** C8, amended: the restriction list is built from three tests in this
    order - road placement disallowed, heavy waste disallowed, transport
    cost truthy (present, and neither zero nor [NaN]) - each appending its
    fixed message, and nothing else contributes: records that agree on the
    three fields get the same list. *)
Theorem C8_restrictions_from_three_fields :
  (forall r,
     restrictions (transform r) =
       (if allowed_on_road r then [] else ["Road permit required"%string]) ++
       (if allows_heavy_waste r then []
        else ["Heavy waste restrictions apply"%string]) ++
       (match transport_cost r with
        | Some cost => if truthy cost
                       then ["Additional transport costs apply"%string] else []
        | None => []
        end)) /\
  (forall r r',
     allowed_on_road r = allowed_on_road r' ->
     allows_heavy_waste r = allows_heavy_waste r' ->
     transport_cost r = transport_cost r' ->
     restrictions (transform r) = restrictions (transform r')).
Proof.
  assert (H : forall r,
     restrictions (transform r) =
       (if allowed_on_road r then [] else ["Road permit required"%string]) ++
       (if allows_heavy_waste r then []
        else ["Heavy waste restrictions apply"%string]) ++
       (match transport_cost r with
        | Some cost => if truthy cost
                       then ["Additional transport costs apply"%string] else []
        | None => []
        end)).
  { intros r. unfold transformApiDataToSkip. cbn [restrictions].
    destruct (allowed_on_road r), (allows_heavy_waste r),
      (transport_cost r) as [cost|]; cbn [negb app];
      try destruct (truthy cost); reflexivity. }
  split; [exact H|].
  intros r r' H1 H2 H3. now rewrite !H, H1, H2, H3.
Qed.

(** The table has an entry for a size exactly when the size is 4, 6, 8, 10
    or 12. *)
Lemma sizeConfig_none_iff (key : float) :
  sizeConfig key = None <->
  strict_eq key 4 = false /\ strict_eq key 6 = false /\
  strict_eq key 8 = false /\ strict_eq key 10 = false /\
  strict_eq key 12 = false.
Proof.
  split.
  - intros H.
    repeat split;
      match goal with
      | |- strict_eq key ?k = false =>
          destruct (strict_eq key k) eqn:E; [exfalso | reflexivity];
          apply strict_eq_same in E; [|vm_compute; discriminate];
          subst key; vm_compute in H; discriminate
      end.
  - intros (H4 & H6 & H8 & H10 & H12).
    destruct (sizeConfig key) as [config|] eqn:E; [exfalso | reflexivity].
    unfold sizeConfig in E.
    destruct (to_safe_integer key) as [z|] eqn:Ez; [|discriminate].
    apply to_safe_integer_ord in Ez as [Hn Hord].
    assert (Hk : forall k : float,
               is_nan k = false -> ord k = z * 2 ^ 1074 -> strict_eq key k = true).
    { intros k Hkn Hko. unfold strict_eq. rewrite eqb_ord by assumption.
      apply Z.eqb_eq. congruence. }
    destruct z as [|p|p]; try discriminate.
    do 4 (try (destruct p as [p|p|]; try discriminate)).
    all: first
      [ rewrite (Hk 4%float) in H4;
          [discriminate | reflexivity | vm_compute; reflexivity]
      | rewrite (Hk 6%float) in H6;
          [discriminate | reflexivity | vm_compute; reflexivity]
      | rewrite (Hk 8%float) in H8;
          [discriminate | reflexivity | vm_compute; reflexivity]
      | rewrite (Hk 10%float) in H10;
          [discriminate | reflexivity | vm_compute; reflexivity]
      | rewrite (Hk 12%float) in H12;
          [discriminate | reflexivity | vm_compute; reflexivity] ].
Qed.

Lemma band_tests (size : float) :
  match band size with
  | Band40 => ge size 40 = true /\ ge size 20 = true /\ ge size 16 = true /\
              ge size 14 = true /\ ge size 12 = true /\ ge size 10 = true
  | Band20 => ge size 40 = false /\ ge size 20 = true /\ ge size 16 = true /\
              ge size 14 = true /\ ge size 12 = true /\ ge size 10 = true
  | Band16 => ge size 40 = false /\ ge size 20 = false /\ ge size 16 = true /\
              ge size 14 = true /\ ge size 12 = true /\ ge size 10 = true
  | Band14 => ge size 40 = false /\ ge size 20 = false /\ ge size 16 = false /\
              ge size 14 = true /\ ge size 12 = true /\ ge size 10 = true
  | Band12 => ge size 40 = false /\ ge size 20 = false /\ ge size 16 = false /\
              ge size 14 = false /\ ge size 12 = true /\ ge size 10 = true
  | BandElse => ge size 40 = false /\ ge size 20 = false /\ ge size 16 = false /\
                ge size 14 = false /\ ge size 12 = false
  end.
Proof.
  unfold band.
  destruct (ge size 40) eqn:H40.
  { repeat split; eapply ge_weaken; eauto. }
  destruct (ge size 20) eqn:H20.
  { repeat split; eapply ge_weaken; eauto. }
  destruct (ge size 16) eqn:H16.
  { repeat split; eapply ge_weaken; eauto. }
  destruct (ge size 14) eqn:H14.
  { repeat split; eapply ge_weaken; eauto. }
  destruct (ge size 12) eqn:H12.
  { repeat split; eapply ge_weaken; eauto. }
  repeat split.
Qed.

(** C9, amended: a record whose size has no entry in the table (a size
    other than 4, 6, 8, 10 and 12) gets the
    default metadata, computed from the size alone: the theme by the bands
    [>= 40], [>= 20], [>= 16], [>= 14], [>= 12], else; the prose, the
    best-for labels and the use-case labels by the coarser bands [>= 20],
    [>= 16], [>= 12], else; the icon by the thresholds 16 and 10 (so it
    varies inside the band below 12); the capacity as
    [round(size*10)]-[round(size*12)] bin bags, the dimensions and the
    weight by the linear formulas [1.2 size], [1.5 size], [0.4 size + 3] and
    [0.6 size], [0.8 size], each rounded; the use-case percentages are 90,
    80 and 70. *)
Theorem C9_default_metadata_by_size_thresholds :
  (forall key,
     sizeConfig key = None <->
     strict_eq key 4 = false /\ strict_eq key 6 = false /\
     strict_eq key 8 = false /\ strict_eq key 10 = false /\
     strict_eq key 12 = false) /\
  (forall r, sizeConfig (size r) = None ->
     getDisplayProperties shortest_decimal r =
       defaultConfig shortest_decimal (size r)) /\
  (forall size : float,
     let d := defaultConfig shortest_decimal size in
     gradient d =
       match band size with
       | Band40 => "from-slate-600 via-gray-700 to-zinc-800"
       | Band20 => "from-red-500 via-red-700 to-red-900"
       | Band16 => "from-cyan-400 via-teal-500 to-emerald-600"
       | Band14 => "from-indigo-400 via-blue-600 to-blue-900"
       | Band12 => "from-yellow-400 via-amber-500 to-orange-600"
       | BandElse => "from-slate-400 via-gray-500 to-zinc-600"
       end%string /\
     description d =
       match band size with
       | Band40 | Band20 => "Industrial-grade solution for major projects"
       | Band16 => "Large commercial and construction projects"
       | Band14 | Band12 => "Heavy-duty commercial applications"
       | BandElse => str size ++ " yard skip for medium to large projects"
       end%string /\
     icon d =
       match band size with
       | Band40 | Band20 | Band16 => Factory
       | Band14 | Band12 => Building
       | BandElse => if ge size 10 then Building else Home
       end /\
     bestFor d =
       match band size with
       | Band40 | Band20 =>
           ["Industrial projects"; "Major construction"; "Large demolitions";
            "Commercial builds"]
       | Band16 =>
           ["Large construction"; "Commercial projects"; "Major demolitions";
            "Industrial work"]
       | Band14 | Band12 =>
           ["Construction projects"; "Commercial renovation";
            "Large clearouts"; "Industrial use"]
       | BandElse =>
           ["Medium construction"; "Large renovation"; "Commercial projects";
            "Bulk waste"]
       end%string /\
     useCases d =
       match band size with
       | Band40 | Band20 =>
           [mkUse "Industrial" 90; mkUse "Major construction" 80;
            mkUse "Bulk clearance" 70]
       | Band16 =>
           [mkUse "Large construction" 90; mkUse "Commercial" 80;
            mkUse "Bulk clearance" 70]
       | Band14 | Band12 =>
           [mkUse "Construction" 90; mkUse "Commercial renovation" 80;
            mkUse "Bulk clearance" 70]
       | BandElse =>
           [mkUse "Large project" 90; mkUse "Commercial" 80;
            mkUse "Bulk clearance" 70]
       end /\
     capacity d =
       (str (Math_round (size * 10)) ++ "-" ++
        str (Math_round (size * 12)) ++ " bin bags")%string /\
     dimensions d =
       (str (Math_round (size * 1.2)) ++ "ft × " ++
        str (Math_round (size * 1.5)) ++ "ft × " ++
        str (Math_round (size * 0.4 + 3)) ++ "ft")%string /\
     weight d =
       (str (Math_round (size * 0.6)) ++ "-" ++
        str (Math_round (size * 0.8)) ++ " tonnes")%string /\
     name d = (str size ++ " Yard Skip")%string /\
     popularity d = 0.1%float /\ scale d = 1.2%float /\ badge d = None) /\
  (forall r, size r = 14%float ->
     let d := getDisplayProperties shortest_decimal r in
     capacity d = "140-168 bin bags"%string /\
     dimensions d = "17ft × 21ft × 9ft"%string /\
     weight d = "8-11 tonnes"%string /\ icon d = Building) /\
  (forall r, size r = 40%float ->
     let d := getDisplayProperties shortest_decimal r in
     capacity d = "400-480 bin bags"%string /\
     dimensions d = "48ft × 60ft × 19ft"%string /\
     weight d = "24-32 tonnes"%string /\ icon d = Factory).
Proof.
  split; [exact sizeConfig_none_iff|].
  split; [|split; [|split]].
  - intros r H. unfold getDisplayProperties. now rewrite H.
  - intros size. cbn zeta. pose proof (band_tests size) as Hb.
    unfold defaultConfig.
    cbn [gradient description icon bestFor useCases capacity dimensions
         weight name popularity scale badge].
    destruct (band size);
      repeat match type of Hb with
        | ?g = _ /\ _ => let H := fresh in destruct Hb as [H Hb]; rewrite ?H
        | ?g = _ => rewrite ?Hb
        end;
      repeat split; reflexivity.
  - intros r H. unfold getDisplayProperties. rewrite H.
    repeat split; vm_compute; reflexivity.
  - intros r H. unfold getDisplayProperties. rewrite H.
    repeat split; vm_compute; reflexivity.
Qed.

End Decoration.

(** ** The catalog: filtered, decorated, sorted *)

Section BuiltCatalog.

Variable shortest_decimal : float -> string.

Local Abbreviation transform := (transformApiDataToSkip shortest_decimal).
Local Abbreviation sizeOf := (fun s : Skip => size (apiData s)).
Local Abbreviation bySize :=
  (fun a b : Skip => (size (apiData a) - size (apiData b))%float).

Lemma bySize_overtakes (x y : Skip) :
  gt (bySize x y) 0 = true -> ord (sizeOf y) < ord (sizeOf x).
Proof. intros H. now apply gt_sub_zero in H. Qed.

Lemma bySize_keeps (x y : Skip) :
  is_nan (sizeOf x) = false -> is_nan (sizeOf y) = false ->
  gt (bySize x y) 0 = false -> ord (sizeOf x) <= ord (sizeOf y).
Proof.
  intros Hx Hy H. destruct (Z.le_gt_cases (ord (sizeOf x)) (ord (sizeOf y)))
    as [Hle|Hgt]; [exact Hle|].
  assert (Ht : gt (bySize x y) 0 = true) by (apply gt_sub_zero; auto with zarith).
  congruence.
Qed.

(** C3: the catalog built from any raw records (whose sizes are numbers)
    holds no record with the [forbidden] flag, is a rearrangement of the
    decorations of the other records, is in ascending order of size (each
    entry's size is at most the next one's), and keeps entries of equal
    size in their original order. *)
Theorem C3_catalog_filtered_sorted_stable (raw : list SkipApiData) :
  Forall (fun r => is_nan (size r) = false) raw ->
  let catalog := buildCatalog shortest_decimal raw in
  let decorated :=
    map transform (filter (fun skip => negb (forbidden skip)) raw) in
  (forall s, In s catalog -> forbidden (apiData s) = false) /\
  Permutation catalog decorated /\
  (forall i a b,
     nth_error catalog i = Some a -> nth_error catalog (S i) = Some b ->
     (sizeOf a <=? sizeOf b)%float = true) /\
  (forall v,
     filter (fun s => strict_eq (sizeOf s) v) catalog =
     filter (fun s => strict_eq (sizeOf s) v) decorated).
Proof.
  intros Hraw. cbn zeta. unfold buildCatalog.
  set (decorated := map transform (filter (fun skip => negb (forbidden skip)) raw)).
  assert (Hperm : Permutation (sort bySize decorated) decorated)
    by apply sort_perm.
  assert (Hdec : Forall (fun s => forbidden (apiData s) = false /\
                                  is_nan (sizeOf s) = false) decorated).
  { subst decorated. apply Forall_forall. intros s Hs.
    apply in_map_iff in Hs as (r & <- & Hr). apply filter_In in Hr as [Hin Hf].
    cbn [apiData transformApiDataToSkip]. split.
    - now apply negb_true_iff in Hf.
    - rewrite Forall_forall in Hraw. now apply Hraw. }
  assert (Hcat : Forall (fun s => forbidden (apiData s) = false /\
                                  is_nan (sizeOf s) = false)
                        (sort bySize decorated)).
  { eapply Permutation_Forall; [symmetry; exact Hperm | exact Hdec]. }
  split; [|split; [exact Hperm|split]].
  - intros s Hs. rewrite Forall_forall in Hcat. now apply Hcat.
  - intros i a b Ha Hb.
    assert (Hs : Sorted (fun a b => ord (sizeOf a) <= ord (sizeOf b))
                        (sort bySize decorated)).
    { apply (sort_sorted bySize (fun s => ord (sizeOf s))
               (fun s => is_nan (sizeOf s) = false)).
      - exact bySize_overtakes.
      - exact bySize_keeps.
      - eapply Forall_impl; [|exact Hdec]. cbn. tauto. }
    pose proof (Sorted_adjacent (fun s => ord (sizeOf s)) _ i a b Hs Ha Hb) as Hle.
    apply leb_le. cbn in Hle.
    pose proof (nth_error_Forall _ _ _ _ Hcat Ha) as [_ Hna].
    pose proof (nth_error_Forall _ _ _ _ Hcat Hb) as [_ Hnb].
    auto.
  - intros v. apply sort_filter. intros x y Hgt Hx Hy.
    apply bySize_overtakes in Hgt.
    apply strict_eq_ord in Hx as [_ Hx]. apply strict_eq_ord in Hy as [_ Hy].
    lia.
Qed.

End BuiltCatalog.

(** ** The two lookups *)

Section Lookups.

Variable shortest_decimal : float -> string.

Local Abbreviation transform := (transformApiDataToSkip shortest_decimal).
Local Abbreviation catalog0 := (skipData shortest_decimal).
Local Abbreviation sizeOf := (fun s : Skip => size (apiData s)).
Local Abbreviation pop := (fun s : Skip => popularity (displayProps s)).

Lemma scan_unfold (k0 : Z) (h0 : float) (i : Z) (s : Skip) :
  scan (k0, h0) (i, s) = if (h0 <? pop s)%float then (i, pop s) else (k0, h0).
Proof. reflexivity. Qed.

(** The [forEach] loop from index [i] on, started with the running maximum
    [h0] found at [k0]: either no entry beats [h0] and the state is
    unchanged, or the loop ends on the first entry that attains the
    greatest popularity. *)
Lemma scan_loop (l : list Skip) :
  forall (i k0 : Z) (h0 : float),
  is_nan h0 = false ->
  Forall (fun s => is_nan (pop s) = false) l ->
  let st := fold_left scan (entries_from l i) (k0, h0) in
  (st = (k0, h0) /\ Forall (fun s => ord (pop s) <= ord h0) l) \/
  (exists n s,
     st = (i + Z.of_nat n, pop s) /\ nth_error l n = Some s /\
     ord h0 < ord (pop s) /\
     Forall (fun s' => ord (pop s') <= ord (pop s)) l /\
     forall j s', (j < n)%nat -> nth_error l j = Some s' ->
                  ord (pop s') < ord (pop s)).
Proof.
  induction l as [|x l IH]; intros i k0 h0 Hh Hl; cbn zeta.
  - left. split; [reflexivity | constructor].
  - inversion Hl as [|? ? Hx Hl']; subst.
    cbn [entries_from fold_left]. rewrite scan_unfold.
    rewrite (ltb_ord _ _ Hh Hx).
    destruct (Z.ltb_spec (ord h0) (ord (pop x))) as [Hlt|Hge].
    + destruct (IH (i + 1) i (pop x) Hx Hl') as [[E Hall]|(n & s & E & Hn & Hlt' & Hall & Hbefore)].
      * right. exists 0%nat, x. rewrite E. repeat split.
        -- f_equal. lia.
        -- exact Hlt.
        -- constructor; [lia | exact Hall].
        -- intros j s' Hj. lia.
      * right. exists (S n), s. rewrite E. repeat split.
        -- f_equal. lia.
        -- exact Hn.
        -- lia.
        -- constructor; [lia | exact Hall].
        -- intros [|j] s' Hj Hs'; cbn in Hs'.
           ++ injection Hs' as <-. exact Hlt'.
           ++ apply (Hbefore j); [lia | exact Hs'].
    + destruct (IH (i + 1) k0 h0 Hh Hl') as [[E Hall]|(n & s & E & Hn & Hlt' & Hall & Hbefore)].
      * left. split; [exact E|]. constructor; [lia | exact Hall].
      * right. exists (S n), s. rewrite E. repeat split.
        -- f_equal. lia.
        -- exact Hn.
        -- exact Hlt'.
        -- constructor; [lia | exact Hall].
        -- intros [|j] s' Hj Hs'; cbn in Hs'.
           ++ injection Hs' as <-. lia.
           ++ apply (Hbefore j); [lia | exact Hs'].
Qed.

(** Every table entry and the default have a positive popularity score. *)
Lemma sizeConfig_popularity (key : float) (config : DisplayProperties) :
  sizeConfig key = Some config ->
  In (popularity config) [0.15; 0.35; 0.25; 0.2]%float.
Proof.
  unfold sizeConfig. destruct (to_safe_integer key) as [[|p|p]|]; try discriminate.
  do 4 (try (destruct p as [p|p|]; try discriminate));
    intros H; injection H as <-; cbn; auto.
Qed.

Lemma decorated_popularity (r : SkipApiData) :
  (0 <=? pop (transform r))%float = true.
Proof.
  unfold transformApiDataToSkip. cbn [displayProps]. unfold getDisplayProperties.
  destruct (sizeConfig (size r)) as [config|] eqn:E; [|reflexivity].
  apply sizeConfig_popularity in E. cbn in E.
  destruct E as [<-|[<-|[<-|[<-|[]]]]]; reflexivity.
Qed.

(** C4: on a catalog whose popularity scores are non-negative - as they are
    in every catalog that [buildCatalog] produces -
    [getMostPopularSkipIndex] is the position of the first entry that
    attains the greatest score: no entry has a greater score and every
    earlier entry has a strictly smaller one, so a later entry with an equal
    score does not replace it (a callback leaves the state alone unless the
    score is strictly greater).  It is 1 on the scores 0.15, 0.35, 0.25 and
    0 on a catalog of one entry (and on the empty one). *)
Theorem C4_most_popular_is_first_maximum :
  (forall catalog : list Skip,
     Forall (fun s => (0 <=? pop s)%float = true) catalog ->
     catalog <> [] ->
     exists k s,
       getMostPopularSkipIndex catalog = Z.of_nat k /\
       nth_error catalog k = Some s /\
       (forall j s', nth_error catalog j = Some s' ->
                     (pop s' <=? pop s)%float = true) /\
       (forall j s', (j < k)%nat -> nth_error catalog j = Some s' ->
                     (pop s' <? pop s)%float = true)) /\
  (forall raw,
     Forall (fun s => (0 <=? pop s)%float = true)
            (buildCatalog shortest_decimal raw)) /\
  (forall st i s, gt (pop s) (snd st) = false -> scan st (i, s) = st) /\
  (forall a b c, pop a = 0.15%float -> pop b = 0.35%float -> pop c = 0.25%float ->
     getMostPopularSkipIndex [a; b; c] = 1) /\
  (forall s, getMostPopularSkipIndex [s] = 0) /\
  getMostPopularSkipIndex [] = 0.
Proof.
  split; [|split; [|split; [|split; [|split]]]].
  2:{ intros raw. unfold buildCatalog.
      eapply Permutation_Forall; [symmetry; apply sort_perm|].
      apply Forall_forall. intros s Hs. apply in_map_iff in Hs as (r & <- & _).
      apply decorated_popularity. }
  - intros catalog Hpos Hne.
    assert (Hnan : Forall (fun s => is_nan (pop s) = false) catalog).
    { eapply Forall_impl; [|exact Hpos]. cbn. intros s H.
      now apply leb_true_not_nan in H. }
    assert (Hord : Forall (fun s => 0 <= ord (pop s)) catalog).
    { eapply Forall_impl; [|exact Hpos]. cbn. intros s H.
      apply leb_le in H as (_ & _ & H). now rewrite ord_zero in H. }
    unfold getMostPopularSkipIndex, entries.
    destruct (scan_loop catalog 0 0 0%float eq_refl Hnan)
      as [[E Hall]|(n & s & E & Hn & Hlt & Hall & Hbefore)]; cbn zeta in *.
    + destruct catalog as [|x l]; [congruence|].
      exists 0%nat, x. rewrite E. split; [reflexivity|]. split; [reflexivity|].
      rewrite ord_zero in Hall. split.
      * intros j s' Hs'. apply leb_le.
        pose proof (nth_error_Forall _ _ _ _ Hnan Hs').
        pose proof (nth_error_Forall _ _ _ _ Hall Hs').
        pose proof (nth_error_Forall _ _ 0%nat x Hnan eq_refl).
        pose proof (nth_error_Forall _ _ 0%nat x Hord eq_refl).
        cbn in *. repeat split; auto; lia.
      * intros j s' Hj. lia.
    + exists n, s. rewrite E. split; [cbn; f_equal; lia|]. split; [exact Hn|].
      pose proof (nth_error_Forall _ _ _ _ Hnan Hn) as Hs. cbn in Hs. split.
      * intros j s' Hs'. apply leb_le.
        pose proof (nth_error_Forall _ _ _ _ Hnan Hs').
        pose proof (nth_error_Forall _ _ _ _ Hall Hs').
        cbn in *. auto.
      * intros j s' Hj Hs'. apply ltb_lt.
        pose proof (nth_error_Forall _ _ _ _ Hnan Hs').
        pose proof (Hbefore j s' Hj Hs'). cbn in *. auto.
  - intros [k0 h0] i s H. cbn [snd] in H. unfold gt in H.
    rewrite scan_unfold. cbn. now rewrite H.
  - intros a b c Ha Hb Hc. unfold getMostPopularSkipIndex, entries.
    cbn [entries_from fold_left].
    rewrite (scan_unfold 0 0 0 a), Ha.
    change (0 <? 0.15)%float with true. cbn iota.
    rewrite (scan_unfold 0 _ (0 + 1) b), Hb.
    change (0.15 <? 0.35)%float with true. cbn iota.
    rewrite (scan_unfold _ _ _ c), Hc.
    change (0.35 <? 0.25)%float with false. reflexivity.
  - intros s. unfold getMostPopularSkipIndex, entries.
    cbn [entries_from fold_left]. rewrite scan_unfold.
    now destruct (0 <? pop s)%float.
  - reflexivity.
Qed.

(** C5: [getSkipIndexBySize] returns the position of the first entry whose
    size is the argument, and when no entry has that size it returns
    [getMostPopularSkipIndex] of the same catalog instead of reporting the
    miss; on the catalog of the fixture, size 6 is found at its position
    (1) and size 999 gives the most popular position. *)
Theorem C5_index_by_size_falls_back_to_most_popular :
  (forall (catalog : list Skip) (sz : float) (k : nat) (s : Skip),
     nth_error catalog k = Some s ->
     strict_eq (sizeOf s) sz = true ->
     (forall j s', (j < k)%nat -> nth_error catalog j = Some s' ->
                   strict_eq (sizeOf s') sz = false) ->
     getSkipIndexBySize catalog sz = Z.of_nat k) /\
  (forall (catalog : list Skip) (sz : float),
     (forall s, In s catalog -> strict_eq (sizeOf s) sz = false) ->
     getSkipIndexBySize catalog sz = getMostPopularSkipIndex catalog) /\
  (getSkipIndexBySize catalog0 6 = 1 /\
   option_map sizeOf (nth_error catalog0 1) = Some 6%float) /\
  getSkipIndexBySize catalog0 999 = getMostPopularSkipIndex catalog0.
Proof.
  split; [|split; [|split; [split|]]].
  - intros catalog sz k s Hk Hs Hbefore. unfold getSkipIndexBySize.
    rewrite (findIndex_first _ catalog k s Hk Hs Hbefore).
    destruct (Z.eqb_spec (Z.of_nat k) (-1)); [lia | reflexivity].
  - intros catalog sz Hnone. unfold getSkipIndexBySize.
    rewrite (findIndex_none _ catalog Hnone). reflexivity.
  - vm_compute. reflexivity.
  - vm_compute. reflexivity.
  - vm_compute. reflexivity.
Qed.

End Lookups.

(** * The skip card *)

(** ** Delivery time, restrictions and labels *)

Section CardFacts.

Variable shortest_decimal : float -> string.

Local Abbreviation transform := (transformApiDataToSkip shortest_decimal).
Local Abbreviation str := (toString shortest_decimal).

(** The three places of decoration that test the transport cost take the
    same branch. *)
Lemma transport_test (r : SkipApiData) :
  let paid := match transport_cost r with
              | Some cost => truthy cost
              | None => false
              end in
  deliveryTime (transform r) = (if paid then "Next day" else "Same day")%string /\
  restrictions (transform r) =
    (if allowed_on_road r then [] else ["Road permit required"%string]) ++
    (if allows_heavy_waste r then []
     else ["Heavy waste restrictions apply"%string]) ++
    (if paid then ["Additional transport costs apply"%string] else []) /\
  (paid = false -> final_price (transform r) = price_with_vat (transform r)).
Proof.
  cbn zeta. unfold transformApiDataToSkip.
  cbn [deliveryTime restrictions final_price price_with_vat].
  destruct (allowed_on_road r), (allows_heavy_waste r),
    (transport_cost r) as [cost|]; cbn [negb app];
    try destruct (truthy cost); repeat split; congruence.
Qed.

(** X1: the delivery time of a decorated entry is [Next day] or
    [Same day]; it is [Next day] exactly when the record has a truthy
    transport cost, which is exactly when the transport-cost message is
    among the restrictions; an entry delivered the same day has a final
    price equal to its price with tax. *)
Theorem X1_delivery_time_follows_transport_cost (r : SkipApiData) :
  (deliveryTime (transform r) = "Next day"%string \/
   deliveryTime (transform r) = "Same day"%string) /\
  (deliveryTime (transform r) = "Next day"%string <->
   exists cost, transport_cost r = Some cost /\ truthy cost = true) /\
  (deliveryTime (transform r) = "Next day"%string <->
   In "Additional transport costs apply"%string (restrictions (transform r))) /\
  (deliveryTime (transform r) = "Same day"%string ->
   final_price (transform r) = price_with_vat (transform r)).
Proof.
  destruct (transport_test r) as (Hd & Hr & Hf). cbn zeta in *.
  rewrite Hd, Hr. clear Hd Hr.
  set (paid := match transport_cost r with
               | Some cost => truthy cost | None => false end) in *.
  assert (Hp : paid = true <->
               exists cost, transport_cost r = Some cost /\ truthy cost = true).
  { subst paid. destruct (transport_cost r) as [cost|].
    - split; [eauto | intros (c & H & Hc); congruence].
    - split; [discriminate | intros (c & H & _); discriminate]. }
  destruct paid.
  - split; [now left|]. split; [tauto|]. split; [|discriminate].
    split; [|reflexivity]. intros _.
    destruct (allowed_on_road r), (allows_heavy_waste r); cbn; tauto.
  - split; [now right|]. split.
    { split; [discriminate|]. intros H. apply Hp in H. discriminate. }
    split; [|auto].
    split; [discriminate|].
    destruct (allowed_on_road r), (allows_heavy_waste r); cbn;
      intuition discriminate.
Qed.

(** X2: on the card of a decorated entry the road label reads
    [Private land only] exactly when the road-permit message is among the
    restrictions, and the heavy-waste label reads [Light waste only]
    exactly when the heavy-waste message is; the list of considerations is
    left out exactly when both permissions are granted and the delivery is
    the same day; the restrictions never repeat a message and are at most
    three. *)
Theorem X2_card_labels_agree_with_restrictions (r : SkipApiData) :
  (roadPlacement (transform r) = "Private land only"%string <->
   In "Road permit required"%string (restrictions (transform r))) /\
  (heavyWaste (transform r) = "Light waste only"%string <->
   In "Heavy waste restrictions apply"%string (restrictions (transform r))) /\
  (considerations (transform r) = None <->
   roadPlacement (transform r) = "Allowed on road/driveway"%string /\
   heavyWaste (transform r) = "Heavy materials allowed"%string /\
   deliveryTime (transform r) = "Same day"%string) /\
  NoDup (restrictions (transform r)) /\
  (List.length (restrictions (transform r)) <= 3)%nat.
Proof.
  destruct (transport_test r) as (Hd & Hr & _). cbn zeta in *.
  unfold considerations, roadPlacement, heavyWaste.
  rewrite Hd, Hr. cbn [apiData transformApiDataToSkip].
  destruct (allowed_on_road r), (allows_heavy_waste r),
    (match transport_cost r with Some cost => truthy cost | None => false end);
    cbn; repeat split; try (intuition discriminate); try lia;
    try (repeat constructor; cbn; intuition discriminate).
Qed.

(** A falsy number is a zero or [NaN], and prints as such. *)
Lemma falsy_prints (t : float) :
  truthy t = false -> str t = "0"%string \/ str t = "NaN"%string.
Proof.
  intros H. unfold toString, to_safe_integer.
  destruct (is_nan t) eqn:Hn.
  - rewrite is_nan_spec in Hn. destruct (Prim2SF t); try discriminate. now right.
  - apply falsy_number_is_zero in H; [|exact Hn].
    rewrite is_zero_spec in H. destruct (Prim2SF t); try discriminate. now left.
Qed.

(** X3: when the transport cost of an entry is present but falsy (a zero
    or [NaN]), the price breakdown of its card does not end after [VAT]:
    the cost itself is printed there, as [0] or [NaN]. *)
Theorem X3_falsy_transport_cost_is_printed (skip : Skip) (cost : float) :
  transport_cost (apiData skip) = Some cost ->
  truthy cost = false ->
  (transportNote shortest_decimal skip = "0"%string \/
   transportNote shortest_decimal skip = "NaN"%string) /\
  transportNote shortest_decimal skip <> EmptyString.
Proof.
  intros Hc Hf. unfold transportNote. rewrite Hc, Hf.
  destruct (falsy_prints cost Hf) as [-> | ->]; split; auto; discriminate.
Qed.

End CardFacts.

(** ** Whole prices *)

Section WholeNumbers.

Lemma all_from_spec (f : Z -> bool) (n : nat) :
  forall p, all_from f p n = true ->
  forall q, p <= q < p + Z.of_nat n -> f q = true.
Proof.
  induction n as [|n IH]; intros p H q Hq; [lia|].
  cbn [all_from] in H. apply andb_true_iff in H as [Hp H].
  destruct (Z.eq_dec q p) as [->|Hne]; [exact Hp|].
  apply (IH (p + 1) H). lia.
Qed.

Lemma adds_up_range :
  forall q, 0 <= q <= 10000 -> adds_up 20 q = true.
Proof.
  intros q Hq. apply (all_from_spec (adds_up 20) (Z.to_nat 10001) 0).
  - vm_compute. reflexivity.
  - rewrite Z2Nat.id; lia.
Qed.

Lemma key_of_finite (x : float) (m : positive) (e : Z) :
  Prim2SF x = S754_finite false m e -> ord x = Z.pos m * 2 ^ (e + 1074).
Proof. intros E. unfold ord. now rewrite E. Qed.

Lemma pow2_split (e : Z) :
  -1074 <= e <= 0 -> 2 ^ 1074 = 2 ^ (- e) * 2 ^ (e + 1074).
Proof. intros He. rewrite <- Z.pow_add_r by lia. f_equal. lia. Qed.

Lemma finite_key_below_infinity (m : positive) (e : Z) :
  bounded prec emax m e = true -> Z.pos m * 2 ^ (e + 1074) < 2 ^ 2100.
Proof. intros V. exact (proj2 (finite_rank_bounds _ _ V)). Qed.

(** A number with a positive key is a positive finite value or
    [+Infinity]. *)
Lemma positive_shape (x : float) :
  is_nan x = false -> 0 < ord x ->
  (exists m e, Prim2SF x = S754_finite false m e /\
               bounded prec emax m e = true) \/
  Prim2SF x = S754_infinity false.
Proof.
  intros Hn Hpos. pose proof (positive_of_ord x Hn Hpos) as H.
  pose proof (Prim2SF_valid x) as V.
  destruct (Prim2SF x) as [s|s| |s m e]; try discriminate;
    destruct s; try discriminate; [now right|].
  left. exists m, e. split; [reflexivity | exact V].
Qed.

Lemma cond_Zopp_zero (s : bool) (z : Z) : cond_Zopp s z = 0 -> z = 0.
Proof. destruct s, z; cbn; intros H; try reflexivity; discriminate. Qed.

(** A number with the key 0 is a zero. *)
Lemma zero_key (x : float) :
  is_nan x = false -> ord x = 0 -> exists s, Prim2SF x = S754_zero s.
Proof.
  intros Hn Ho. rewrite is_nan_spec in Hn. unfold ord in Ho.
  pose proof (Prim2SF_valid x) as V.
  destruct (Prim2SF x) as [s|s| |s m e]; try discriminate; [eauto | |];
    exfalso; cbn [rank valid_binary] in *; apply cond_Zopp_zero in Ho.
  - assert (H : 0 < 2 ^ 2100) by (apply pow2_pos; discriminate).
    rewrite Ho in H. discriminate.
  - pose proof (proj1 (finite_rank_bounds _ _ V)) as H.
    rewrite Ho in H. discriminate.
Qed.

Lemma whole_mantissa (m n d q : Z) :
  0 < q -> m * q = n * (d * q) -> m = n * d.
Proof.
  intros Hq H. rewrite Z.mul_assoc in H. now apply Z.mul_cancel_r in H; [|lia].
Qed.

Lemma large_mantissa (m n d : Z) :
  4503599627370496 <= m -> 2 <= d -> n = m * d -> 9007199254740992 <= n.
Proof.
  intros Hm Hd ->. change 9007199254740992 with (4503599627370496 * 2).
  apply Z.mul_le_mono_nonneg; lia.
Qed.

(** A number whose key is that of the integer [n], with [0 <= n < 2^53],
    is the safe integer [n]. *)
Lemma ord_whole_safe (x : float) (n : Z) :
  is_nan x = false -> 0 <= n < 2 ^ 53 -> ord x = n * 2 ^ 1074 ->
  to_safe_integer x = Some n.
Proof.
  intros Hn [Hn0 Hn53] Ho.
  assert (HP : 0 < 2 ^ 1074) by (apply pow2_pos; discriminate).
  destruct (Z.eq_dec n 0) as [->|Hne].
  { destruct (zero_key x Hn Ho) as [s E].
    unfold to_safe_integer. now rewrite E. }
  assert (Hpos : 0 < ord x).
  { rewrite Ho. apply Z.mul_pos_pos; [|exact HP].
    clear - Hn0 Hne. lia. }
  destruct (positive_shape x Hn Hpos) as [(m & e & E & V)|E].
  2: { exfalso. unfold ord in Ho. rewrite E in Ho. cbn [rank cond_Zopp] in Ho.
       assert (H : n * 2 ^ 1074 < 2 ^ 53 * 2 ^ 1074)
         by (apply Z.mul_lt_mono_pos_r; assumption).
       rewrite <- Ho, <- Z.pow_add_r in H by discriminate.
       apply Z.pow_lt_mono_r_iff in H; [discriminate H | reflexivity | discriminate]. }
  rewrite (key_of_finite x m e E) in Ho.
  pose proof (bounded_inv _ _ V) as (He & Hm & Hnorm).
  unfold to_safe_integer. rewrite E.
  destruct (Z.ltb_spec 0 e) as [Hgt|Hle].
  - exfalso. specialize (Hnorm ltac:(clear - Hgt; lia)).
    rewrite Z.pow_add_r, Z.mul_assoc in Ho by (clear - Hgt; lia).
    apply Z.mul_cancel_r in Ho; [|clear - HP; lia].
    assert (Hd : 2 <= 2 ^ e).
    { change 2 with (2 ^ 1) at 1. apply Z.pow_le_mono_r; clear - Hgt; lia. }
    pose proof (large_mantissa (Z.pos m) n (2 ^ e) Hnorm Hd (eq_sym Ho)) as H.
    change (2 ^ 53) with 9007199254740992 in Hn53.
    clear - H Hn53. lia.
  - assert (Hq : 0 < 2 ^ (e + 1074)) by (apply pow2_pos; clear - He; lia).
    assert (Hd : 0 < 2 ^ (- e)) by (apply pow2_pos; clear - Hle; lia).
    rewrite (pow2_split e ltac:(clear - He Hle; lia)) in Ho.
    apply whole_mantissa in Ho; [|exact Hq].
    rewrite Ho, Z.mod_mul, Z.div_mul by (clear - Hd; lia). reflexivity.
Qed.

End WholeNumbers.

(** ** The tax never lowers a price *)

Section TaxLowerBound.

Lemma rate_quotient_nonneg (v : float) :
  (0 <=? v)%float = true -> SFnonneg (Prim2SF (v / 100)) = true.
Proof.
  rewrite leb_zero_nonneg. intros Hv. rewrite div_spec. unfold SF64div.
  change (Prim2SF 100) with (S754_finite false 7036874417766400 (-46)).
  now apply SFdiv_nonneg.
Qed.

Lemma key_of_one : ord 1 = 2 ^ 1074.
Proof.
  unfold ord. change (Prim2SF 1) with (S754_finite false 4503599627370496 (-52)).
  cbn [rank cond_Zopp]. change 4503599627370496 with (2 ^ 52).
  rewrite <- Z.pow_add_r by discriminate. reflexivity.
Qed.

Lemma one_plus_lower (q : float) :
  SFnonneg (Prim2SF q) = true ->
  is_nan (1 + q) = false /\ ord 1 <= ord (1 + q).
Proof.
  intros Hq. destruct (SFpositive (Prim2SF q)) eqn:Hpos.
  - apply (add_lower 1 q 1 4503599627370496 (-52)); auto.
    pose proof (positive_key q Hpos) as H. clear - H. lia.
  - assert (E : Prim2SF (1 + q) = Prim2SF 1).
    { rewrite add_spec. unfold SF64add.
      destruct (Prim2SF q) as [s|s| |s m e]; try discriminate;
        destruct s; try discriminate; reflexivity. }
    rewrite is_nan_spec. unfold ord. rewrite E.
    split; [reflexivity | apply Z.le_refl].
Qed.

(** A finite value of at least 1 has an exponent of at least [-52]. *)
Lemma at_least_one_exponent (m : positive) (e : Z) :
  bounded prec emax m e = true ->
  2 ^ 1074 <= Z.pos m * 2 ^ (e + 1074) -> -52 <= e.
Proof.
  intros V H. pose proof (bounded_inv _ _ V) as (He & Hm & _).
  destruct (Z.le_gt_cases (-52) e) as [|Hlt]; [assumption | exfalso].
  assert (Hle : 2 ^ (e + 1074) <= 2 ^ 1021)
    by (apply Z.pow_le_mono_r; clear - He Hlt; lia).
  assert (HP : 0 < 2 ^ (e + 1074)) by (apply pow2_pos; clear - He; lia).
  assert (Hs : 2 ^ 1074 = 2 ^ 53 * 2 ^ 1021)
    by (rewrite <- Z.pow_add_r by discriminate; reflexivity).
  assert (Hlt' : Z.pos m * 2 ^ (e + 1074) < 2 ^ 53 * 2 ^ 1021).
  { apply Z.lt_le_trans with (2 ^ 53 * 2 ^ (e + 1074)).
    - apply Z.mul_lt_mono_pos_r; assumption.
    - apply Z.mul_le_mono_nonneg_l; [discriminate | exact Hle]. }
  rewrite Hs in H. exact (proj1 (Z.lt_nge _ _) Hlt' H).
Qed.

(** The value of a product of two finite values, before rounding. *)
Lemma product_key (ma mb : positive) (ea eb : Z) :
  -1074 <= ea -> -1074 <= eb -> -1074 <= ea + eb ->
  Z.pos (ma * mb) * 2 ^ (ea + eb + 1074) * 2 ^ 1074 =
  (Z.pos ma * 2 ^ (ea + 1074)) * (Z.pos mb * 2 ^ (eb + 1074)).
Proof.
  intros Ha Hb Hab. rewrite Pos2Z.inj_mul, <- (Z.mul_assoc _ _ (2 ^ 1074)).
  replace (2 ^ (ea + eb + 1074) * 2 ^ 1074)
    with (2 ^ (ea + 1074) * 2 ^ (eb + 1074)).
  - ring.
  - rewrite <- !Z.pow_add_r by lia. f_equal. lia.
Qed.

Lemma safe_integer_shape (x : float) (n : Z) :
  to_safe_integer x = Some n -> 1 <= n ->
  exists m e, Prim2SF x = S754_finite false m e /\
              bounded prec emax m e = true /\
              Z.pos m * 2 ^ (e + 1074) = n * 2 ^ 1074.
Proof.
  intros Hs Hn. pose proof (to_safe_integer_ord _ _ Hs) as [Hnan Ho].
  assert (HP : 0 < 2 ^ 1074) by (apply pow2_pos; discriminate).
  assert (Hpos : 0 < ord x).
  { rewrite Ho. apply Z.mul_pos_pos; [clear - Hn; lia | exact HP]. }
  destruct (positive_shape x Hnan Hpos) as [(m & e & E & V)|E].
  - exists m, e. split; [exact E|]. split; [exact V|].
    now rewrite <- (key_of_finite x m e E).
  - unfold to_safe_integer in Hs. rewrite E in Hs. discriminate.
Qed.

(** [Math.round] of a number is no smaller than any positive integer that
    the number is no smaller than. *)
Lemma Math_round_lower (x p : float) (n : Z) :
  is_nan x = false -> 1 <= n -> ord p = n * 2 ^ 1074 ->
  ord p <= ord x ->
  is_nan (Math_round x) = false /\ ord p <= ord (Math_round x).
Proof.
  intros Hx Hn Hp Hle.
  assert (HP : 0 < 2 ^ 1074) by (apply pow2_pos; discriminate).
  assert (Hpos : 0 < ord x).
  { apply Z.lt_le_trans with (ord p); [|exact Hle].
    rewrite Hp. apply Z.mul_pos_pos; [clear - Hn; lia | exact HP]. }
  destruct (positive_shape x Hx Hpos) as [(m & e & E & V)|E].
  2: { assert (Em : Math_round x = x) by (unfold Math_round; now rewrite E).
       rewrite Em. auto. }
  destruct (Z.le_gt_cases 0 e) as [He0|He0].
  { assert (Em : Math_round x = x).
    { unfold Math_round. rewrite E.
      destruct (Z.leb_spec 0 e) as [|Hlt]; [reflexivity|].
      clear - He0 Hlt. lia. }
    rewrite Em. auto. }
  pose proof (bounded_inv _ _ V) as (He & Hm & _).
  destruct (Math_round_half_up x false m e E He0) as (k & Ek & Hk1 & Hk2).
  cbn [cond_Zopp] in Hk1, Hk2.
  assert (Hd : 0 < 2 ^ (- e)) by (apply pow2_pos; clear - He0; lia).
  assert (Hq : 0 < 2 ^ (e + 1074)) by (apply pow2_pos; clear - He; lia).
  assert (Hmn : n * 2 ^ (- e) <= Z.pos m).
  { rewrite (key_of_finite x m e E), Hp in Hle.
    rewrite (pow2_split e ltac:(clear - He He0; lia)), Z.mul_assoc in Hle.
    apply Z.mul_le_mono_pos_r in Hle; assumption. }
  assert (Hkn : n <= k)
    by (apply (half_up_at_least n k (Z.pos m) (2 ^ (- e))); assumption).
  assert (Hk53 : k < 2 ^ 53).
  { apply (half_up_below k (Z.pos m) (2 ^ (- e))); [|assumption|exact Hm].
    change 2 with (2 ^ 1) at 1. apply Z.pow_le_mono_r; clear - He0; lia. }
  destruct (Z.eqb_spec k 0) as [Hk0|_]; [clear - Hk0 Hkn Hn; lia|].
  destruct (of_Z_exact k ltac:(clear - Hkn Hn Hk53; lia)) as (m' & e' & Eo & Hv).
  rewrite Ek, is_nan_spec, (key_of_finite _ m' e' Eo), Eo, Hv, Hp.
  split; [reflexivity|].
  apply Z.mul_le_mono_nonneg_r; [clear - HP; lia | exact Hkn].
Qed.

(** The product of a positive whole price and the tax factor is a number,
    and not below the price. *)
Lemma inflated_lower (P v : float) (p : Z) :
  to_safe_integer P = Some p -> 1 <= p ->
  (0 <=? v)%float = true ->
  is_nan (P * (1 + v / 100)) = false /\ ord P <= ord (P * (1 + v / 100)).
Proof.
  intros Hp H1 Hv.
  destruct (safe_integer_shape P p Hp H1) as (mp & ep & EP & VP & HPo).
  assert (HP : 0 < 2 ^ 1074) by (apply pow2_pos; discriminate).
  pose proof (rate_quotient_nonneg v Hv) as Hq.
  destruct (one_plus_lower _ Hq) as [Hcn Hco].
  set (c := (1 + v / 100)%float) in *.
  rewrite key_of_one in Hco.
  assert (HPge : 2 ^ 1074 <= Z.pos mp * 2 ^ (ep + 1074)).
  { rewrite HPo. rewrite <- (Z.mul_1_l (2 ^ 1074)) at 1.
    apply Z.mul_le_mono_nonneg_r; [clear - HP; lia | exact H1]. }
  assert (Hcpos : 0 < ord c) by (eapply Z.lt_le_trans; eassumption).
  rewrite is_nan_spec, (key_of_finite P mp ep EP).
  unfold ord. rewrite mul_spec. unfold SF64mul. rewrite EP.
  destruct (positive_shape c Hcn Hcpos) as [(mc & ec & Ec & Vc)|Ec];
    rewrite Ec; cbn [SFmul xorb].
  - rewrite (key_of_finite c mc ec Ec) in Hco.
    pose proof (at_least_one_exponent _ _ VP HPge) as Hep.
    pose proof (at_least_one_exponent _ _ Vc Hco) as Hec.
    pose proof (bounded_inv _ _ VP) as (Hep' & _).
    pose proof (bounded_inv _ _ Vc) as (Hec' & _).
    assert (He : -1074 <= ep + ec) by (clear - Hep Hec; lia).
    split.
    + destruct (binary_round_aux_signed false (Z.pos (mp * mc)) (ep + ec)
                  loc_Exact eq_refl He) as [E|(m' & e' & E)];
        now rewrite E.
    + apply binary_round_aux_lower; [exact He | exact VP |].
      apply (Z.mul_le_mono_pos_r _ _ (2 ^ 1074) HP).
      rewrite product_key by (clear - Hep' Hec' He; lia).
      apply Z.mul_le_mono_nonneg_l; [|exact Hco].
      apply Z.lt_le_incl, (proj1 (finite_rank_bounds _ _ VP)).
  - cbn [rank cond_Zopp]. split; [reflexivity|].
    apply Z.lt_le_incl. now apply finite_key_below_infinity.
Qed.

End TaxLowerBound.

Section PriceFacts.

Variable shortest_decimal : float -> string.

Local Abbreviation transform := (transformApiDataToSkip shortest_decimal).
Local Abbreviation str := (toString shortest_decimal).

(** X4: for a price of a whole number of pounds up to 10000 at the rate
    of 20, the base price plus the tax printed in the breakdown of the
    card is the price with tax that decoration computes. *)
Theorem X4_breakdown_adds_up_at_twenty_percent (r : SkipApiData) (p : Z) :
  0 <= p <= 10000 ->
  price_before_vat r = of_Z p ->
  vat r = 20%float ->
  strict_eq (price_before_vat r + vatAmount (transform r))
            (price_with_vat (transform r)) = true.
Proof.
  intros Hp Hprice Hvat. unfold vatAmount, transformApiDataToSkip.
  cbn [apiData price_with_vat]. rewrite Hprice, Hvat.
  exact (adds_up_range p Hp).
Qed.

(** X5: for a record whose price before tax is a positive whole number
    and whose rate is not negative, the price with tax is at least the
    price before tax; so is the final price when the transport cost, if
    present, is not negative. *)
Theorem X5_tax_never_lowers_a_whole_price (r : SkipApiData) (p : Z) :
  to_safe_integer (price_before_vat r) = Some p -> 1 <= p ->
  (0 <=? vat r)%float = true ->
  ge (price_with_vat (transform r)) (price_before_vat r) = true /\
  ((forall cost, transport_cost r = Some cost -> (0 <=? cost)%float = true) ->
   ge (final_price (transform r)) (price_before_vat r) = true).
Proof.
  intros Hp H1 Hv.
  destruct (inflated_lower _ _ _ Hp H1 Hv) as [Hxn Hxo].
  pose proof (to_safe_integer_ord _ _ Hp) as [HPn HPo].
  destruct (safe_integer_shape _ _ Hp H1) as (mp & ep & EP & _ & _).
  unfold transformApiDataToSkip. cbn [price_with_vat final_price].
  set (x := (price_before_vat r * (1 + vat r / 100))%float) in *.
  destruct (Math_round_lower x (price_before_vat r) p Hxn H1 HPo Hxo)
    as [Hrn Hro].
  assert (Hge : ge (Math_round x) (price_before_vat r) = true).
  { unfold ge. apply leb_le. auto. }
  split; [exact Hge|]. intros Hcost.
  destruct (transport_cost r) as [cost|]; [|exact Hge].
  destruct (truthy cost) eqn:Ht; [|exact Hge].
  specialize (Hcost cost eq_refl).
  assert (Hcpos : SFpositive (Prim2SF cost) = true).
  { rewrite leb_zero_nonneg in Hcost. unfold truthy in Ht.
    rewrite is_zero_spec, is_nan_spec in Ht.
    destruct (Prim2SF cost) as [s|s| |s m e]; try discriminate;
      destruct s; try discriminate; reflexivity. }
  assert (HPpos : 0 < ord (price_before_vat r)).
  { rewrite (key_of_finite _ mp ep EP).
    pose proof (Prim2SF_valid (price_before_vat r)) as V. rewrite EP in V.
    exact (proj1 (finite_rank_bounds _ _ V)). }
  assert (Hrnn : SFnonneg (Prim2SF (Math_round x)) = true).
  { assert (H : SFpositive (Prim2SF (Math_round x)) = true).
    { apply positive_of_ord; [exact Hrn|]. eapply Z.lt_le_trans; eassumption. }
    destruct (Prim2SF (Math_round x)) as [s|s| |s m e]; try discriminate;
      destruct s; try discriminate; reflexivity. }
  pose proof (positive_key cost Hcpos) as Hpos.
  destruct (add_lower (Math_round x) cost (price_before_vat r) mp ep
              Hrnn Hcpos EP ltac:(clear - Hro Hpos; lia)) as [Hsn Hso].
  unfold ge. apply leb_le. auto.
Qed.

End PriceFacts.

Section WholePrice.

Variable shortest_decimal : float -> string.

Local Abbreviation transform := (transformApiDataToSkip shortest_decimal).
Local Abbreviation str := (toString shortest_decimal).

(** X6: for a record with a non-negative price and rate whose price with
    tax is below [2^52], the price with tax is a whole number and is
    printed by its decimal digits alone; without a transport cost this is
    the price that the card shows. *)
Theorem X6_price_with_tax_is_a_whole_number (r : SkipApiData) :
  (0 <=? price_before_vat r)%float = true ->
  (0 <=? vat r)%float = true ->
  (price_with_vat (transform r) <? exact_amount_bound)%float = true ->
  exists n,
    0 <= n < 2 ^ 52 /\
    to_safe_integer (price_with_vat (transform r)) = Some n /\
    str (price_with_vat (transform r)) = string_of_Z n /\
    (transport_cost r = None ->
     str (final_price (transform r)) = string_of_Z n).
Proof.
  intros Hp Hv Hsmall.
  unfold transformApiDataToSkip in Hsmall |- *.
  cbn [price_with_vat final_price] in Hsmall |- *.
  set (x := (price_before_vat r * (1 + vat r / 100))%float) in *.
  assert (Hx : SFnonneg (Prim2SF x) = true).
  { destruct (inflated_nonneg _ _ Hp Hv) as [Hnan|H]; [|exact H]. exfalso.
    fold x in Hnan. apply ltb_true_not_nan in Hsmall as [Hn _].
    unfold Math_round in Hn. rewrite is_nan_spec in Hnan.
    destruct (Prim2SF x) eqn:E; try discriminate.
    rewrite is_nan_spec, E in Hn. discriminate. }
  destruct (Math_round_small x Hx Hsmall) as (_ & n & Hn & Hord).
  assert (Hnum : is_nan (Math_round x) = false)
    by now apply ltb_true_not_nan in Hsmall.
  assert (Hsafe : to_safe_integer (Math_round x) = Some n).
  { apply ord_whole_safe; auto.
    assert (2 ^ 52 < 2 ^ 53) by (apply Z.pow_lt_mono_r; lia). lia. }
  assert (Hstr : str (Math_round x) = string_of_Z n).
  { unfold toString. rewrite Hsafe. rewrite is_nan_spec in Hnum.
    unfold to_safe_integer in Hsafe.
    destruct (Prim2SF (Math_round x)); try discriminate; reflexivity. }
  exists n. repeat split; try tauto; try lia.
  intros H. rewrite H. exact Hstr.
Qed.

End WholePrice.

(** ** Display metadata *)

Section DisplayFacts.

Variable shortest_decimal : float -> string.

Local Abbreviation transform := (transformApiDataToSkip shortest_decimal).
Local Abbreviation str := (toString shortest_decimal).

Lemma string_append_assoc (a b c : string) :
  ((a ++ b) ++ c = a ++ (b ++ c))%string.
Proof. induction a as [|ch a IH]; cbn; [reflexivity | now rewrite IH]. Qed.

(** The metadata of a decorated entry is the default, or one of the five
    entries of the table. *)
Lemma display_cases (r : SkipApiData) :
  (sizeConfig (size r) = None /\
   displayProps (transform r) = defaultConfig shortest_decimal (size r)) \/
  (exists config,
     sizeConfig (size r) = Some config /\ displayProps (transform r) = config /\
     In (name config)
        ["Compact"; "Standard"; "Large"; "Extra Large"; "Commercial"]%string /\
     List.length (bestFor config) = 4%nat /\
     Forall (fun u => (70 <=? percentage u)%float = true /\
                      (percentage u <=? 95)%float = true) (useCases config) /\
     List.length (useCases config) = 3%nat).
Proof.
  unfold transformApiDataToSkip. cbn [displayProps].
  unfold getDisplayProperties, sizeConfig.
  destruct (to_safe_integer (size r)) as [[|p|p]|]; auto.
  do 4 (try (destruct p as [p|p|])); auto;
    right; eexists; (split; [reflexivity|]); (split; [reflexivity|]);
    (split; [cbn; tauto|]); (split; [reflexivity|]);
    (split; [|reflexivity]);
    repeat constructor.
Qed.

(** X7: every decorated entry, whatever its size, has four
    recommended-for labels and three use cases, and the percentage of each
    use case lies between 70 and 95. *)
Theorem X7_every_card_has_four_tags_and_three_use_cases (r : SkipApiData) :
  List.length (bestFor (displayProps (transform r))) = 4%nat /\
  List.length (useCases (displayProps (transform r))) = 3%nat /\
  Forall (fun u => (70 <=? percentage u)%float = true /\
                   (percentage u <=? 95)%float = true)
         (useCases (displayProps (transform r))).
Proof.
  destruct (display_cases r) as [[_ ->]|(config & _ & -> & _ & H4 & Hp & H3)].
  - unfold defaultConfig. cbn [bestFor useCases].
    split; [|split; [reflexivity | repeat constructor]].
    destruct (ge (size r) 20), (ge (size r) 16), (ge (size r) 12); reflexivity.
  - auto.
Qed.

(** X8: the heading of a card is the name of the entry followed by
    [Skip].  For a size in the table it is one of five headings; for any
    other size the name is the size followed by [Yard Skip], so the
    heading ends in [Skip Skip]. *)
Theorem X8_default_heading_repeats_skip (r : SkipApiData) :
  (sizeConfig (size r) = None /\
   name (displayProps (transform r)) = (str (size r) ++ " Yard Skip")%string /\
   heading (transform r) = (str (size r) ++ " Yard Skip Skip")%string) \/
  (sizeConfig (size r) <> None /\
   In (heading (transform r))
      ["Compact Skip"; "Standard Skip"; "Large Skip"; "Extra Large Skip";
       "Commercial Skip"]%string).
Proof.
  unfold heading.
  destruct (display_cases r) as [[H ->]|(config & H & -> & Hn & _)].
  - left. split; [exact H|]. unfold defaultConfig. cbn [name].
    split; [reflexivity|].
    now rewrite string_append_assoc.
  - right. split; [congruence|]. cbn [In] in Hn |- *.
    destruct Hn as [<-|[<-|[<-|[<-|[<-|[]]]]]]; cbn; tauto.
Qed.

End DisplayFacts.

(** * The catalog and its lookups, continued *)

(** ** The order of the raw records *)

Section OrderIndependence.

Variable shortest_decimal : float -> string.

Local Abbreviation transform := (transformApiDataToSkip shortest_decimal).
Local Abbreviation sizeOf := (fun s : Skip => size (apiData s)).
Local Abbreviation bySize :=
  (fun a b : Skip => (size (apiData a) - size (apiData b))%float).

Lemma filter_permutation {A : Type} (f : A -> bool) (l l' : list A) :
  Permutation l l' -> Permutation (filter f l) (filter f l').
Proof.
  induction 1 as [|x l l' _ IH|x y l|l l' l'' _ IH1 _ IH2]; cbn [filter].
  - constructor.
  - destruct (f x); [now constructor | exact IH].
  - destruct (f x), (f y); try reflexivity. apply perm_swap.
  - now transitivity (filter f l').
Qed.

(** Two lists in ascending order of a key that tells their elements apart
    are equal when they hold the same elements. *)
Lemma sorted_permutation_eq {A : Type} (key : A -> Z) (l : list A) :
  forall l',
  StronglySorted (fun a b => key a <= key b) l ->
  StronglySorted (fun a b => key a <= key b) l' ->
  Permutation l l' ->
  (forall a b, In a l -> In b l -> key a = key b -> a = b) ->
  l = l'.
Proof.
  induction l as [|x l IH]; intros l' Hs Hs' Hp Hinj.
  - now apply Permutation_nil in Hp.
  - destruct l' as [|y l'].
    { symmetry in Hp. now apply Permutation_nil in Hp. }
    apply StronglySorted_inv in Hs as [Hs Hx].
    apply StronglySorted_inv in Hs' as [Hs' Hy].
    rewrite Forall_forall in Hx, Hy.
    assert (Hxy : x = y).
    { assert (Hyin : In y (x :: l))
        by (apply (Permutation_in _ (Permutation_sym Hp)); now left).
      assert (Hxin : In x (y :: l')) by (apply (Permutation_in _ Hp); now left).
      apply Hinj; [now left | exact Hyin |].
      destruct Hyin as [->|Hyin]; [reflexivity|].
      destruct Hxin as [->|Hxin]; [reflexivity|].
      pose proof (Hx y Hyin). pose proof (Hy x Hxin). lia. }
    subst y. f_equal. apply IH; auto.
    + now apply Permutation_cons_inv in Hp.
    + intros a b Ha Hb. apply Hinj; now right.
Qed.

Lemma decorated_sorted (raw : list SkipApiData) :
  Forall (fun r => is_nan (size r) = false) raw ->
  StronglySorted (fun a b => ord (sizeOf a) <= ord (sizeOf b))
                 (buildCatalog shortest_decimal raw).
Proof.
  intros Hraw. apply Sorted_StronglySorted.
  { intros a b c. cbn beta. lia. }
  unfold buildCatalog.
  apply (sort_sorted bySize (fun s => ord (sizeOf s))
           (fun s => is_nan (sizeOf s) = false)).
  - exact bySize_overtakes.
  - exact bySize_keeps.
  - apply Forall_forall. intros s Hs.
    apply in_map_iff in Hs as (r & <- & Hr). apply filter_In in Hr as [Hr _].
    rewrite Forall_forall in Hraw. now apply Hraw.
Qed.

(** X9: when the sizes of the raw records are numbers and no two
    different records that are not forbidden have the same size, the
    catalog does not depend on the order of the raw records. *)
Theorem X9_catalog_ignores_record_order (raw raw' : list SkipApiData) :
  Permutation raw raw' ->
  Forall (fun r => is_nan (size r) = false) raw ->
  (forall a b, In a raw -> In b raw ->
     forbidden a = false -> forbidden b = false ->
     strict_eq (size a) (size b) = true -> a = b) ->
  buildCatalog shortest_decimal raw = buildCatalog shortest_decimal raw'.
Proof.
  intros Hperm Hraw Hinj.
  assert (Hraw' : Forall (fun r => is_nan (size r) = false) raw')
    by (eapply Permutation_Forall; eauto).
  apply (sorted_permutation_eq (fun s => ord (sizeOf s))).
  - now apply decorated_sorted.
  - now apply decorated_sorted.
  - unfold buildCatalog. rewrite !sort_perm.
    now apply Permutation_map, filter_permutation.
  - intros a b Ha Hb Hkey. unfold buildCatalog in Ha, Hb.
    apply (Permutation_in _ (sort_perm _ _)) in Ha, Hb.
    apply in_map_iff in Ha as (ra & <- & Ha), Hb as (rb & <- & Hb).
    apply filter_In in Ha as [Ha Hfa], Hb as [Hb Hfb].
    apply negb_true_iff in Hfa, Hfb.
    cbn [apiData transformApiDataToSkip] in Hkey.
    rewrite Forall_forall in Hraw.
    f_equal. apply Hinj; auto.
    unfold strict_eq. rewrite eqb_ord by auto. now apply Z.eqb_eq.
Qed.

End OrderIndependence.

(** ** The lookups return positions of the catalog *)

Section LookupRange.

Lemma scan_index_range (l : list Skip) :
  forall (i k0 : Z) (h0 : float),
  let k := fst (fold_left scan (entries_from l i) (k0, h0)) in
  k = k0 \/ i <= k < i + Z.of_nat (List.length l).
Proof.
  induction l as [|x l IH]; intros i k0 h0; cbn zeta; [now left|].
  cbn [entries_from fold_left]. rewrite scan_unfold.
  destruct (h0 <? popularity (displayProps x))%float.
  - destruct (IH (i + 1) i (popularity (displayProps x))) as [H|H];
      cbn zeta in H; right; cbn [List.length]; lia.
  - destruct (IH (i + 1) k0 h0) as [H|H]; cbn zeta in H;
      [now left | right; cbn [List.length]; lia].
Qed.

Lemma item_in_range {A : Type} (l : list A) (k : Z) :
  0 <= k < Z.of_nat (List.length l) -> exists x, item l k = Some x.
Proof.
  intros Hk. unfold item.
  destruct (Z.ltb_spec k 0) as [|_]; [lia|].
  destruct (nth_error l (Z.to_nat k)) as [x|] eqn:E; [eauto|].
  apply nth_error_None in E. lia.
Qed.

Lemma most_popular_in_range (catalog : list Skip) :
  catalog <> [] ->
  0 <= getMostPopularSkipIndex catalog < Z.of_nat (List.length catalog).
Proof.
  intros Hne. unfold getMostPopularSkipIndex, entries.
  destruct (scan_index_range catalog 0 0 0%float) as [H|H]; cbn zeta in H.
  - rewrite H. destruct catalog; [congruence | cbn [List.length]; lia].
  - lia.
Qed.

(** X10: on a catalog that is not empty, [getMostPopularSkipIndex] and
    [getSkipIndexBySize] (for every argument) return the position of an
    entry of the catalog, whatever the popularity scores and sizes are. *)
Theorem X10_lookups_designate_an_entry (catalog : list Skip) :
  catalog <> [] ->
  (exists s, item catalog (getMostPopularSkipIndex catalog) = Some s) /\
  (forall sz, exists s, item catalog (getSkipIndexBySize catalog sz) = Some s) /\
  (forall sz,
     0 <= getSkipIndexBySize catalog sz < Z.of_nat (List.length catalog)).
Proof.
  intros Hne. pose proof (most_popular_in_range catalog Hne) as Hm.
  assert (Hs : forall sz,
             0 <= getSkipIndexBySize catalog sz < Z.of_nat (List.length catalog)).
  { intros sz. unfold getSkipIndexBySize, findIndex.
    destruct (findIndex_from_spec
                (fun skip => strict_eq (size (apiData skip)) sz) catalog 0)
      as [[E _]|(n & x & E & Hn & _)]; rewrite E.
    - exact Hm.
    - assert (n < List.length catalog)%nat
        by (apply nth_error_Some; congruence).
      destruct (Z.eqb_spec (0 + Z.of_nat n) (-1)); cbn [negb]; lia. }
  split; [now apply item_in_range|].
  split; [intros sz; apply item_in_range; apply Hs | exact Hs].
Qed.

End LookupRange.

(** ** The most popular entry and the badge *)

Section Badge.

Variable shortest_decimal : float -> string.

Local Abbreviation transform := (transformApiDataToSkip shortest_decimal).
Local Abbreviation pop := (fun s : Skip => popularity (displayProps s)).

Lemma six_yard_iff (x : float) :
  strict_eq x 6 = true <-> to_safe_integer x = Some 6.
Proof.
  split.
  - intros H. apply strict_eq_same in H; [now subst x|].
    vm_compute. discriminate.
  - intros H. apply to_safe_integer_ord in H as [Hn Ho].
    unfold strict_eq. rewrite eqb_ord; [|exact Hn|reflexivity].
    apply Z.eqb_eq. rewrite Ho. vm_compute. reflexivity.
Qed.

(** The entry of size 6 has the score 0.35 and the badge; every other
    entry has a smaller score and no badge. *)
Lemma decorated_cases (r : SkipApiData) :
  (to_safe_integer (size r) = Some 6 /\
   pop (transform r) = 0.35%float /\
   badge (displayProps (transform r)) = Some "Most Popular"%string) \/
  (to_safe_integer (size r) <> Some 6 /\
   In (pop (transform r)) [0.1; 0.15; 0.25; 0.2]%float /\
   badge (displayProps (transform r)) = None).
Proof.
  unfold transformApiDataToSkip. cbn [displayProps].
  unfold getDisplayProperties, sizeConfig.
  destruct (to_safe_integer (size r)) as [[|p|p]|];
    try (right; split; [discriminate|]; split; [cbn; auto | reflexivity]).
  do 4 (try (destruct p as [p|p|]));
    try (right; split; [discriminate|]; split; [cbn; tauto | reflexivity]).
  left. repeat split.
Qed.

(** X11: when the raw records hold a record of size 6 that is not
    forbidden, [getMostPopularSkipIndex] of the catalog is the position of
    an entry of size 6, which carries the badge [Most Popular], and no
    entry before it carries a badge. *)
Theorem X11_most_popular_index_points_at_the_badge (raw : list SkipApiData) :
  (exists r, In r raw /\ forbidden r = false /\ strict_eq (size r) 6 = true) ->
  exists k s,
    getMostPopularSkipIndex (buildCatalog shortest_decimal raw) = Z.of_nat k /\
    nth_error (buildCatalog shortest_decimal raw) k = Some s /\
    strict_eq (size (apiData s)) 6 = true /\
    badge (displayProps s) = Some "Most Popular"%string /\
    forall j s', (j < k)%nat ->
      nth_error (buildCatalog shortest_decimal raw) j = Some s' ->
      badge (displayProps s') = None.
Proof.
  intros (r6 & Hin6 & Hf6 & Hs6).
  set (catalog := buildCatalog shortest_decimal raw).
  assert (Hfrom : forall s, In s catalog -> exists r, s = transform r).
  { intros s Hs. subst catalog. unfold buildCatalog in Hs.
    apply (Permutation_in _ (sort_perm _ _)) in Hs.
    apply in_map_iff in Hs as (r & <- & _). eauto. }
  assert (H6 : In (transform r6) catalog).
  { subst catalog. unfold buildCatalog.
    apply (Permutation_in _ (Permutation_sym (sort_perm _ _))).
    apply in_map, filter_In. split; [exact Hin6 | now rewrite Hf6]. }
  assert (Hnan : Forall (fun s => is_nan (pop s) = false) catalog).
  { apply Forall_forall. intros s Hs. destruct (Hfrom s Hs) as (r & ->).
    pose proof (decorated_popularity shortest_decimal r) as H.
    now apply leb_true_not_nan in H. }
  assert (Hpop6 : pop (transform r6) = 0.35%float).
  { destruct (decorated_cases r6) as [(_ & H & _)|(H & _)]; [exact H|].
    apply six_yard_iff in Hs6. congruence. }
  unfold getMostPopularSkipIndex, entries. fold catalog.
  destruct (scan_loop catalog 0 0 0%float eq_refl Hnan)
    as [[_ Hall]|(n & s & E & Hn & _ & Hall & Hbefore)]; cbn zeta in *.
  - exfalso. rewrite Forall_forall in Hall. specialize (Hall _ H6).
    cbn beta in Hall. rewrite Hpop6 in Hall. vm_compute in Hall. congruence.
  - exists n, s. rewrite E. cbn [fst]. split; [lia|]. split; [exact Hn|].
    assert (Hs : In s catalog) by (eapply nth_error_In; eauto).
    destruct (Hfrom s Hs) as (r & ->).
    assert (Hmax : ord 0.35%float <= ord (pop (transform r))).
    { rewrite Forall_forall in Hall. specialize (Hall _ H6).
      cbn beta in Hall. now rewrite Hpop6 in Hall. }
    destruct (decorated_cases r) as [(Hr & Hp & Hb)|(_ & Hp & _)].
    + split; [now apply six_yard_iff|]. split; [exact Hb|].
      intros j s' Hj Hs'. specialize (Hbefore j s' Hj Hs'). cbn beta in Hbefore.
      destruct (Hfrom s' (nth_error_In _ _ Hs')) as (r' & ->).
      destruct (decorated_cases r') as [(_ & Hp' & _)|(_ & _ & Hb')];
        [|exact Hb'].
      rewrite Hp, Hp' in Hbefore. lia.
    + exfalso. cbn [In] in Hp. cbn beta in Hmax, Hp.
      destruct Hp as [Hp|[Hp|[Hp|[Hp|[]]]]]; rewrite <- Hp in Hmax;
        vm_compute in Hmax; congruence.
Qed.

(** X12: every size of a raw record that is a number and not forbidden
    is found in the catalog: [getSkipIndexBySize] of that size is the
    position of an entry of that size. *)
Theorem X12_every_offered_size_is_found
    (raw : list SkipApiData) (r : SkipApiData) :
  In r raw -> forbidden r = false -> is_nan (size r) = false ->
  exists s,
    item (buildCatalog shortest_decimal raw)
         (getSkipIndexBySize (buildCatalog shortest_decimal raw) (size r)) =
      Some s /\
    strict_eq (size (apiData s)) (size r) = true.
Proof.
  intros Hin Hf Hn.
  set (catalog := buildCatalog shortest_decimal raw).
  assert (Hr : In (transform r) catalog).
  { subst catalog. unfold buildCatalog.
    apply (Permutation_in _ (Permutation_sym (sort_perm _ _))).
    apply in_map, filter_In. split; [exact Hin | now rewrite Hf]. }
  unfold getSkipIndexBySize, findIndex.
  destruct (findIndex_from_spec
              (fun skip => strict_eq (size (apiData skip)) (size r)) catalog 0)
    as [[_ Hall]|(n & x & E & Hx & Hp & _)].
  - exfalso. rewrite Forall_forall in Hall. specialize (Hall _ Hr).
    cbn [apiData transformApiDataToSkip] in Hall.
    unfold strict_eq in Hall. rewrite eqb_ord, Z.eqb_refl in Hall by assumption.
    discriminate.
  - rewrite E. exists x. split; [|exact Hp].
    destruct (Z.eqb_spec (0 + Z.of_nat n) (-1)) as [|_]; [lia|]. cbn [negb].
    unfold item. destruct (Z.ltb_spec (0 + Z.of_nat n) 0); [lia|].
    now rewrite Z.add_0_l, Nat2Z.id.
Qed.

End Badge.

(** * The card panel *)

Section ToStringFacts.

Lemma to_int_not_nil (n : Z) :
  Z.to_int n <> Decimal.Pos Decimal.Nil /\ Z.to_int n <> Decimal.Neg Decimal.Nil.
Proof.
  destruct n as [|p|p]; cbn; split; try discriminate;
    intros H; injection H as H; now apply DecimalPos.Unsigned.to_uint_nonnil in H.
Qed.

(** Different integers have different decimal digits. *)
Lemma string_of_Z_inj (a b : Z) : string_of_Z a = string_of_Z b -> a = b.
Proof.
  unfold string_of_Z. intros H.
  destruct (to_int_not_nil a) as [Ha1 Ha2], (to_int_not_nil b) as [Hb1 Hb2].
  pose proof (NilZero.isi (Z.to_int a) Ha1 Ha2) as Ea.
  pose proof (NilZero.isi (Z.to_int b) Hb1 Hb2) as Eb.
  rewrite H, Eb in Ea. injection Ea as Ea. now apply DecimalZ.to_int_inj.
Qed.

Variable shortest_decimal : float -> string.

Lemma toString_safe_integer (x : float) (n : Z) :
  to_safe_integer x = Some n -> toString shortest_decimal x = string_of_Z n.
Proof.
  intros H. unfold toString. rewrite H.
  unfold to_safe_integer in H. destruct (Prim2SF x); try discriminate; reflexivity.
Qed.

End ToStringFacts.

Section PanelFacts.

Import TabStrip.

Variable shortest_decimal : float -> string.

Local Abbreviation str := (toString shortest_decimal).
Local Abbreviation tabsOf := (skipTabs shortest_decimal).
Local Abbreviation panel := (HybridSkipPanel shortest_decimal).
Local Abbreviation idString := (fun skip : Skip => str (id (apiData skip))).

Lemma skipTabs_values (catalog : list Skip) :
  map value (tabsOf catalog) = map idString catalog.
Proof. unfold skipTabs. rewrite map_map. reflexivity. Qed.

(** [find] by a key that no two elements share returns the element the
    key was taken from. *)
Lemma find_by_key {A : Type} (key : A -> string) (l : list A) :
  NoDup (map key l) ->
  forall i x, nth_error l i = Some x ->
  find (fun y => String.eqb (key y) (key x)) l = Some x.
Proof.
  induction l as [|a l IH]; intros Hnd i x Hi; [now destruct i|].
  cbn [map] in Hnd. inversion Hnd as [|? ? Hnotin Hnd']; subst.
  cbn [find]. destruct i as [|i]; cbn [nth_error] in Hi.
  - injection Hi as ->. now rewrite String.eqb_refl.
  - destruct (String.eqb_spec (key a) (key x)) as [E|_].
    + exfalso. apply Hnotin. rewrite E. apply in_map.
      eapply nth_error_In; eauto.
    + eapply IH; eauto.
Qed.

Lemma renderEach_inactive (catalog : list Skip) (front : Tab)
    (all : list (option Tab)) (rest : list Tab) :
  ~ In (value front) (map value rest) ->
  renderEach (renderTab shortest_decimal catalog (Some front :: all))
             (map Some rest) =
  Some (repeat NoCard (List.length rest)).
Proof.
  induction rest as [|t rest IH]; intros Hnotin; [reflexivity|].
  cbn [map renderEach List.length repeat].
  assert (Ht : renderTab shortest_decimal catalog (Some front :: all) (Some t)
               = Some NoCard).
  { unfold renderTab, isActive. rewrite first_cons.
    destruct (String.eqb_spec (value t) (value front)) as [E|_]; [|reflexivity].
    exfalso. apply Hnotin. cbn [map]. left. exact E. }
  rewrite Ht, IH; [reflexivity|].
  intros H. apply Hnotin. cbn [map]. now right.
Qed.

Lemma panel_front (catalog : list Skip) (i : nat) (skip : Skip)
    (rest : list Tab) :
  NoDup (map idString catalog) ->
  nth_error catalog i = Some skip ->
  let front := {| title := name (displayProps skip); value := idString skip |} in
  ~ In (value front) (map value rest) ->
  panel catalog (map Some (front :: rest)) =
  Some (SkipCard skip :: repeat NoCard (List.length rest)).
Proof.
  intros Hnd Hi front Hnotin. unfold HybridSkipPanel.
  cbn [map renderEach].
  assert (Hf : renderTab shortest_decimal catalog
                 (Some front :: map Some rest) (Some front) =
               Some (SkipCard skip)).
  { unfold renderTab, isActive. rewrite first_cons, String.eqb_refl.
    cbn [value front].
    now rewrite (find_by_key idString catalog Hnd i skip Hi). }
  rewrite Hf, renderEach_inactive; [reflexivity | exact Hnotin].
Qed.

Lemma panel_after_click (catalog : list Skip) (idx : nat) (st : State)
    (skip : Skip) :
  NoDup (map idString catalog) ->
  nth_error catalog idx = Some skip ->
  panel catalog (tabs (moveSelectedTabToTop (tabsOf catalog) idx st)) =
    Some (SkipCard skip :: repeat NoCard (List.length catalog - 1)).
Proof.
  intros Hnd Hs.
  set (T := tabsOf catalog).
  set (front := {| title := name (displayProps skip); value := idString skip |}).
  assert (HT : nth_error T idx = Some front).
  { subst T. unfold skipTabs. now rewrite nth_error_map, Hs. }
  assert (HndT : NoDup (map value T)) by (subst T; now rewrite skipTabs_values).
  assert (HlenT : List.length T = List.length catalog)
    by (subst T; unfold skipTabs; now rewrite length_map).
  assert (Hsp : splice1 (map Some T) idx =
                ([Some front], map Some (firstn idx T ++ skipn (S idx) T))).
  { rewrite (splice1_in_range _ idx (Some front)).
    - now rewrite map_app, firstn_map, skipn_map.
    - now rewrite nth_error_map, HT. }
  unfold moveSelectedTabToTop. rewrite Hsp. cbn [tabs].
  rewrite first_cons.
  pose proof (remove_at_permutation T idx _ HT) as Hperm.
  assert (Hnd' : NoDup (map value (front :: firstn idx T ++ skipn (S idx) T))).
  { eapply Permutation_NoDup; [|exact HndT].
    symmetry. now apply Permutation_map. }
  rewrite map_cons in Hnd'. apply NoDup_cons_iff in Hnd' as [Hnotin _].
  pose proof (panel_front catalog idx skip _ Hnd Hs Hnotin) as Hp.
  cbn zeta in Hp. rewrite map_cons in Hp. fold front in Hp. rewrite Hp.
  do 3 f_equal.
  apply Permutation_length in Hperm. cbn [List.length] in Hperm. lia.
Qed.

(** Before any click the tabs are in the order a click on the first tab
    gives. *)
Lemma initial_tabs (propTabs : list Tab) (st : State) :
  propTabs <> [] ->
  tabs (initial propTabs) = tabs (moveSelectedTabToTop propTabs 0 st).
Proof.
  destruct propTabs as [|t l]; [congruence|]. intros _.
  unfold moveSelectedTabToTop, splice1. cbn [map skipn firstn app tabs initial].
  now rewrite first_cons.
Qed.

(** X13: for a catalog whose ids are safe integers, no two of them equal,
    the tabs that step 3 builds have values that are pairwise different;
    their titles are the names of the entries, in the order of the
    catalog. *)
Theorem X13_distinct_ids_give_distinct_tabs (catalog : list Skip) :
  Forall (fun skip => to_safe_integer (id (apiData skip)) <> None) catalog ->
  NoDup (map (fun skip => to_safe_integer (id (apiData skip))) catalog) ->
  NoDup (map value (tabsOf catalog)) /\
  map title (tabsOf catalog) = map (fun skip => name (displayProps skip)) catalog.
Proof.
  intros Hsafe Hnd. split.
  2: { unfold skipTabs. now rewrite map_map. }
  rewrite skipTabs_values.
  induction catalog as [|a l IH]; [constructor|].
  cbn [map] in *. inversion Hnd as [|? ? Hnotin Hnd']; subst.
  inversion Hsafe as [|? ? Ha Hsafe']; subst.
  constructor; [|now apply IH].
  intros Hin. apply Hnotin. apply in_map_iff in Hin as (b & Eb & Hb).
  apply in_map_iff. exists b. split; [|exact Hb].
  rewrite Forall_forall in Hsafe'. specialize (Hsafe' b Hb).
  destruct (to_safe_integer (id (apiData a))) as [x|] eqn:Ex; [|congruence].
  destruct (to_safe_integer (id (apiData b))) as [y|] eqn:Ey; [|congruence].
  rewrite (toString_safe_integer _ _ _ Ex), (toString_safe_integer _ _ _ Ey) in Eb.
  f_equal. now apply string_of_Z_inj.
Qed.

(** X14: for the tabs built from a catalog, with pairwise different
    values, a click on the tab at position [idx] makes the panel render
    one card, first, for the entry at [idx] of the catalog, and [null] for
    every other tab; before any click the card is that of the first
    entry. *)
Theorem X14_panel_shows_the_selected_skip
    (catalog : list Skip) (idx : nat) (st : State) :
  NoDup (map value (tabsOf catalog)) ->
  (idx < List.length catalog)%nat ->
  exists skip first_skip,
    nth_error catalog idx = Some skip /\
    nth_error catalog 0 = Some first_skip /\
    panel catalog (tabs (moveSelectedTabToTop (tabsOf catalog) idx st)) =
      Some (SkipCard skip :: repeat NoCard (List.length catalog - 1)) /\
    panel catalog (tabs (initial (tabsOf catalog))) =
      Some (SkipCard first_skip :: repeat NoCard (List.length catalog - 1)).
Proof.
  intros Hnd Hlt. rewrite skipTabs_values in Hnd.
  destruct (nth_error catalog idx) as [skip|] eqn:Hs.
  2: { apply nth_error_None in Hs. lia. }
  destruct (nth_error catalog 0) as [first_skip|] eqn:H0.
  2: { apply nth_error_None in H0. lia. }
  exists skip, first_skip. repeat split.
  - now apply panel_after_click.
  - rewrite (initial_tabs _ st).
    + now apply panel_after_click.
    + intros E. apply (f_equal (@List.length _)) in E.
      unfold skipTabs in E. rewrite length_map in E. cbn in E. lia.
Qed.

(** X15: [moveSelectedTabToTop] does not check its index: at a position
    past the end nothing is removed, [undefined] is put in front of all
    the tabs and becomes the active tab, and the panel, which reads the
    value of the first tab, throws. *)
Theorem X15_out_of_range_click_breaks_the_panel
    (propTabs : list Tab) (idx : nat) (st : State) (catalog : list Skip) :
  (List.length propTabs <= idx)%nat ->
  tabs (moveSelectedTabToTop propTabs idx st) = None :: map Some propTabs /\
  active (moveSelectedTabToTop propTabs idx st) = None /\
  panel catalog (tabs (moveSelectedTabToTop propTabs idx st)) = None.
Proof.
  intros Hle.
  assert (Hsp : splice1 (map Some propTabs) idx = ([], map Some propTabs)).
  { assert (Hlen : (List.length (map Some propTabs) <= idx)%nat)
      by now rewrite length_map.
    unfold splice1.
    rewrite (skipn_all2 _ Hlen), (firstn_all2 _ Hlen).
    rewrite (skipn_all2 _ (Nat.le_trans _ _ _ Hlen (Nat.le_succ_diag_r idx))).
    now rewrite app_nil_r. }
  unfold moveSelectedTabToTop. rewrite Hsp. cbn [tabs active].
  repeat split.
Qed.

End PanelFacts.

(** * The step wizard, continued *)

Section WizardMoreFacts.

Import Wizard.

Lemma state_eq (s : State) (c : Z) :
  currentStep s = c -> s = {| currentStep := c; canGoNext := canGoNext s |}.
Proof. destruct s. cbn. now intros ->. Qed.

(** The guards of the buttons repeat the guards of the handlers. *)
Lemma click_previous (s : State) : click ClickPrevious s = handlePrevious s.
Proof.
  cbn [click]. unfold previousDisabled, handlePrevious.
  destruct (Z.eqb_spec (currentStep s) 1) as [E|_]; [|reflexivity].
  now rewrite E.
Qed.

Lemma click_next (s : State) :
  canGoNext s = true -> click ClickNext s = handleNext s.
Proof.
  intros Hg. cbn [click]. unfold nextRendered, nextDisabled, handleNext.
  rewrite Hg. now destruct (currentStep s <? totalSteps).
Qed.

Lemma step_reachable (n : nat) :
  (n <= 5)%nat ->
  reachable {| currentStep := 1 + Z.of_nat n; canGoNext := true |}.
Proof.
  induction n as [|n IH]; intros Hn.
  - exact reach_initial.
  - assert (Hr := reach_run Advance _ (IH ltac:(lia))).
    cbn [run] in Hr. unfold handleNext, setCurrentStep in Hr.
    cbn [currentStep canGoNext] in Hr. rewrite totalSteps_eq in Hr.
    destruct (Z.ltb_spec (1 + Z.of_nat n) 6) as [_|]; [|lia].
    replace (1 + Z.of_nat (S n)) with (1 + Z.of_nat n + 1) by lia.
    exact Hr.
Qed.

Lemma displayed_reachable (s : State) : displayed s <-> reachable s.
Proof.
  split.
  - induction 1 as [|c s _ IH]; [constructor|].
    destruct c.
    + rewrite click_previous. exact (reach_run Retreat s IH).
    + rewrite click_next by now apply reachable_gate.
      exact (reach_run Advance s IH).
  - induction 1 as [|o s Hs IH]; [constructor|].
    destruct o; cbn [run].
    + rewrite <- click_next by now apply displayed_gate. now constructor.
    + rewrite <- click_previous. now constructor.
Qed.

(** X16: the states of the wizard are exactly the six steps with the gate
    open: a state is reached by [advance]/[retreat] if and only if its gate
    is [true] and its step is within [[1, totalSteps]]; the states reached
    by clicks are the same states; a click on Previous does what
    [handlePrevious] does, and with the gate open a click on Next does what
    [handleNext] does. *)
Theorem X16_wizard_states_are_the_six_steps :
  (forall s, reachable s <->
             canGoNext s = true /\ 1 <= currentStep s <= totalSteps) /\
  (forall s, displayed s <-> reachable s) /\
  (forall s, click ClickPrevious s = handlePrevious s) /\
  (forall s, canGoNext s = true -> click ClickNext s = handleNext s).
Proof.
  split; [|split; [exact displayed_reachable|split;
                   [exact click_previous | exact click_next]]].
  intros s. split.
  - intros H. split; [now apply reachable_gate | now apply reachable_in_range].
  - intros [Hg Hr]. rewrite totalSteps_eq in Hr.
    rewrite (state_eq s (1 + Z.of_nat (Z.to_nat (currentStep s - 1))))
      by lia.
    rewrite Hg. apply step_reachable. lia.
Qed.

(** X17: in a state of the wizard, [advance] followed by [retreat] gives
    the state back exactly when the step is below the last one, and
    [retreat] followed by [advance] gives it back exactly when the step is
    above the first one. *)
Theorem X17_next_and_previous_undo_each_other (s : State) :
  reachable s ->
  (handlePrevious (handleNext s) = s <-> currentStep s < totalSteps) /\
  (handleNext (handlePrevious s) = s <-> 1 < currentStep s).
Proof.
  intros H. apply reachable_in_range in H. rewrite totalSteps_eq in *.
  destruct s as [c g]. cbn [currentStep] in *.
  unfold handleNext, handlePrevious, setCurrentStep.
  cbn [currentStep canGoNext]. rewrite totalSteps_eq.
  split.
  - destruct (Z.ltb_spec c 6) as [Hlt|Hge]; cbn [currentStep canGoNext].
    + destruct (Z.ltb_spec 1 (c + 1)) as [_|]; [|lia].
      split; [auto|]. intros _. f_equal. lia.
    + destruct (Z.ltb_spec 1 c) as [_|]; [|lia].
      split; [|intros; lia]. intros E. injection E as E. lia.
  - destruct (Z.ltb_spec 1 c) as [Hlt|Hge]; cbn [currentStep canGoNext].
    + destruct (Z.ltb_spec (c - 1) 6) as [_|]; [|lia].
      split; [auto|]. intros _. f_equal. lia.
    + destruct (Z.ltb_spec c 6) as [_|]; [|lia].
      split; [|intros; lia]. intros E. injection E as E. lia.
Qed.

Lemma iter_next_step (n : nat) (s : State) :
  currentStep s <= totalSteps ->
  currentStep (Nat.iter n handleNext s) =
  Z.min (currentStep s + Z.of_nat n) totalSteps.
Proof.
  intros Hs. rewrite totalSteps_eq in *. induction n as [|n IH].
  - change (Nat.iter 0 ?f ?x) with x. lia.
  - rewrite Nat.iter_succ. rewrite handleNext_step, IH, totalSteps_eq.
    destruct (Z.ltb_spec (Z.min (currentStep s + Z.of_nat n) 6) 6); lia.
Qed.

Lemma iter_previous_step (n : nat) (s : State) :
  1 <= currentStep s ->
  currentStep (Nat.iter n handlePrevious s) =
  Z.max (currentStep s - Z.of_nat n) 1.
Proof.
  intros Hs. induction n as [|n IH].
  - change (Nat.iter 0 ?f ?x) with x. lia.
  - rewrite Nat.iter_succ. rewrite handlePrevious_step, IH.
    destruct (Z.ltb_spec 1 (Z.max (currentStep s - Z.of_nat n) 1)); lia.
Qed.

(** X18: from a state of the wizard on step [c], [n] clicks on Next lead
    to step [min (c + n) totalSteps] and [n] clicks on Previous to step
    [max (c - n) 1]. *)
Theorem X18_repeated_clicks_saturate (s : State) (n : nat) :
  reachable s ->
  currentStep (Nat.iter n (click ClickNext) s) =
    Z.min (currentStep s + Z.of_nat n) totalSteps /\
  currentStep (Nat.iter n (click ClickPrevious) s) =
    Z.max (currentStep s - Z.of_nat n) 1.
Proof.
  intros H. pose proof (reachable_in_range s H) as Hr.
  assert (Hn : forall k, Nat.iter k (click ClickNext) s = Nat.iter k handleNext s
                         /\ reachable (Nat.iter k handleNext s)).
  { induction k as [|k [IH1 IH2]]; [split; [reflexivity | exact H]|].
    rewrite !Nat.iter_succ. rewrite IH1, click_next by now apply reachable_gate.
    split; [reflexivity | exact (reach_run Advance _ IH2)]. }
  assert (Hp : forall k, Nat.iter k (click ClickPrevious) s =
                         Nat.iter k handlePrevious s).
  { induction k as [|k IH]; [reflexivity|].
    now rewrite !Nat.iter_succ, IH, click_previous. }
  rewrite (proj1 (Hn n)), Hp.
  split; [apply iter_next_step | apply iter_previous_step]; lia.
Qed.

(** X19: in a state of the wizard on step [c], the indicator shows the
    [c - 1] steps before [c] as completed, step [c] as current and the
    steps after it as upcoming; a line follows every step but the last,
    green after the completed steps only; and the entry of [steps] at
    position [c - 1] has the id [c] and names the component that
    [renderStepContent] returns. *)
Theorem X19_indicator_follows_the_step (s : State) :
  reachable s ->
  let c := currentStep s in
  Indicator.circles c =
    repeat Indicator.Completed (Z.to_nat (c - 1)) ++
    [Indicator.Current] ++
    repeat Indicator.Upcoming (Z.to_nat (totalSteps - c)) /\
  Indicator.connectors c =
    map Some (repeat true (Z.to_nat (c - 1)) ++
              repeat false (Z.to_nat (totalSteps - 1 - (c - 1)))) ++ [None] /\
  exists step,
    item steps (c - 1) = Some step /\
    step_id step = c /\
    component step = componentName (renderStepContent s).
Proof.
  intros H. apply reachable_in_range in H. rewrite totalSteps_eq in H.
  destruct s as [c g]. cbn [currentStep] in *. cbn zeta.
  assert (Hc : c = 1 \/ c = 2 \/ c = 3 \/ c = 4 \/ c = 5 \/ c = 6) by lia.
  destruct Hc as [->|[->|[->|[->|[->| ->]]]]];
    (split; [reflexivity|]; split; [reflexivity|]);
    eexists; (split; [reflexivity|]); split; reflexivity.
Qed.

End WizardMoreFacts.

Section OptionFacts.

Import OptionStep.

Lemma highlights_after_click (options : list string) (i : nat)
    (selected : option string) :
  NoDup options -> (i < List.length options)%nat ->
  forall j, (j < List.length options)%nat ->
  nth_error (highlights options (clickOption options i selected)) j =
  Some (Nat.eqb j i).
Proof.
  intros Hnd Hi j Hj. unfold highlights, clickOption.
  destruct (nth_error options i) as [t|] eqn:Et.
  2: { apply nth_error_None in Et. lia. }
  destruct (nth_error options j) as [u|] eqn:Eu.
  2: { apply nth_error_None in Eu. lia. }
  rewrite nth_error_map, Eu. cbn [option_map isSelected]. f_equal.
  destruct (String.eqb_spec t u) as [E|Hne], (Nat.eqb_spec j i) as [Eji|Hji];
    try reflexivity.
  - exfalso. apply Hji. rewrite NoDup_nth_error in Hnd.
    apply Hnd; [exact Hj | congruence].
  - exfalso. subst j. congruence.
Qed.

(** X20: in the lists of waste types and of permit options, no button is
    drawn as selected before a click; after a click on the button at
    position [i] exactly that button is, whatever was selected before; and
    a second click on the same button changes nothing. *)
Theorem X20_one_option_is_highlighted :
  (forall options,
     In options [wasteTypes; permitOptions] ->
     highlights options None = repeat false (List.length options) /\
     forall i selected j,
       (i < List.length options)%nat -> (j < List.length options)%nat ->
       nth_error (highlights options (clickOption options i selected)) j =
       Some (Nat.eqb j i)) /\
  (forall options i selected,
     clickOption options i (clickOption options i selected) =
     clickOption options i selected).
Proof.
  split.
  - intros options Hin.
    assert (Hnd : NoDup options).
    { destruct Hin as [<-|[<-|[]]]; repeat constructor; cbn;
        intuition discriminate. }
    split.
    + destruct Hin as [<-|[<-|[]]]; reflexivity.
    + intros i selected j Hi Hj. now apply highlights_after_click.
  - intros options i selected. unfold clickOption.
    now destruct (nth_error options i).
Qed.

End OptionFacts.

(** * The properties on concrete inputs *)

Section Instances.

Local Abbreviation transform0 := (transformApiDataToSkip no_shortest_decimal).
Local Abbreviation catalog0 := (skipData no_shortest_decimal).

Lemma twenty_yard_in_fixture : In twenty_yard rawApiData.
Proof. unfold rawApiData, twenty_yard. cbn. tauto. Qed.

Lemma C1_witness_twenty_yard :
  transport_cost twenty_yard = Some 248%float /\
  truthy 248 = true /\
  final_price (transform0 twenty_yard) =
    (price_with_vat (transform0 twenty_yard) + 248)%float.
Proof.
  split; [reflexivity|]. split; [reflexivity|].
  apply (proj1 (proj2 (proj2 (C1_price_with_tax_then_transport
                                no_shortest_decimal))) twenty_yard 248%float);
    reflexivity.
Defined.

(** The claim C1 fails on a record whose transport cost is present and
    [NaN]: the cost is not added, and the final price, 1190, is not the sum
    of the price with tax and the cost, which is [NaN]. *)
Lemma C1_present_nan_transport_cost_is_not_added :
  transport_cost nan_delivery = Some nan /\
  transport_cost nan_delivery <> None /\
  price_with_vat (transform0 nan_delivery) = 1190%float /\
  final_price (transform0 nan_delivery) = 1190%float /\
  is_nan (price_with_vat (transform0 nan_delivery) + nan) = true /\
  strict_eq (final_price (transform0 nan_delivery))
            (price_with_vat (transform0 nan_delivery) + nan) = false /\
  same_value_zero (final_price (transform0 nan_delivery))
                  (price_with_vat (transform0 nan_delivery) + nan) = false.
Proof. repeat split; try discriminate; vm_compute; reflexivity. Qed.

(** The claim C2 fails on a record whose transport cost is present and
    zero: its final price is its price with tax. *)
Lemma C2_present_zero_transport_cost_leaves_price :
  (0 <=? price_before_vat free_delivery)%float = true /\
  (0 <=? vat free_delivery)%float = true /\
  transport_cost free_delivery = Some 0%float /\
  (0 <=? 0)%float = true /\
  transport_cost free_delivery <> None /\
  strict_eq (final_price (transform0 free_delivery))
            (price_with_vat (transform0 free_delivery)) = true.
Proof. repeat split; try discriminate; vm_compute; reflexivity. Qed.

Lemma C2_witness_twenty_yard :
  (0 <=? price_before_vat twenty_yard)%float = true /\
  (0 <=? vat twenty_yard)%float = true /\
  transport_cost twenty_yard = Some 248%float /\
  (0 <=? 248)%float = true /\
  is_nan (price_with_vat (transform0 twenty_yard)) = false /\
  ge (final_price (transform0 twenty_yard))
     (price_with_vat (transform0 twenty_yard)) = true /\
  ge (price_with_vat (transform0 twenty_yard)) 0 = true /\
  ((price_with_vat (transform0 twenty_yard) <? exact_amount_bound)%float = true ->
   (forall t, transport_cost twenty_yard = Some t ->
              is_zero t = true \/ (1 <=? t)%float = true) ->
   (strict_eq (final_price (transform0 twenty_yard))
              (price_with_vat (transform0 twenty_yard)) = true
    <-> transport_cost twenty_yard = None \/
        exists t, transport_cost twenty_yard = Some t /\ is_zero t = true)).
Proof.
  split; [reflexivity|]. split; [reflexivity|].
  split; [reflexivity|]. split; [reflexivity|].
  split; [vm_compute; reflexivity|].
  apply (C2_final_price_bounds no_shortest_decimal twenty_yard).
  - reflexivity.
  - reflexivity.
  - intros t H. injection H as <-. reflexivity.
  - vm_compute. reflexivity.
Defined.

(** With a transport cost of half a pound the final price is above the
    price with tax: the lower bound of C2 needs no more than a cost that is
    not negative. *)
Remark half_pound_transport_cost_is_added :
  let r := priced 278 20 (Some 0.5%float) in
  price_with_vat (transform0 r) = 334%float /\
  final_price (transform0 r) = 334.5%float.
Proof. vm_compute. split; reflexivity. Qed.

(** A price of zero at an infinite rate has a price with tax that is not a
    number, and no comparison with it holds. *)
Remark zero_price_at_infinite_rate :
  let r := priced 0 infinity None in
  (0 <=? price_before_vat r)%float = true /\
  (0 <=? vat r)%float = true /\
  is_nan (price_with_vat (transform0 r)) = true /\
  ge (price_with_vat (transform0 r)) 0 = false.
Proof. vm_compute. repeat split. Qed.

(** At [2^53] a transport cost of 1 is lost in the sum: the bound on
    [priceWithTax] in C2 cannot be dropped. *)
Remark large_price_absorbs_transport_cost :
  let r := priced 9007199254740992 0 (Some 1%float) in
  price_with_vat (transform0 r) = 9007199254740992%float /\
  final_price (transform0 r) = price_with_vat (transform0 r).
Proof. vm_compute. split; reflexivity. Qed.

(** A transport cost far below 1 is lost in the sum as well. *)
Remark tiny_transport_cost_is_absorbed :
  let r := priced 992 20 (Some 1e-14%float) in
  final_price (transform0 r) = price_with_vat (transform0 r).
Proof. vm_compute. reflexivity. Qed.

(** The exact product [50 * 1.15] is 57.5, which rounds half up to 58; the
    binary64 product is just below it, and [Math.round] gives 57. *)
Remark binary64_product_below_tie :
  (50 * (1 + 15 / 100))%float = 57.499999999999993%float /\
  price_with_vat (transform0 (priced 50 15 None)) = 57%float.
Proof. vm_compute. split; reflexivity. Qed.

Lemma C3_witness_fixture :
  Forall (fun r => is_nan (size r) = false) rawApiData /\
  (forall s, In s catalog0 -> forbidden (apiData s) = false) /\
  Permutation catalog0
    (map transform0 (filter (fun skip => negb (forbidden skip)) rawApiData)) /\
  (forall i a b,
     nth_error catalog0 i = Some a -> nth_error catalog0 (S i) = Some b ->
     (size (apiData a) <=? size (apiData b))%float = true) /\
  (forall v,
     filter (fun s => strict_eq (size (apiData s)) v) catalog0 =
     filter (fun s => strict_eq (size (apiData s)) v)
       (map transform0 (filter (fun skip => negb (forbidden skip)) rawApiData))).
Proof.
  assert (H : Forall (fun r => is_nan (size r) = false) rawApiData)
    by (repeat constructor).
  split; [exact H|].
  exact (C3_catalog_filtered_sorted_stable no_shortest_decimal rawApiData H).
Defined.

Lemma C4_witness_fixture :
  exists k s,
    getMostPopularSkipIndex catalog0 = Z.of_nat k /\
    nth_error catalog0 k = Some s /\
    (forall j s', nth_error catalog0 j = Some s' ->
       (popularity (displayProps s') <=? popularity (displayProps s))%float = true) /\
    (forall j s', (j < k)%nat -> nth_error catalog0 j = Some s' ->
       (popularity (displayProps s') <? popularity (displayProps s))%float = true).
Proof.
  apply (proj1 (C4_most_popular_is_first_maximum no_shortest_decimal) catalog0).
  - repeat constructor.
  - discriminate.
Defined.

Lemma C5_witness_fixture :
  getSkipIndexBySize catalog0 16 = 6.
Proof.
  destruct (nth_error catalog0 6) as [s|] eqn:E; [|discriminate].
  apply (proj1 (C5_index_by_size_falls_back_to_most_popular no_shortest_decimal)
           catalog0 16%float 6%nat s E).
  - vm_compute in E. injection E as <-. reflexivity.
  - intros j s' Hj Hs'.
    do 6 (destruct j as [|j];
          [vm_compute in Hs'; injection Hs' as <-; reflexivity|]).
    lia.
Defined.

Lemma C6_witness_three_advances :
  1 <= Wizard.currentStep
         (Wizard.run Wizard.Advance
            (Wizard.run Wizard.Advance
               (Wizard.run Wizard.Advance Wizard.initial)))
    <= Wizard.totalSteps.
Proof.
  apply (proj1 (proj2 (proj2 (proj2 (proj2 (proj2
           C6_wizard_steps_clamped)))))).
  repeat constructor.
Defined.

Lemma C7_witness_three_tabs :
  let a := {| TabStrip.title := "Compact"; TabStrip.value := "17933" |} in
  let b := {| TabStrip.title := "Standard"; TabStrip.value := "17934" |} in
  let c := {| TabStrip.title := "Large"; TabStrip.value := "17935" |} in
  exists t,
    nth_error [a; b; c] 1 = Some t /\
    TabStrip.tabs (TabStrip.moveSelectedTabToTop [a; b; c] 1
                     (TabStrip.initial [a; b; c])) =
      map Some (t :: firstn 1 [a; b; c] ++ skipn 2 [a; b; c]) /\
    Permutation (t :: firstn 1 [a; b; c] ++ skipn 2 [a; b; c]) [a; b; c] /\
    TabStrip.active (TabStrip.moveSelectedTabToTop [a; b; c] 1
                       (TabStrip.initial [a; b; c])) = Some t /\
    forall idxB,
      TabStrip.moveSelectedTabToTop [a; b; c] 1
        (TabStrip.moveSelectedTabToTop [a; b; c] idxB
           (TabStrip.initial [a; b; c])) =
      TabStrip.moveSelectedTabToTop [a; b; c] 1 (TabStrip.initial [a; b; c]).
Proof.
  intros a b c.
  apply (C7_reorder_from_canonical_list [a; b; c] 1
           (TabStrip.initial [a; b; c])).
  cbn. lia.
Defined.

(** The claim C8 fails on a record whose transport cost is present and
    zero: the transport-cost message is not appended. *)
Lemma C8_present_zero_transport_cost_adds_no_message :
  transport_cost free_delivery = Some 0%float /\
  transport_cost free_delivery <> None /\
  restrictions (transform0 free_delivery) = ["Road permit required"%string].
Proof. repeat split; try discriminate. Qed.

Lemma C8_witness_same_fields :
  restrictions (transform0 twenty_yard) =
  restrictions (transform0 (of_size 20)) ++
  ["Road permit required"%string; "Additional transport costs apply"%string].
Proof.
  rewrite (proj1 (C8_restrictions_from_three_fields no_shortest_decimal)
             twenty_yard).
  reflexivity.
Defined.

(** The claim C9 fails for the icon: sizes 5 and 11 have no table entry and
    lie in the same documented band (below 12), yet get different icons. *)
Lemma C9_icon_differs_inside_a_band :
  sizeConfig 5 = None /\ sizeConfig 11 = None /\
  band 5 = BandElse /\ band 11 = BandElse /\
  icon (getDisplayProperties no_shortest_decimal (of_size 5)) = Home /\
  icon (getDisplayProperties no_shortest_decimal (of_size 11)) = Building.
Proof. repeat split; vm_compute; reflexivity. Qed.

Lemma C9_witness_fourteen_yard :
  sizeConfig (size (of_size 14)) = None /\
  getDisplayProperties no_shortest_decimal (of_size 14) =
    defaultConfig no_shortest_decimal 14.
Proof.
  assert (H : sizeConfig (size (of_size 14)) = None) by reflexivity.
  split; [exact H|].
  exact (proj1 (proj2 (C9_default_metadata_by_size_thresholds
                         no_shortest_decimal)) (of_size 14) H).
Defined.

Lemma C10_witness_first_click :
  Wizard.nextDisabled Wizard.initial = false /\
  Wizard.currentStep (Wizard.click Wizard.ClickNext Wizard.initial) = 1 + 1.
Proof.
  apply (proj2 (proj2 (proj2 (proj2 (proj2 C10_gate_is_constantly_true))))
           Wizard.initial).
  - constructor.
  - cbn. lia.
Defined.

Lemma X3_witness_free_delivery :
  transport_cost (apiData (transform0 free_delivery)) = Some 0%float /\
  truthy 0 = false /\
  (transportNote no_shortest_decimal (transform0 free_delivery) = "0"%string \/
   transportNote no_shortest_decimal (transform0 free_delivery) = "NaN"%string) /\
  transportNote no_shortest_decimal (transform0 free_delivery) <> EmptyString.
Proof.
  split; [reflexivity|]. split; [reflexivity|].
  apply (X3_falsy_transport_cost_is_printed no_shortest_decimal
           (transform0 free_delivery) 0%float); reflexivity.
Defined.

(** The breakdown lines of the fixture's 20-yard entry, with its transport
    cost and with a transport cost of zero. *)
Remark free_delivery_breakdown :
  priceBreakdown no_shortest_decimal (transform0 twenty_yard) =
    "£992 + £198 VAT + £248 transport"%string /\
  priceBreakdown no_shortest_decimal (transform0 free_delivery) =
    "£992 + £198 VAT0"%string.
Proof. split; vm_compute; reflexivity. Qed.

Lemma X4_witness_twenty_yard :
  0 <= 992 <= 10000 /\
  strict_eq (price_before_vat twenty_yard +
             vatAmount (transform0 twenty_yard))
            (price_with_vat (transform0 twenty_yard)) = true.
Proof.
  split; [lia|].
  apply (X4_breakdown_adds_up_at_twenty_percent no_shortest_decimal
           twenty_yard 992); [lia | reflexivity | reflexivity].
Defined.

(** At the rate of 15 the breakdown of a price of 50 does not add up: the
    tax printed is 8, the price with tax is 57. *)
Remark breakdown_misses_the_price_at_fifteen_percent :
  let skip := transform0 (priced 50 15 None) in
  vatAmount skip = 8%float /\ price_with_vat skip = 57%float /\
  (price_before_vat (apiData skip) + vatAmount skip)%float = 58%float.
Proof. vm_compute. repeat split. Qed.

Lemma X5_witness_twenty_yard :
  ge (price_with_vat (transform0 twenty_yard)) (price_before_vat twenty_yard)
    = true /\
  ((forall cost, transport_cost twenty_yard = Some cost ->
                 (0 <=? cost)%float = true) ->
   ge (final_price (transform0 twenty_yard)) (price_before_vat twenty_yard)
     = true).
Proof.
  apply (X5_tax_never_lowers_a_whole_price no_shortest_decimal twenty_yard 992).
  - vm_compute. reflexivity.
  - lia.
  - reflexivity.
Defined.

Lemma X6_witness_twenty_yard :
  exists n,
    0 <= n < 2 ^ 52 /\
    to_safe_integer (price_with_vat (transform0 twenty_yard)) = Some n /\
    toString no_shortest_decimal (price_with_vat (transform0 twenty_yard)) =
      string_of_Z n /\
    (transport_cost twenty_yard = None ->
     toString no_shortest_decimal (final_price (transform0 twenty_yard)) =
       string_of_Z n).
Proof.
  apply (X6_price_with_tax_is_a_whole_number no_shortest_decimal twenty_yard);
    vm_compute; reflexivity.
Defined.

Lemma fixture_sizes_identify_records (a b : SkipApiData) :
  In a rawApiData -> In b rawApiData ->
  strict_eq (size a) (size b) = true -> a = b.
Proof.
  unfold rawApiData. cbn [In]. intros Ha Hb H.
  repeat (destruct Ha as [<-|Ha]; [|]); try contradiction;
    repeat (destruct Hb as [<-|Hb]; [|]); try contradiction;
    try reflexivity; vm_compute in H; discriminate.
Qed.

Lemma X9_witness_fixture_reversed :
  buildCatalog no_shortest_decimal rawApiData =
  buildCatalog no_shortest_decimal (rev rawApiData).
Proof.
  apply (X9_catalog_ignores_record_order no_shortest_decimal).
  - apply Permutation_rev.
  - repeat constructor.
  - intros a b Ha Hb _ _. now apply fixture_sizes_identify_records.
Defined.

Lemma X10_witness_fixture :
  (exists s, item catalog0 (getMostPopularSkipIndex catalog0) = Some s) /\
  (forall sz, exists s, item catalog0 (getSkipIndexBySize catalog0 sz) = Some s) /\
  (forall sz, 0 <= getSkipIndexBySize catalog0 sz
              < Z.of_nat (List.length catalog0)).
Proof.
  apply (X10_lookups_designate_an_entry catalog0). discriminate.
Defined.

Lemma X11_witness_fixture :
  exists k s,
    getMostPopularSkipIndex (buildCatalog no_shortest_decimal rawApiData) =
      Z.of_nat k /\
    nth_error (buildCatalog no_shortest_decimal rawApiData) k = Some s /\
    strict_eq (size (apiData s)) 6 = true /\
    badge (displayProps s) = Some "Most Popular"%string /\
    forall j s', (j < k)%nat ->
      nth_error (buildCatalog no_shortest_decimal rawApiData) j = Some s' ->
      badge (displayProps s') = None.
Proof.
  apply (X11_most_popular_index_points_at_the_badge no_shortest_decimal
           rawApiData).
  destruct (nth_error rawApiData 1) as [r|] eqn:E; [|discriminate].
  exists r. split; [eapply nth_error_In; exact E|].
  vm_compute in E. injection E as <-. split; reflexivity.
Defined.

Lemma X12_witness_twenty_yard :
  exists s,
    item (buildCatalog no_shortest_decimal rawApiData)
         (getSkipIndexBySize (buildCatalog no_shortest_decimal rawApiData)
            (size twenty_yard)) = Some s /\
    strict_eq (size (apiData s)) (size twenty_yard) = true.
Proof.
  apply (X12_every_offered_size_is_found no_shortest_decimal rawApiData
           twenty_yard).
  - exact twenty_yard_in_fixture.
  - reflexivity.
  - reflexivity.
Defined.

Lemma fixture_ids :
  map (fun skip => to_safe_integer (id (apiData skip))) catalog0 =
  map Some [17933; 17934; 17935; 17936; 17937; 17938; 17939; 15124; 15125].
Proof. vm_compute. reflexivity. Qed.

Lemma fixture_ids_safe :
  Forall (fun skip => to_safe_integer (id (apiData skip)) <> None) catalog0.
Proof.
  apply Forall_forall. intros s Hs.
  apply (in_map (fun skip => to_safe_integer (id (apiData skip)))) in Hs.
  rewrite fixture_ids in Hs. cbn [map In] in Hs. intuition congruence.
Qed.

Lemma fixture_ids_distinct :
  NoDup (map (fun skip => to_safe_integer (id (apiData skip))) catalog0).
Proof.
  rewrite fixture_ids. repeat constructor; cbn; intuition discriminate.
Qed.

Lemma X13_witness_fixture :
  NoDup (map TabStrip.value (skipTabs no_shortest_decimal catalog0)) /\
  map TabStrip.title (skipTabs no_shortest_decimal catalog0) =
    map (fun skip => name (displayProps skip)) catalog0.
Proof.
  apply (X13_distinct_ids_give_distinct_tabs no_shortest_decimal catalog0).
  - exact fixture_ids_safe.
  - exact fixture_ids_distinct.
Defined.

Lemma fixture_tab_values_distinct :
  NoDup (map TabStrip.value (skipTabs no_shortest_decimal catalog0)).
Proof.
  vm_compute. repeat constructor; cbn; intuition discriminate.
Qed.

Lemma X14_witness_third_tab :
  exists skip first_skip,
    nth_error catalog0 2 = Some skip /\
    nth_error catalog0 0 = Some first_skip /\
    HybridSkipPanel no_shortest_decimal catalog0
      (TabStrip.tabs
         (TabStrip.moveSelectedTabToTop
            (skipTabs no_shortest_decimal catalog0) 2
            (TabStrip.initial (skipTabs no_shortest_decimal catalog0)))) =
      Some (SkipCard skip :: repeat NoCard (List.length catalog0 - 1)) /\
    HybridSkipPanel no_shortest_decimal catalog0
      (TabStrip.tabs (TabStrip.initial (skipTabs no_shortest_decimal catalog0))) =
      Some (SkipCard first_skip :: repeat NoCard (List.length catalog0 - 1)).
Proof.
  apply (X14_panel_shows_the_selected_skip no_shortest_decimal catalog0 2).
  - exact fixture_tab_values_distinct.
  - vm_compute. lia.
Defined.

Lemma X15_witness_fourth_of_three_tabs :
  let a := {| TabStrip.title := "Compact"; TabStrip.value := "17933" |} in
  let b := {| TabStrip.title := "Standard"; TabStrip.value := "17934" |} in
  let c := {| TabStrip.title := "Large"; TabStrip.value := "17935" |} in
  TabStrip.tabs (TabStrip.moveSelectedTabToTop [a; b; c] 3
                   (TabStrip.initial [a; b; c])) =
    None :: map Some [a; b; c] /\
  TabStrip.active (TabStrip.moveSelectedTabToTop [a; b; c] 3
                     (TabStrip.initial [a; b; c])) = None /\
  HybridSkipPanel no_shortest_decimal catalog0
    (TabStrip.tabs (TabStrip.moveSelectedTabToTop [a; b; c] 3
                      (TabStrip.initial [a; b; c]))) = None.
Proof.
  intros a b c.
  apply (X15_out_of_range_click_breaks_the_panel no_shortest_decimal [a; b; c] 3
           (TabStrip.initial [a; b; c]) catalog0).
  cbn. lia.
Defined.

Lemma X17_witness_first_step :
  (Wizard.handlePrevious (Wizard.handleNext Wizard.initial) = Wizard.initial <->
   Wizard.currentStep Wizard.initial < Wizard.totalSteps) /\
  (Wizard.handleNext (Wizard.handlePrevious Wizard.initial) = Wizard.initial <->
   1 < Wizard.currentStep Wizard.initial).
Proof.
  apply (X17_next_and_previous_undo_each_other Wizard.initial). constructor.
Defined.

Lemma X18_witness_ten_clicks :
  Wizard.currentStep
    (Nat.iter 10 (Wizard.click Wizard.ClickNext) Wizard.initial) =
    Z.min (Wizard.currentStep Wizard.initial + Z.of_nat 10) Wizard.totalSteps /\
  Wizard.currentStep
    (Nat.iter 10 (Wizard.click Wizard.ClickPrevious) Wizard.initial) =
    Z.max (Wizard.currentStep Wizard.initial - Z.of_nat 10) 1.
Proof.
  apply (X18_repeated_clicks_saturate Wizard.initial 10). constructor.
Defined.

Lemma X19_witness_second_step :
  let s := Wizard.run Wizard.Advance Wizard.initial in
  let c := Wizard.currentStep s in
  Indicator.circles c =
    repeat Indicator.Completed (Z.to_nat (c - 1)) ++
    [Indicator.Current] ++
    repeat Indicator.Upcoming (Z.to_nat (Wizard.totalSteps - c)) /\
  Indicator.connectors c =
    map Some (repeat true (Z.to_nat (c - 1)) ++
              repeat false (Z.to_nat (Wizard.totalSteps - 1 - (c - 1)))) ++
    [None] /\
  exists step,
    item Wizard.steps (c - 1) = Some step /\
    Wizard.step_id step = c /\
    Wizard.component step = componentName (Wizard.renderStepContent s).
Proof.
  intros s. apply (X19_indicator_follows_the_step s). repeat constructor.
Defined.


End Instances.
